(** * nemo-screenshot: a shallow embedding of [index.js]

    The plugin attaches [snap], [source] and [done] to a WebDriver-style
    driver and installs a hook on the command queue's uncaught-exception
    event.  The embedding below follows [index.js] function by function.

    - JavaScript strings are lists of UTF-16 code units ([list N]).
    - Error objects live in a heap ([gmap nat errobj]) and are passed by
      reference, because the code mutates their [stack] and
      [_nemoScreenshotHandled] properties in place.
    - Promises are cells of a second heap; a cell is settled at most once.
    - Everything the host decides (the driver's answers, the outcome of
      file-system calls, environment variables, the clock) is a field of
      the record [host]; the code is a function of it.
    - Effects are threaded through a state-and-exception monad [M]; every
      externally visible call is appended to the [trace] of the world.
    - A continuation handed to [then] is run as soon as it is registered,
      with the outcome the host supplies.  The order of events of one chain
      is that of the code; the interleaving of two chains ([source] next to
      [snap]) is a convention, and no statement below depends on it.
    - The flow is an event emitter: [flow.emit] calls the listeners of the
      event synchronously, and the hook is one of them.  The statements
      about what a pass emits are made on this emitter
      ([flow_emit_reentrant]); those that count the calls of one pass, or
      are about passes that do not emit, leave the outcome of the dispatch
      to the host ([flow_emit]).
    - The promise libraries (the native [Promise], the driver's deferred),
      Node's [path], [JSON.stringify] and [String.prototype.trim] are not
      part of the repository; they are modelled after their documented
      behaviour.

    The wrapper that [setup] installs around [WebElement.prototype.click]
    is not part of this development. *)

From Stdlib Require Import NArith List String Ascii Lia.
From stdpp Require Import base option list gmap.

Local Open Scope N_scope.

(** ** JavaScript strings *)

Module Js.

Abbreviation jsstring := (list N).

(** Code units of an ASCII literal. *)
Fixpoint lit (s : string) : jsstring :=
  match s with
  | EmptyString => []
  | String c s' => N_of_ascii c :: lit s'
  end.

Arguments lit : simpl never.

(** [String(n)] for a non-negative integer: its decimal digits. *)
Fixpoint digits (u : Decimal.uint) : jsstring :=
  match u with
  | Decimal.Nil => []
  | Decimal.D0 u' => 48 :: digits u'
  | Decimal.D1 u' => 49 :: digits u'
  | Decimal.D2 u' => 50 :: digits u'
  | Decimal.D3 u' => 51 :: digits u'
  | Decimal.D4 u' => 52 :: digits u'
  | Decimal.D5 u' => 53 :: digits u'
  | Decimal.D6 u' => 54 :: digits u'
  | Decimal.D7 u' => 55 :: digits u'
  | Decimal.D8 u' => 56 :: digits u'
  | Decimal.D9 u' => 57 :: digits u'
  end.

Definition decimal (n : N) : jsstring := digits (N.to_uint n).

(** Truthiness of a value that is a string or [undefined]. *)
Definition truthy (o : option jsstring) : bool :=
  match o with
  | Some (_ :: _) => true
  | _ => false
  end.

(** [x + '...'] where [x] is a string or [undefined]. *)
Definition to_str (o : option jsstring) : jsstring :=
  match o with
  | Some s => s
  | None => lit "undefined"
  end.

(** White space and line terminators, the characters [String.prototype.trim]
    strips. *)
Definition is_space (c : N) : bool :=
  ((9 <=? c) && (c <=? 13)) || (c =? 32) || (c =? 160) || (c =? 5760)
  || ((8192 <=? c) && (c <=? 8202)) || (c =? 8232) || (c =? 8233)
  || (c =? 8239) || (c =? 8287) || (c =? 12288) || (c =? 65279).

Fixpoint trimStart (s : jsstring) : jsstring :=
  match s with
  | [] => []
  | c :: s' => if is_space c then trimStart s' else s
  end.

Definition trimEnd (s : jsstring) : jsstring := rev (trimStart (rev s)).

Definition trim (s : jsstring) : jsstring := trimEnd (trimStart s).

(** The class [\w] of a regular expression without flags: [[A-Za-z0-9_]]. *)
Definition is_word (c : N) : bool :=
  ((48 <=? c) && (c <=? 57)) || ((65 <=? c) && (c <=? 90)) || (c =? 95)
  || ((97 <=? c) && (c <=? 122)).

Definition underscore : N := 95.

(** [s.replace(/\W/g, '_')]: without the [u] flag the pattern is matched
    against single code units. *)
Definition replace_nonword (s : jsstring) : jsstring :=
  map (fun c => if is_word c then c else underscore) s.

(** [s.substring(0, n)] and [s.substr(n)] for a non-negative [n]. *)
Definition substring0 (n : nat) (s : jsstring) : jsstring := take n s.
Definition substr (n : nat) (s : jsstring) : jsstring := drop n s.

(** The quoting of [JSON.stringify] (ECMAScript 2019).  The quote and the
    backslash are escaped, control characters are written with their short
    escapes or as [\u00xx], a surrogate that is not part of a pair as
    [\udxxx]; every other code unit stands for itself. *)
Definition hex_digit (n : N) : N := if n <? 10 then 48 + n else 87 + n.

Definition unicode_escape (c : N) : jsstring :=
  [92; 117; hex_digit (c / 4096); hex_digit ((c / 256) mod 16);
   hex_digit ((c / 16) mod 16); hex_digit (c mod 16)].

Definition is_high_surrogate (c : N) : bool := (55296 <=? c) && (c <=? 56319).
Definition is_low_surrogate (c : N) : bool := (56320 <=? c) && (c <=? 57343).

Definition json_escape (c : N) : jsstring :=
  if c =? 8 then [92; 98]
  else if c =? 9 then [92; 116]
  else if c =? 10 then [92; 110]
  else if c =? 12 then [92; 102]
  else if c =? 13 then [92; 114]
  else if c =? 34 then [92; 34]
  else if c =? 92 then [92; 92]
  else if c <? 32 then unicode_escape c
  else if is_low_surrogate c then unicode_escape c
  else [c].

Fixpoint json_units (s : jsstring) : jsstring :=
  match s with
  | [] => []
  | c :: s' =>
      if is_high_surrogate c then
        match s' with
        | d :: s'' =>
            if is_low_surrogate d then c :: d :: json_units s''
            else unicode_escape c ++ json_units s'
        | [] => unicode_escape c
        end
      else json_escape c ++ json_units s'
  end.

Definition json_quote (s : jsstring) : jsstring :=
  34 :: json_units s ++ [34].

End Js.

Import Js.

(** ** Node's [path] module (POSIX flavour) *)

Module Path.

Definition slash : N := 47.
Definition dot : jsstring := [46].
Definition dotdot : jsstring := [46; 46].

(** The segments between the slashes of a path; never empty. *)
Fixpoint split (s : jsstring) : list jsstring :=
  match s with
  | [] => [[]]
  | c :: s' =>
      if c =? slash then [] :: split s'
      else match split s' with
           | seg :: segs => (c :: seg) :: segs
           | [] => [[c]]
           end
  end.

Fixpoint join_segs (segs : list jsstring) : jsstring :=
  match segs with
  | [] => []
  | [seg] => seg
  | seg :: segs' => seg ++ slash :: join_segs segs'
  end.

(** One step of [normalizeString]: the stack holds the kept segments, the
    most recent first. *)
Definition norm_step (allowAboveRoot : bool) (stack : list jsstring)
    (seg : jsstring) : list jsstring :=
  if bool_decide (seg = []) || bool_decide (seg = dot) then stack
  else if bool_decide (seg = dotdot) then
    match stack with
    | top :: below =>
        if bool_decide (top = dotdot)
        then (if allowAboveRoot then dotdot :: stack else stack)
        else below
    | [] => if allowAboveRoot then [dotdot] else []
    end
  else seg :: stack.

Definition normalize_segs (allowAboveRoot : bool) (segs : list jsstring)
  : list jsstring :=
  rev (fold_left (norm_step allowAboveRoot) segs []).

Definition normalizeString (path : jsstring) (allowAboveRoot : bool) : jsstring :=
  join_segs (normalize_segs allowAboveRoot (split path)).

Definition isAbsolute (path : jsstring) : bool :=
  match path with
  | c :: _ => c =? slash
  | [] => false
  end.

Definition endsWithSlash (path : jsstring) : bool :=
  match rev path with
  | c :: _ => c =? slash
  | [] => false
  end.

(** [path.normalize] *)
Definition normalize (path : jsstring) : jsstring :=
  match path with
  | [] => dot
  | _ =>
      let abs := isAbsolute path in
      let trailing := endsWithSlash path in
      let body := normalizeString path (negb abs) in
      match body with
      | [] => if abs then [slash] else if trailing then dot ++ [slash] else dot
      | _ =>
          let body := if trailing then body ++ [slash] else body in
          if abs then slash :: body else body
      end
  end.

(** [path.join(a, b)] *)
Definition join (a b : jsstring) : jsstring :=
  match a, b with
  | [], [] => dot
  | [], _ => normalize b
  | _, [] => normalize a
  | _, _ => normalize (a ++ slash :: b)
  end.

(** [path.resolve(d)] with one argument, [cwd] being [process.cwd()]. *)
Definition resolve (cwd d : jsstring) : jsstring :=
  let r1 := match d with [] => [] | _ => d ++ [slash] end in
  let abs1 := isAbsolute d in
  let r2 := if abs1 then r1 else match cwd with [] => r1 | _ => cwd ++ slash :: r1 end in
  let abs2 := abs1 || isAbsolute cwd in
  let body := normalizeString r2 (negb abs2) in
  if abs2 then slash :: body
  else match body with [] => dot | _ => body end.

(** The backwards scan of [path.dirname]: [l] holds the characters at the
    indices [i], [i-1], ..., [1]. *)
Fixpoint dirname_end (l : jsstring) (i : nat) (matchedSlash : bool) : option nat :=
  match l with
  | [] => None
  | c :: l' =>
      if c =? slash then
        (if matchedSlash then dirname_end l' (pred i) matchedSlash else Some i)
      else dirname_end l' (pred i) false
  end.

(** [path.dirname] *)
Definition dirname (path : jsstring) : jsstring :=
  match path with
  | [] => dot
  | c :: rest =>
      let hasRoot := c =? slash in
      match dirname_end (rev rest) (length rest) true with
      | None => if hasRoot then [slash] else dot
      | Some e =>
          if hasRoot && Nat.eqb e 1 then [slash; slash] else take e path
      end
  end.

(** [p] is a proper descendant of the directory [dir]. *)
Definition lies_under (dir p : jsstring) : Prop :=
  exists rest, rest <> [] /\
    p = (if bool_decide (dir = [slash]) then dir else dir ++ [slash]) ++ rest.

Definition slashfree (s : jsstring) : Prop := Forall (fun c => c <> slash) s.

(** A segment that [normalizeString] keeps as it is. *)
Definition kept (seg : jsstring) : Prop :=
  seg <> [] /\ seg <> dot /\ seg <> dotdot.

Definition clean (seg : jsstring) : Prop := kept seg /\ slashfree seg.

Definition keepb (seg : jsstring) : bool :=
  negb (bool_decide (seg = []) || bool_decide (seg = dot)).

End Path.

(** ** Values, heaps and the host *)

(** A reference to an error object of the heap. *)
Abbreviation ref := nat.

(** An error object: the properties the plugin reads or writes.  [stack] is
    [None] when the property is [undefined]. *)
Record errobj := ErrObj {
  message : jsstring;
  stack : option jsstring;
  _nemoScreenshotHandled : bool
}.

(** A primitive value: a boolean, a number (here a non-negative integer)
    or a string. *)
Inductive primitive :=
| PBool (b : bool)
| PNumber (n : N)
| PString (s : jsstring).

(** [if (v)] on a primitive. *)
Definition prim_truthy (v : primitive) : bool :=
  match v with
  | PBool b => b
  | PNumber n => negb (n =? 0)
  | PString s => match s with [] => false | _ => true end
  end.

(** The error argument of [done], which the caller chooses freely:
    [undefined], [null], an ordinary object of the heap (its properties
    can be written), a primitive, or an object whose [stack] cannot be
    written (a frozen object). *)
Inductive errarg :=
| EUndefined
| ENull
| EObj (r : ref)
| EPrim (v : primitive)
| EFrozen (r : ref).

(** [if (err)] *)
Definition err_truthy (err : errarg) : bool :=
  match err with
  | EUndefined | ENull => false
  | EPrim v => prim_truthy v
  | EObj _ | EFrozen _ => true
  end.

(** The assignment [err.stack = ...] of strict code succeeds on an
    ordinary object only: on a primitive and on a frozen object it throws
    a [TypeError]. *)
Definition stack_assignable (err : errarg) : bool :=
  match err with
  | EObj _ => true
  | _ => false
  end.

(** The object [snap] resolves with. *)
Record imageObj := ImageObj {
  imageName : jsstring;
  imagePath : jsstring;
  imageUrl : option jsstring;
  archivedImageUrl : option jsstring
}.

(** The object [source] resolves with. *)
Record sourceObj := SourceObj {
  sourceName : jsstring;
  sourcePath : jsstring
}.

(** What a capture promise is fulfilled with: the sentinel [true] of the
    no-session case, or a result object.  These are plain data, none of
    them has a [then] property. *)
Inductive capture :=
| VTrue
| VImage (o : imageObj)
| VSource (o : sourceObj).

(** [JSON.stringify] on what a capture promise is fulfilled with.  The
    properties come in the order they were set; a property whose value is
    [undefined] is left out. *)
Definition json_member (name : string) (value : jsstring) : jsstring :=
  json_quote (lit name) ++ 58 :: json_quote value.

Definition json_optional (name : string) (value : option jsstring) : jsstring :=
  match value with
  | Some v => 44 :: json_member name v
  | None => []
  end.

Definition stringify (v : capture) : jsstring :=
  match v with
  | VTrue => lit "true"
  | VImage o =>
      123 :: json_member "imageName" (imageName o)
        ++ 44 :: json_member "imagePath" (imagePath o)
        ++ json_optional "imageUrl" (imageUrl o)
        ++ json_optional "archivedImageUrl" (archivedImageUrl o)
        ++ [125]
  | VSource o =>
      123 :: json_member "sourceName" (sourceName o)
        ++ 44 :: json_member "sourcePath" (sourcePath o)
        ++ [125]
  end.

(** The state of a promise cell. *)
Inductive settled :=
| Pending
| Fulfilled (v : capture)
| Rejected (e : ref).

(** How a promise of the driver ends: with a value, with an error, or not
    at all (a driver that does not respond). *)
Inductive outcome (A : Type) :=
| Resolved (a : A)
| Failed (e : ref)
| Never.
Arguments Resolved {A} a.
Arguments Failed {A} e.
Arguments Never {A}.

(** What [driver.getSession()] returns: a falsy value, or a thenable that
    settles with a session (truthy, [true]) or without one ([false]). *)
Inductive sessionRet :=
| SessFalsy
| SessThenable (o : outcome bool).

Definition session_truthy (s : sessionRet) : bool :=
  match s with
  | SessFalsy => false
  | SessThenable _ => true
  end.

Inductive encoding := Base64 | Utf8.

Inductive command :=
| GetSession
| TakeScreenshot
| GetPageSource
| ExecuteScript.

(** The calls the plugin makes on the outside world, in the order made. *)
Inductive event :=
| DriverCmd (c : command)
| Mkdirp (dir : jsstring)
| WriteFile (path data : jsstring) (enc : encoding)
| ConsoleLog (msg : jsstring) (about : option ref)
| ConsoleError (e : ref)
| Emit (exception : ref)
| Callback (arg : errarg)
| Unhandled (e : ref).

Definition is_fs_event (ev : event) : bool :=
  match ev with
  | Mkdirp _ | WriteFile _ _ _ => true
  | _ => false
  end.

Definition is_log_event (ev : event) : bool :=
  match ev with
  | ConsoleLog _ _ | ConsoleError _ => true
  | _ => false
  end.

Definition is_capture_event (ev : event) : bool :=
  match ev with
  | DriverCmd TakeScreenshot | DriverCmd GetPageSource
  | DriverCmd ExecuteScript => true
  | _ => false
  end.

(** Everything the plugin is given: the arguments of [setup], the
    environment, and the answers of the driver and of the file system. *)
Record host := Host {
  screenShotPath : jsstring;
  autoCaptureOptions : list jsstring;
  nativePromise : bool;                    (* global.Promise is defined *)
  JENKINS_URL : option jsstring;
  BUILD_URL : option jsstring;
  JOB_NAME : option jsstring;
  WORKSPACE : option jsstring;
  cwd : jsstring;                          (* process.cwd() *)
  pid : N;                                 (* process.pid *)
  now : N;                                 (* new Date().getTime() *)
  getSession : sessionRet;
  takeScreenshot : outcome jsstring;
  getPageSource : outcome jsstring;
  executeScript : outcome jsstring;
  mkdirp_sync : jsstring -> option ref;    (* Some e: throws e *)
  writeFile : jsstring -> option ref;      (* Some e: the callback gets e *)
  emit_throws : ref -> option ref;         (* Some e: a listener throws e *)
  JSON_stringify : capture -> jsstring     (* JSON.stringify *)
}.

Record world := World {
  cells : gmap nat settled;                (* promise cells *)
  next_cell : nat;
  objs : gmap ref errobj;                  (* error objects *)
  next_obj : ref;
  files : gmap jsstring (jsstring * encoding);
  currentTestTitle : option jsstring;      (* nemo.screenshot._currentTestTitle *)
  trace : list event
}.

(** ** The monad: state, and exceptions thrown with [throw] *)

Inductive result (A : Type) :=
| Ret (a : A)
| Throw (e : ref).
Arguments Ret {A} a.
Arguments Throw {A} e.

Definition M (A : Type) : Type := world -> result A * world.

Definition ret {A} (a : A) : M A := fun w => (Ret a, w).

Definition bind {A B} (m : M A) (k : A -> M B) : M B :=
  fun w =>
    match m w with
    | (Ret a, w') => k a w'
    | (Throw e, w') => (Throw e, w')
    end.

Definition throw {A} (e : ref) : M A := fun w => (Throw e, w).

Declare Scope js_scope.
Delimit Scope js_scope with js.
Notation "x <- c ;; k" := (bind c (fun x => k))
  (at level 100, c at next level, right associativity) : js_scope.
Notation "c ;; k" := (bind c (fun _ => k))
  (at level 100, right associativity) : js_scope.
Local Open Scope js_scope.

Definition get_world : M world := fun w => (Ret w, w).

Definition emit_event (ev : event) : M unit :=
  fun w => (Ret tt,
    World (cells w) (next_cell w) (objs w) (next_obj w) (files w)
          (currentTestTitle w) (trace w ++ [ev])).

Definition set_cells (c : gmap nat settled) (n : nat) : M unit :=
  fun w => (Ret tt,
    World c n (objs w) (next_obj w) (files w) (currentTestTitle w) (trace w)).

Definition set_objs (o : gmap ref errobj) (n : ref) : M unit :=
  fun w => (Ret tt,
    World (cells w) (next_cell w) o n (files w) (currentTestTitle w) (trace w)).

Definition set_files (f : gmap jsstring (jsstring * encoding)) : M unit :=
  fun w => (Ret tt,
    World (cells w) (next_cell w) (objs w) (next_obj w) f
          (currentTestTitle w) (trace w)).

(** A new pending cell. *)
Definition new_cell : M nat :=
  w <- get_world ;;
  set_cells (<[next_cell w := Pending]> (cells w)) (S (next_cell w)) ;;
  ret (next_cell w).

(** Settling is once only: a settled cell ignores later calls.  This is
    the behaviour of the resolving functions of a native promise and of
    the [fulfill] and [reject] of the driver's deferred alike, for values
    that are not themselves promises. *)
Definition settle (c : nat) (s : settled) : M unit :=
  w <- get_world ;;
  match cells w !! c with
  | Some Pending => set_cells (<[c := s]> (cells w)) (next_cell w)
  | _ => ret tt
  end.

(** The state of a promise as its [then] observes it. *)
Definition await (c : nat) : M (outcome capture) :=
  w <- get_world ;;
  ret (match cells w !! c with
       | Some (Fulfilled v) => Resolved v
       | Some (Rejected e) => Failed e
       | _ => Never
       end).

(** [promise.then(onOk, onErr)].  The callback that applies is run with the
    outcome the host gave; the result is the outcome of the derived
    promise: a callback that throws rejects it, a rejection without
    [onErr] is passed on. *)
Definition then_ {A B} (o : outcome A) (onOk : A -> M B)
    (onErr : option (ref -> M B)) : M (outcome B) :=
  fun w =>
    match o with
    | Resolved a =>
        match onOk a w with
        | (Ret b, w') => (Ret (Resolved b), w')
        | (Throw e, w') => (Ret (Failed e), w')
        end
    | Failed e =>
        match onErr with
        | Some h =>
            match h e w with
            | (Ret b, w') => (Ret (Resolved b), w')
            | (Throw e', w') => (Ret (Failed e'), w')
            end
        | None => (Ret (Failed e), w)
        end
    | Never => (Ret Never, w)
    end.

(** [promise.catch(onErr)]: a fulfilled promise is passed on. *)
Definition catch_ {A} (o : outcome A) (onErr : ref -> M A) : M (outcome A) :=
  then_ o ret (Some onErr).

(** A promise that is dropped: its rejection has no handler. *)
Definition drop_promise {A} (o : outcome A) : M unit :=
  match o with
  | Failed e => emit_event (Unhandled e)
  | _ => ret tt
  end.

(** ** The plugin *)

(** The two ends of a deferred: closures over a cell of the driver's
    promise library or over a native promise. *)
Inductive resolver :=
| WdFulfill (c : nat)        (* function (n) { wdPromiz.fulfill(n); } *)
| NativeGood (c : nat).      (* good *)

Inductive rejecter :=
| WdReject (c : nat)         (* function (err) { wdPromiz.reject(err); } *)
| NativeBad (c : nat).       (* bad *)

Record deferred := Deferred {
  promise : nat;
  fulfill : resolver;
  reject : rejecter
}.

Definition call_fulfill (f : resolver) (v : capture) : M unit :=
  match f with
  | WdFulfill c => settle c (Fulfilled v)
  | NativeGood c => settle c (Fulfilled v)
  end.

Definition call_reject (f : rejecter) (e : ref) : M unit :=
  match f with
  | WdReject c => settle c (Rejected e)
  | NativeBad c => settle c (Rejected e)
  end.

(** A new error object. *)
Definition new_error (msg : jsstring) : M ref :=
  w <- get_world ;;
  set_objs (<[next_obj w := ErrObj msg (Some msg) false]> (objs w))
           (S (next_obj w)) ;;
  ret (next_obj w).

(** The message of the [RangeError] of an exhausted call stack. *)
Definition range_error : jsstring :=
  lit "RangeError: Maximum call stack size exceeded".

(** The message of the [TypeError] of a failed assignment to [stack]. *)
Definition stack_type_error : jsstring :=
  lit "TypeError: Cannot assign to property 'stack'".

Definition get_handled (r : ref) : M bool :=
  w <- get_world ;;
  ret (match objs w !! r with
       | Some o => _nemoScreenshotHandled o
       | None => false
       end).

Definition set_handled (r : ref) : M unit :=
  w <- get_world ;;
  set_objs (alter (fun o => ErrObj (message o) (stack o) true) r (objs w))
           (next_obj w).

(** The write [err.stack = err.stack + output]. *)
Definition annotate (output : jsstring) (o : errobj) : errobj :=
  ErrObj (message o) (Some (to_str (stack o) ++ output))
         (_nemoScreenshotHandled o).

Definition append_stack (r : ref) (output : jsstring) : M unit :=
  w <- get_world ;;
  set_objs (alter (annotate output) r (objs w)) (next_obj w).

(** The statement [err.stack = err.stack + output] for a truthy [err].
    The file is strict code, so the assignment throws a [TypeError] when
    [err] is a primitive or a frozen object. *)
Definition assign_stack (err : errarg) (output : jsstring) : M unit :=
  match err with
  | EObj r => append_stack r output
  | _ =>
      e <- new_error stack_type_error ;;
      throw e
  end.

Definition prop_imageUrl (v : capture) : option jsstring :=
  match v with
  | VImage o => imageUrl o
  | _ => None
  end.

Definition prop_archivedImageUrl (v : capture) : option jsstring :=
  match v with
  | VImage o => archivedImageUrl o
  | _ => None
  end.

(** What [formatJenkinsImageUrls] returns when it is not [null]. *)
Record jenkinsUrls := JenkinsUrls {
  workspaceUrl : option jsstring;          (* imageUrl *)
  archiveUrl : option jsstring             (* archivedImageUrl *)
}.

Definition nl : jsstring := [10].

(** [titleSlug] *)
Definition titleSlug (title : jsstring) : jsstring :=
  match title with
  | [] => []
  | _ => substring0 251 (replace_nonword (trim title))
  end.

Section Plugin.

Variable h : host.

(** [p]: the deferred of the driver's library is always made; with a
    native [Promise] its executor runs at once and rebinds [fulfill] and
    [reject] before the record is built. *)
Definition p : M deferred :=
  wdPromiz <- new_cell ;;
  let fulfill0 := WdFulfill wdPromiz in
  let reject0 := WdReject wdPromiz in
  if nativePromise h then
    promiz <- new_cell ;;
    ret (Deferred promiz (NativeGood promiz) (NativeBad promiz))
  else
    ret (Deferred wdPromiz fulfill0 reject0).

(** The text [appendImageUrlToStackTrace] builds in [output]. *)
Definition stack_output (imageObject : capture) : jsstring :=
  let iu := prop_imageUrl imageObject in
  let au := prop_archivedImageUrl imageObject in
  if truthy iu || truthy au then
    nl ++ (if truthy iu
           then lit "nemo-screenshot (workspace): " ++ to_str iu ++ nl
           else [])
       ++ (if truthy au
           then lit "nemo-screenshot (archived): " ++ to_str au ++ nl
           else [])
  else
    nl ++ lit "nemo-screenshot::" ++ JSON_stringify h imageObject
       ++ lit "::nemo-screenshot".

(** [appendImageUrlToStackTrace]: the stack is touched only when [err] is
    truthy. *)
Definition appendImageUrlToStackTrace (imageObject : capture) (err : errarg)
  : M unit :=
  let output := stack_output imageObject in
  if err_truthy err then assign_stack err output else ret tt.

(** [formatJenkinsImageUrls] *)
Definition formatJenkinsImageUrls (screenShotPath imageName : jsstring)
  : M (option jenkinsUrls) :=
  let jenkinsUrl := JENKINS_URL h in
  let buildUrl := BUILD_URL h in
  let jobName := JOB_NAME h in
  let workspace := WORKSPACE h in
  if negb (truthy workspace) then
    emit_event (ConsoleLog
      (lit "nemo-screenshot was unable to format Jenkins image URLs: WORKSPACE env variable is not defined")
      None) ;;
    ret None
  else
    let relImagePath := substr (length (to_str workspace)) screenShotPath in
    imageUrl <-
      (if truthy jobName then
         ret (Some (to_str jenkinsUrl ++ lit "job/" ++ to_str jobName
                      ++ lit "/ws" ++ relImagePath ++ lit "/" ++ imageName))
       else
         emit_event (ConsoleLog
           (lit "nemo-screenshot was unable to format Jenkins workspace image URL: JOB_NAME env variable is not defined")
           None) ;;
         ret None) ;;
    let archivedImageUrl :=
      if truthy buildUrl
      then Some (to_str buildUrl ++ lit "artifact" ++ relImagePath
                   ++ lit "/" ++ imageName)
      else None in
    if truthy imageUrl || truthy archivedImageUrl
    then ret (Some (JenkinsUrls imageUrl archivedImageUrl))
    else ret None.

Definition driver_getSession : M sessionRet :=
  emit_event (DriverCmd GetSession) ;; ret (getSession h).

Definition driver_takeScreenshot : M (outcome jsstring) :=
  emit_event (DriverCmd TakeScreenshot) ;; ret (takeScreenshot h).

Definition driver_getPageSource : M (outcome jsstring) :=
  emit_event (DriverCmd GetPageSource) ;; ret (getPageSource h).

Definition driver_executeScript : M (outcome jsstring) :=
  emit_event (DriverCmd ExecuteScript) ;; ret (executeScript h).

(** [mkdirp.sync(dir)] *)
Definition mkdirp (dir : jsstring) : M unit :=
  emit_event (Mkdirp dir) ;;
  match mkdirp_sync h dir with
  | Some e => throw e
  | None => ret tt
  end.

(** [fs.writeFile(path, data, options, cb)] *)
Definition fs_writeFile (path data : jsstring) (enc : encoding)
    (cb : option ref -> M unit) : M unit :=
  emit_event (WriteFile path data enc) ;;
  match writeFile h path with
  | Some e => cb (Some e)
  | None =>
      w <- get_world ;;
      set_files (<[path := (data, enc)]> (files w)) ;;
      cb None
  end.

(** The paths [snap] and [source] write to:
    [path.join(path.resolve(screenShotPath), filename + ext)]. *)
Definition capture_path (filename ext : jsstring) : jsstring :=
  Path.join (Path.resolve (cwd h) (screenShotPath h)) (filename ++ ext).

Definition snap_path (filename : jsstring) : jsstring :=
  capture_path filename (lit ".png").

Definition source_path (filename : jsstring) : jsstring :=
  capture_path filename (lit ".html").

Definition invisinode_path (filename : jsstring) : jsstring :=
  capture_path filename (lit ".txt").

(** [nemo.screenshot.snap] *)
Definition snap (filename : jsstring) : M nat :=
  deferred <- p ;;
  session <- driver_getSession ;;
  if negb (session_truthy session) then
    call_fulfill (fulfill deferred) VTrue ;;
    ret (promise deferred)
  else
    shot <- driver_takeScreenshot ;;
    chained <- then_ shot
      (fun screenImg =>
         let imageName := filename ++ lit ".png" in
         let imageFullPath := snap_path filename in
         mkdirp (Path.dirname imageFullPath) ;;
         imageUrls <-
           (if truthy (JENKINS_URL h)
            then formatJenkinsImageUrls (screenShotPath h) imageName
            else ret None) ;;
         let imageObj :=
           match imageUrls with
           | Some u => ImageObj imageName imageFullPath (workspaceUrl u) (archiveUrl u)
           | None => ImageObj imageName imageFullPath None None
           end in
         fs_writeFile imageFullPath screenImg Base64
           (fun err =>
              match err with
              | Some e => call_reject (reject deferred) e
              | None => call_fulfill (fulfill deferred) (VImage imageObj)
              end))
      (Some (fun err => call_reject (reject deferred) err)) ;;
    drop_promise chained ;;
    ret (promise deferred).

(** The DOM-inspection side channel of [source]:
    [driver.executeScript(script).then(function (bin_str_invisiNodes) ...)],
    a promise nobody keeps. *)
Definition side_channel (filename : jsstring) (script : outcome jsstring)
  : M (outcome unit) :=
  then_ script
    (fun bin_str_invisiNodes =>
       let filePath := invisinode_path filename in
       fs_writeFile filePath bin_str_invisiNodes Utf8
         (fun err =>
            match err with
            | Some e => emit_event (ConsoleError e)
            | None => ret tt
            end))
    None.

(** [nemo.screenshot.source] *)
Definition source (filename : jsstring) : M nat :=
  deferred <- p ;;
  session <- driver_getSession ;;
  if negb (session_truthy session) then
    call_fulfill (fulfill deferred) VTrue ;;
    ret (promise deferred)
  else
    script <- driver_executeScript ;;
    side <- side_channel filename script ;;
    drop_promise side ;;
    page <- driver_getPageSource ;;
    chained <- then_ page
      (fun src =>
         let sourceName := filename ++ lit ".html" in
         let sourceFullPath := source_path filename in
         mkdirp (Path.dirname sourceFullPath) ;;
         let sourceObj := SourceObj sourceName sourceFullPath in
         fs_writeFile sourceFullPath src Utf8
           (fun err =>
              match err with
              | Some e => call_reject (reject deferred) e
              | None => call_fulfill (fulfill deferred) (VSource sourceObj)
              end))
      (Some (fun err => call_reject (reject deferred) err)) ;;
    drop_promise chained ;;
    ret (promise deferred).

(** The completion callback handed to [done]. *)
Definition callback (arg : errarg) : M unit := emit_event (Callback arg).

(** [nemo.screenshot.done] *)
Definition done (filename : jsstring) (err : errarg) : M unit :=
  pr <- snap filename ;;
  state <- await pr ;;
  chained <- then_ state
    (fun imageObject =>
       appendImageUrlToStackTrace imageObject err ;;
       callback err)
    (Some (fun scerror =>
       emit_event (ConsoleLog (lit "nemo-screenshot encountered some error.")
                              (Some scerror)) ;;
       callback (EObj scerror))) ;;
  drop_promise chained.

(** [nemo.screenshot.setCurrentTestTitle] *)
Definition setCurrentTestTitle (title : option jsstring) : M unit :=
  fun w => (Ret tt,
    World (cells w) (next_cell w) (objs w) (next_obj w) (files w) title (trace w)).

Definition has_option (name : string) : bool :=
  bool_decide (lit name ∈ autoCaptureOptions h).

(** The continuation of [driver.getSession()] in the listener below:
    [function (session) { ... }].  [emit] is
    [flow.emit(uncaughtException, _)]. *)
Definition onSession (emit : ref -> M unit) (exception : ref)
    (session : bool) : M unit :=
  if session then
    let filename := lit "ScreenShot_onException-" ++ decimal (pid h)
                      ++ lit "-" ++ decimal (now h) in
    w <- get_world ;;
    let testTitle := currentTestTitle w in
    let filename :=
      if truthy testTitle then titleSlug (to_str testTitle) else filename in
    (if has_option "source" then source filename ;; ret tt else ret tt) ;;
    pr <- snap filename ;;
    state <- await pr ;;
    inner <- then_ state
      (fun imageObject =>
         appendImageUrlToStackTrace imageObject (EObj exception) ;;
         emit exception)
      None ;;
    drop_promise inner
  else throw exception.

(** The listener [setup] subscribes to the uncaught-exception event. *)
Definition onUncaughtException (emit : ref -> M unit) (exception : ref)
  : M unit :=
  handled <- get_handled exception ;;
  (if handled then emit exception else ret tt) ;;
  set_handled exception ;;
  session <- driver_getSession ;;
  match session with
  | SessFalsy =>
      e <- new_error (lit "TypeError: Cannot read property 'then'") ;;
      throw e
  | SessThenable query =>
      first <- then_ query (onSession emit exception) None ;;
      second <- catch_ first
        (fun e => set_handled e ;; emit exception) ;;
      drop_promise second
  end.

(** [flow.emit] with the outcome of the dispatch left to the host: the
    call is recorded, and it returns or throws as [emit_throws] says.  This
    is the emitter of the statements that count the calls one pass makes
    and of those about passes that do not emit. *)
Definition flow_emit (exception : ref) : M unit :=
  emit_event (Emit exception) ;;
  match emit_throws h exception with
  | Some e => throw e
  | None => ret tt
  end.

(** One pass of an exception through the hook, the outcome of its
    emissions left to the host. *)
Definition hook_pass (exception : ref) : M unit :=
  onUncaughtException flow_emit exception.

(** [flow.emit] of the flow the hook is subscribed on ([flow.on] and
    [flow.emit] are called on the same flow with the same event): the
    emitter calls its listeners synchronously, in the order they were
    subscribed.  A listener subscribed ahead of the hook may throw
    ([emit_throws]), which ends the emission; otherwise the hook is called,
    so that an emission from inside the hook enters it again.  [depth] is
    the room left on the call stack; when it is used up the engine throws
    a [RangeError].  Listeners subscribed after the hook run when the hook
    has returned; they are outside the plugin. *)
Fixpoint flow_emit_reentrant (depth : nat) (exception : ref) : M unit :=
  match depth with
  | O =>
      e <- new_error range_error ;;
      throw e
  | S depth' =>
      emit_event (Emit exception) ;;
      match emit_throws h exception with
      | Some e => throw e
      | None => onUncaughtException (flow_emit_reentrant depth') exception
      end
  end.

(** One pass of an exception through the hook as [setup] subscribes it:
    what the pass emits is dispatched to the hook again. *)
Definition hook_pass_on_flow (depth : nat) (exception : ref) : M unit :=
  onUncaughtException (flow_emit_reentrant depth) exception.

(** [setup]: the listener is subscribed only with the option [exception]. *)
Definition setup_listener : option (ref -> M unit) :=
  if has_option "exception" then Some hook_pass else None.

End Plugin.

Arguments side_channel : simpl never.
Arguments snap_path : simpl never.
Arguments source_path : simpl never.
Arguments invisinode_path : simpl never.

(** ** Sample inputs *)

(** A Jenkins host with a session on which every call succeeds. *)
Definition sample_host : host :=
  Host (lit "/w/report") [lit "exception"; lit "source"] true
       (Some (lit "http://ci/")) None (Some (lit "myjob")) (Some (lit "/w"))
       (lit "/home/u") 4242 1700000000000
       (SessThenable (Resolved true)) (Resolved (lit "iVBORw0KGgo="))
       (Resolved (lit "<html></html>")) (Resolved (lit "[]"))
       (fun _ => None) (fun _ => None) (fun _ => None)
       stringify.

Definition empty_world : world := World ∅ 0 ∅ 0 ∅ None [].

(** An error object as a test framework would hand it over. *)
Definition boom : errobj := ErrObj (lit "boom") (Some (lit "Error: boom")) false.

(** A world whose heap holds one error object, at reference 0. *)
Definition world_with (o : errobj) : world :=
  World ∅ 0 {[ 0%nat := o ]} 1 ∅ None [].

(** A world with two error objects, at references 0 and 1. *)
Definition world_with_two (o0 o1 : errobj) : world :=
  World ∅ 0 (<[ 1%nat := o1 ]> {[ 0%nat := o0 ]}) 2 ∅ None [].

(** The error of a test that failed. *)
Definition assertion_failed : errobj :=
  ErrObj (lit "expected true") (Some (lit "AssertionError: expected true")) false.

(** A Jenkins host without a workspace root. *)
Definition host_without_workspace : host :=
  Host (lit "/w/report") [] true
       (Some (lit "http://ci/")) (Some (lit "http://ci/job/myjob/7/"))
       (Some (lit "myjob")) None
       (lit "/home/u") 4242 1700000000000
       (SessThenable (Resolved true)) (Resolved (lit "iVBORw0KGgo="))
       (Resolved (lit "<html></html>")) (Resolved (lit "[]"))
       (fun _ => None) (fun _ => None) (fun _ => None)
       stringify.

(** A host whose driver has no session: [getSession()] is falsy. *)
Definition host_without_session : host :=
  Host (lit "/w/report") [] true None None None None
       (lit "/home/u") 4242 1700000000000
       SessFalsy (Resolved (lit "iVBORw0KGgo="))
       (Resolved (lit "<html></html>")) (Resolved (lit "[]"))
       (fun _ => None) (fun _ => None) (fun _ => None)
       stringify.

(** A host whose driver cannot take the screenshot: it fails with the
    error object at reference 0. *)
Definition host_retrieval_fails : host :=
  Host (lit "/w/report") [] false None None None None
       (lit "/home/u") 4242 1700000000000
       (SessThenable (Resolved true)) (Failed 0%nat)
       (Resolved (lit "<html></html>")) (Resolved (lit "[]"))
       (fun _ => None) (fun _ => None) (fun _ => None)
       stringify.

(** A host on which every write fails with the error object at
    reference 0. *)
Definition host_write_fails : host :=
  Host (lit "/w/report") [] true None None None None
       (lit "/home/u") 4242 1700000000000
       (SessThenable (Resolved true)) (Resolved (lit "iVBORw0KGgo="))
       (Resolved (lit "<html></html>")) (Resolved (lit "[]"))
       (fun _ => None) (fun _ => Some 0%nat) (fun _ => None)
       stringify.

(** A host whose browser rejects the DOM-inspection script with the error
    object at reference 0; everything else succeeds. *)
Definition host_script_fails : host :=
  Host (lit "/w/report") [] true None None None None
       (lit "/home/u") 4242 1700000000000
       (SessThenable (Resolved true)) (Resolved (lit "iVBORw0KGgo="))
       (Resolved (lit "<html></html>")) (Failed 0%nat)
       (fun _ => None) (fun _ => None) (fun _ => None)
       stringify.

(** A host on which the script runs and only the write of the [.txt] file
    fails, with the error object at reference 0. *)
Definition host_txt_write_fails : host :=
  Host (lit "/w/report") [] true None None None None
       (lit "/home/u") 4242 1700000000000
       (SessThenable (Resolved true)) (Resolved (lit "iVBORw0KGgo="))
       (Resolved (lit "<html></html>")) (Resolved (lit "[]"))
       (fun _ => None)
       (fun path => if bool_decide (path = lit "/w/report/page.txt")
                    then Some 0%nat else None)
       (fun _ => None)
       stringify.

(** A host set up with the option [exception] alone; the driver has a
    session and every call succeeds. *)
Definition host_exception_only : host :=
  Host (lit "/w/report") [lit "exception"] true None None None None
       (lit "/home/u") 4242 1700000000000
       (SessThenable (Resolved true)) (Resolved (lit "iVBORw0KGgo="))
       (Resolved (lit "<html></html>")) (Resolved (lit "[]"))
       (fun _ => None) (fun _ => None) (fun _ => None)
       stringify.

(** ** Notions used in the statements *)

(** A call on one of the two ends of a deferred. *)
Inductive call :=
| CallFulfill (v : capture)
| CallReject (e : ref).

Definition apply_call (d : deferred) (c : call) : M unit :=
  match c with
  | CallFulfill v => call_fulfill (fulfill d) v
  | CallReject e => call_reject (reject d) e
  end.

Definition outcome_of (c : call) : settled :=
  match c with
  | CallFulfill v => Fulfilled v
  | CallReject e => Rejected e
  end.

Definition resolver_cell (f : resolver) : nat :=
  match f with WdFulfill c | NativeGood c => c end.

Definition rejecter_cell (f : rejecter) : nat :=
  match f with WdReject c | NativeBad c => c end.

(** Every cell in use lies below [next_cell]: the cells handed out from
    here on are new ones.  The empty store is such a store; making pairs,
    calling their ends, [snap] and [source] keep it so. *)
Definition cells_wf (w : world) : Prop :=
  forall c, (next_cell w <= c)%nat -> cells w !! c = None.

(** [m] keeps the cells in use below [next_cell]. *)
Definition keeps_cells_wf {A} (m : M A) : Prop :=
  forall w res w', m w = (res, w') -> cells_wf w -> cells_wf w'.

(** What a client of the bridge does: it makes a pair with [p], or it
    calls an end of the [i]-th pair made so far.  Calls on different pairs
    may alternate in any order. *)
Inductive bridge_op :=
| MakePair
| CallOn (i : nat) (c : call).

Fixpoint run_ops (h : host) (ops : list bridge_op) (made : list deferred)
  : M (list deferred) :=
  match ops with
  | [] => ret made
  | MakePair :: ops' => bind (p h) (fun d => run_ops h ops' (made ++ [d]))
  | CallOn i c :: ops' =>
      match made !! i with
      | Some d => bind (apply_call d c) (fun _ => run_ops h ops' made)
      | None => run_ops h ops' made
      end
  end.

(** The reference the bridge is compared with: one register per pair,
    which takes the outcome of the first call made on it and ignores every
    later call. *)
Definition register_call (c : call) (s : settled) : settled :=
  match s with
  | Pending => outcome_of c
  | _ => s
  end.

Fixpoint registers (ops : list bridge_op) (regs : list settled)
  : list settled :=
  match ops with
  | [] => regs
  | MakePair :: ops' => registers ops' (regs ++ [Pending])
  | CallOn i c :: ops' => registers ops' (alter (register_call c) i regs)
  end.

(** The ends of a pair as [p] builds them: with a native [Promise] they
    are the functions the executor was given, otherwise the closures over
    the deferred of the driver's library; either way they belong to the
    promise of the pair. *)
Definition wired (h : host) (d : deferred) : Prop :=
  if nativePromise h
  then fulfill d = NativeGood (promise d) /\ reject d = NativeBad (promise d)
  else fulfill d = WdFulfill (promise d) /\ reject d = WdReject (promise d).

Definition wired_cells (d : deferred) : Prop :=
  resolver_cell (fulfill d) = promise d /\ rejecter_cell (reject d) = promise d.

(** A client that makes three pairs and calls their ends in turn. *)
Definition sample_ops : list bridge_op :=
  [ MakePair; MakePair;
    CallOn 1 (CallReject 0%nat);
    CallOn 0 (CallFulfill VTrue);
    MakePair;
    CallOn 1 (CallFulfill VTrue);
    CallOn 0 (CallReject 0%nat);
    CallOn 0 (CallFulfill VTrue) ].

(** The world with another store of promise cells. *)
Definition with_cells (w : world) (c : gmap nat settled) (n : nat) : world :=
  World c n (objs w) (next_obj w) (files w) (currentTestTitle w) (trace w).

(** [m] only appends events satisfying [P] to the trace. *)
Definition appends (P : event -> Prop) {A} (m : M A) : Prop :=
  forall w r w', m w = (r, w') ->
    exists evs, trace w' = trace w ++ evs /\ Forall P evs.

(** [m] returns: it does not throw. *)
Definition total {A} (m : M A) : Prop :=
  forall w, exists a w', m w = (Ret a, w').

(** [m] leaves the heap of error objects and the test title alone. *)
Definition keeps_objs {A} (m : M A) : Prop :=
  forall w r w', m w = (r, w') ->
    objs w' = objs w /\ next_obj w' = next_obj w /\
    currentTestTitle w' = currentTestTitle w.

(** The events of a capture: driver commands, file-system calls, console
    output and rejections left without a handler. *)
Definition capture_io (ev : event) : Prop :=
  match ev with
  | Emit _ | Callback _ => False
  | _ => True
  end.

(** The world with more events on its trace. *)
Definition with_events (w : world) (evs : list event) : world :=
  World (cells w) (next_cell w) (objs w) (next_obj w) (files w)
        (currentTestTitle w) (trace w ++ evs).

(** The arguments the completion callback was called with, in order. *)
Fixpoint callbacks (t : list event) : list errarg :=
  match t with
  | [] => []
  | Callback arg :: t' => arg :: callbacks t'
  | _ :: t' => callbacks t'
  end.

(** The world with another heap of error objects. *)
Definition with_objs (w : world) (o : gmap ref errobj) : world :=
  World (cells w) (next_cell w) o (next_obj w) (files w) (currentTestTitle w)
        (trace w).

(** The world after [new Error(msg)]; the new object is at [next_obj w]. *)
Definition with_new_error (w : world) (msg : jsstring) : world :=
  World (cells w) (next_cell w)
        (<[next_obj w := ErrObj msg (Some msg) false]> (objs w))
        (S (next_obj w)) (files w) (currentTestTitle w) (trace w).

(** The annotation step of [appendImageUrlToStackTrace] goes through: the
    error argument is falsy, or an object whose [stack] can be written. *)
Definition annotatable (err : errarg) : bool :=
  negb (err_truthy err) || stack_assignable err.

(** [m] leaves the promise cells alone. *)
Definition keeps_cells {A} (m : M A) : Prop :=
  forall w r w', m w = (r, w') ->
    cells w' = cells w /\ next_cell w' = next_cell w.

(** How the promise of [source] ends, read off the session query, the
    page-source retrieval, the directory creation and the write of the
    [.html] file.  Neither the script nor the [.txt] file occurs. *)
Definition source_state (h : host) (filename : jsstring) : settled :=
  if negb (session_truthy (getSession h)) then Fulfilled VTrue
  else
    match getPageSource h with
    | Failed e => Rejected e
    | Never => Pending
    | Resolved src =>
        match mkdirp_sync h (Path.dirname (source_path h filename)) with
        | Some _ => Pending
        | None =>
            match writeFile h (source_path h filename) with
            | Some e => Rejected e
            | None =>
                Fulfilled (VSource (SourceObj (filename ++ lit ".html")
                                              (source_path h filename)))
            end
        end
    end.

(** ** Notions used in the further properties *)

(** The file name the exception hook gives its captures: the slug of the
    current test title when one is set, a name made of the process id and
    the time otherwise. *)
Definition exception_filename (h : host) (title : option jsstring) : jsstring :=
  if truthy title then titleSlug (to_str title)
  else lit "ScreenShot_onException-" ++ decimal (pid h) ++ lit "-"
         ++ decimal (now h).

(** The write [exception._nemoScreenshotHandled = true]. *)
Definition mark_handled (o : errobj) : errobj :=
  ErrObj (message o) (stack o) true.

(** The marker of an exception as the hook reads it. *)
Definition is_marked (w : world) (r : ref) : bool :=
  match objs w !! r with
  | Some o => _nemoScreenshotHandled o
  | None => false
  end.

(** The exceptions emitted on the uncaught-exception event, in order. *)
Fixpoint emits (t : list event) : list ref :=
  match t with
  | [] => []
  | Emit r :: t' => r :: emits t'
  | _ :: t' => emits t'
  end.

(** The number of times an emission of a marked exception is recorded on
    the flow the hook is subscribed on: one when a listener ahead of the
    hook throws, otherwise as many as the call stack has room for. *)
Definition emissions (h : host) (depth : nat) (r : ref) : nat :=
  match depth with
  | O => O
  | S _ =>
      match emit_throws h r with
      | Some _ => 1%nat
      | None => depth
      end
  end.

(** Every error object in use lies below [next_obj]: [new Error] makes a
    new object. *)
Definition objs_wf (w : world) : Prop :=
  forall k, (next_obj w <= k)%nat -> objs w !! k = None.

(** What an emission that ends by throwing leaves behind: the emissions
    on the trace and at most one new error object, at [next_obj]. *)
Definition emitted (r : ref) (n : nat) (w w' : world) : Prop :=
  trace w' = trace w ++ repeat (Emit r) n /\
  cells w' = cells w /\ next_cell w' = next_cell w /\
  files w' = files w /\ currentTestTitle w' = currentTestTitle w /\
  (forall k, k <> next_obj w -> objs w' !! k = objs w !! k).

(** The exception [r] is an object of the heap that carries the marker,
    and the heap hands out new references. *)
Definition marked_wf (r : ref) (w : world) : Prop :=
  (exists o, objs w !! r = Some o /\ _nemoScreenshotHandled o = true) /\
  objs_wf w.

(** [m] never takes the marker off [r]. *)
Definition stays_marked (r : ref) {A} (m : M A) : Prop :=
  forall w res w', m w = (res, w') -> marked_wf r w -> marked_wf r w'.

(** What the hook does once it has set the marker. *)
Definition after_mark (h : host) (emit : ref -> M unit) (r : ref) : M unit :=
  bind (driver_getSession h) (fun session =>
  match session with
  | SessFalsy =>
      bind (new_error (lit "TypeError: Cannot read property 'then'"))
           (fun e => throw e)
  | SessThenable query =>
      bind (then_ query (onSession h emit r) None) (fun first =>
      bind (catch_ first (fun e => bind (set_handled e) (fun _ => emit r)))
           (fun second => drop_promise second))
  end).

(** The world with another current test title. *)
Definition with_title (w : world) (title : option jsstring) : world :=
  World (cells w) (next_cell w) (objs w) (next_obj w) (files w) title (trace w).

(** The workspace URL [snap] puts on its result: present when
    [JENKINS_URL], [WORKSPACE] and [JOB_NAME] are all set. *)
Definition expected_imageUrl (h : host) (imageName : jsstring)
  : option jsstring :=
  if truthy (JENKINS_URL h) && truthy (WORKSPACE h) && truthy (JOB_NAME h)
  then Some (to_str (JENKINS_URL h) ++ lit "job/" ++ to_str (JOB_NAME h)
               ++ lit "/ws"
               ++ substr (length (to_str (WORKSPACE h))) (screenShotPath h)
               ++ lit "/" ++ imageName)
  else None.

(** The archive URL [snap] puts on its result: present when [JENKINS_URL],
    [WORKSPACE] and [BUILD_URL] are all set. *)
Definition expected_archivedImageUrl (h : host) (imageName : jsstring)
  : option jsstring :=
  if truthy (JENKINS_URL h) && truthy (WORKSPACE h) && truthy (BUILD_URL h)
  then Some (to_str (BUILD_URL h) ++ lit "artifact"
               ++ substr (length (to_str (WORKSPACE h))) (screenShotPath h)
               ++ lit "/" ++ imageName)
  else None.

(** The part of [source] that follows the side channel: the retrieval of
    the page source and the write of the [.html] file, on the deferred
    [deferred]. *)
Definition source_page_chain (h : host) (filename : jsstring)
    (deferred : deferred) : M nat :=
  bind (driver_getPageSource h) (fun page =>
  bind (then_ page
          (fun src =>
             bind (mkdirp h (Path.dirname (source_path h filename))) (fun _ =>
             fs_writeFile h (source_path h filename) src Utf8
               (fun err =>
                  match err with
                  | Some e => call_reject (reject deferred) e
                  | None =>
                      call_fulfill (fulfill deferred)
                        (VSource (SourceObj (filename ++ lit ".html")
                                            (source_path h filename)))
                  end)))
          (Some (fun err => call_reject (reject deferred) err)))
       (fun chained =>
  bind (drop_promise chained) (fun _ => ret (promise deferred)))).

(** How the promise of [snap] ends, read off the session query, the
    screenshot retrieval, the directory creation and the write of the
    file.  It stays pending when the driver does not answer and when
    [mkdirp.sync] throws: the throw happens inside the continuation of
    [takeScreenshot().then], where nothing rejects the deferred. *)
Definition snap_state (h : host) (filename : jsstring) : settled :=
  if negb (session_truthy (getSession h)) then Fulfilled VTrue
  else
    match takeScreenshot h with
    | Failed e => Rejected e
    | Never => Pending
    | Resolved img =>
        match mkdirp_sync h (Path.dirname (snap_path h filename)) with
        | Some _ => Pending
        | None =>
            match writeFile h (snap_path h filename) with
            | Some e => Rejected e
            | None =>
                Fulfilled (VImage
                  (ImageObj (filename ++ lit ".png") (snap_path h filename)
                     (expected_imageUrl h (filename ++ lit ".png"))
                     (expected_archivedImageUrl h (filename ++ lit ".png"))))
            end
        end
    end.

(** The calls [done] makes on its completion callback, in order. *)
Definition done_calls (h : host) (filename : jsstring) (err : errarg)
  : list errarg :=
  match snap_state h filename with
  | Fulfilled _ => if annotatable err then [err] else []
  | Rejected e => [EObj e]
  | Pending => []
  end.

(** A host whose driver cannot deliver the page source: it fails with the
    error object at reference 0. *)
Definition host_page_source_fails : host :=
  Host (lit "/w/report") [] true None None None None
       (lit "/home/u") 4242 1700000000000
       (SessThenable (Resolved true)) (Resolved (lit "iVBORw0KGgo="))
       (Failed 0%nat) (Resolved (lit "[]"))
       (fun _ => None) (fun _ => None) (fun _ => None)
       stringify.

(** A host on which no directory can be created: [mkdirp.sync] throws the
    error object at reference 0. *)
Definition host_mkdirp_fails : host :=
  Host (lit "/w/report") [] true None None None None
       (lit "/home/u") 4242 1700000000000
       (SessThenable (Resolved true)) (Resolved (lit "iVBORw0KGgo="))
       (Resolved (lit "<html></html>")) (Resolved (lit "[]"))
       (fun _ => Some 0%nat) (fun _ => None) (fun _ => None)
       stringify.

(** A Jenkins host with a build URL, capturing into [/var/ws/out/shots]. *)
Definition host_jenkins_build : host :=
  Host (lit "/var/ws/out/shots") [] true
       (Some (lit "http://ci/")) (Some (lit "http://ci/job/nightly/7/"))
       (Some (lit "nightly")) (Some (lit "/var/ws"))
       (lit "/home/u") 4242 1700000000000
       (SessThenable (Resolved true)) (Resolved (lit "iVBORw0KGgo="))
       (Resolved (lit "<html></html>")) (Resolved (lit "[]"))
       (fun _ => None) (fun _ => None) (fun _ => None)
       stringify.

(** A host set up with the options [exception] and [source] whose driver
    answers the session query with "no session". *)
Definition host_session_gone : host :=
  Host (lit "/w/report") [lit "exception"; lit "source"] true
       None None None None
       (lit "/home/u") 4242 1700000000000
       (SessThenable (Resolved false)) (Resolved (lit "iVBORw0KGgo="))
       (Resolved (lit "<html></html>")) (Resolved (lit "[]"))
       (fun _ => None) (fun _ => None) (fun _ => None)
       stringify.

(** A host whose session query fails with the error object at
    reference 1. *)
Definition host_session_query_fails : host :=
  Host (lit "/w/report") [lit "exception"; lit "source"] true
       None None None None
       (lit "/home/u") 4242 1700000000000
       (SessThenable (Failed 1%nat)) (Resolved (lit "iVBORw0KGgo="))
       (Resolved (lit "<html></html>")) (Resolved (lit "[]"))
       (fun _ => None) (fun _ => None) (fun _ => None)
       stringify.

(** A host with a session whose driver cannot take the screenshot: it
    fails with the error object at reference 1. *)
Definition host_screenshot_fails_in_hook : host :=
  Host (lit "/w/report") [lit "exception"; lit "source"] true
       None None None None
       (lit "/home/u") 4242 1700000000000
       (SessThenable (Resolved true)) (Failed 1%nat)
       (Resolved (lit "<html></html>")) (Resolved (lit "[]"))
       (fun _ => None) (fun _ => None) (fun _ => None)
       stringify.

(** A host whose [getSession()] answers with a falsy value. *)
Definition host_falsy_session_in_hook : host :=
  Host (lit "/w/report") [lit "exception"] true None None None None
       (lit "/home/u") 4242 1700000000000
       SessFalsy (Resolved (lit "iVBORw0KGgo="))
       (Resolved (lit "<html></html>")) (Resolved (lit "[]"))
       (fun _ => None) (fun _ => None) (fun _ => None)
       stringify.

(** The error of a driver that lost its connection. *)
Definition connection_lost : errobj :=
  ErrObj (lit "ECONNREFUSED") (Some (lit "Error: ECONNREFUSED")) false.

(** ** The DOM-inspection script

    The script [source] hands to the browser walks the document and
    collects the text nodes that carry the marker.  A DOM node is modelled
    by what the walk reads of it: its [nodeType], its [data], a reference
    to its [parentNode], and its children in document order ([firstChild]
    and then [nextSibling] until [null]). *)

#[warnings="-register-all"]
Inductive domNode :=
| DomNode (nodeType : N) (data : jsstring) (parentNode : N)
          (childNodes : list domNode).

Definition nodeType_of (n : domNode) : N :=
  match n with DomNode t _ _ _ => t end.

Definition data_of (n : domNode) : jsstring :=
  match n with DomNode _ d _ _ => d end.

Definition parentNode_of (n : domNode) : N :=
  match n with DomNode _ _ p _ => p end.

Definition childNodes_of (n : domNode) : list domNode :=
  match n with DomNode _ _ _ c => c end.

(** An element of [invisiNodes] as the walk leaves it. *)
Record invisiNode := InvisiNode {
  invisitext : jsstring;
  parent : N
}.

(** [text.charCodeAt(0) === 8288 && text.charCodeAt(1) === 56128 &&
    text.charCodeAt(2) === 56814]; beyond the end [charCodeAt] is [NaN],
    which equals nothing. *)
Definition starts_with_marker (text : jsstring) : bool :=
  bool_decide (text !! 0%nat = Some 8288)
  && bool_decide (text !! 1%nat = Some 56128)
  && bool_decide (text !! 2%nat = Some 56814).

(** [processAllTextNodes] *)
Definition processAllTextNodes (node : domNode)
    (invisiNodes : list invisiNode) : list invisiNode :=
  if nodeType_of node =? 3 then
    let text := trim (data_of node) in
    if Nat.ltb 0 (length text) then
      if starts_with_marker text
      then invisiNodes ++ [InvisiNode text (parentNode_of node)]
      else invisiNodes
    else invisiNodes
  else invisiNodes.

(** [walkTheDOMGetInvisiNodes]: [func] on the node, then the walk of each
    child in turn, all on the same array. *)
Fixpoint walkTheDOMGetInvisiNodes {A} (node : domNode)
    (func : domNode -> A -> A) (invisiNodes : A) : A :=
  match node with
  | DomNode _ _ _ children =>
      (fix siblings (ns : list domNode) (acc : A) : A :=
         match ns with
         | [] => acc
         | n :: ns' => siblings ns' (walkTheDOMGetInvisiNodes n func acc)
         end) children (func node invisiNodes)
  end.

(** The nodes of a tree in document order. *)
Fixpoint document_order (node : domNode) : list domNode :=
  match node with
  | DomNode _ _ _ children =>
      node :: (fix each (ns : list domNode) : list domNode :=
                 match ns with
                 | [] => []
                 | n :: ns' => document_order n ++ each ns'
                 end) children
  end.

(** The document order of the children of a node, one after the other. *)
Definition children_order (ns : list domNode) : list domNode :=
  concat (map document_order ns).

(** A text node whose trimmed data starts with the marker. *)
Definition is_invisiNode (node : domNode) : bool :=
  (nodeType_of node =? 3) && starts_with_marker (trim (data_of node)).

(** A small document: a body with a paragraph holding a marked text and a
    plain text, and a marked text inside a nested span. *)
Definition marked_text (s : string) : jsstring :=
  lit "  " ++ [8288; 56128; 56814] ++ lit s ++ lit " ".

Definition sample_body : domNode :=
  DomNode 1 [] 0
    [ DomNode 1 [] 1
        [ DomNode 3 (marked_text "price") 2 [];
          DomNode 3 (lit "plain") 2 [] ];
      DomNode 3 (lit "   ") 1 [];
      DomNode 1 [] 1
        [ DomNode 1 [] 3 [ DomNode 3 (marked_text "total") 4 [] ] ] ].

(** * Properties *)

(** ** Strings: [trim] and the slug *)

Lemma trimStart_split (s : jsstring) :
  exists lead, s = lead ++ trimStart s /\ forallb is_space lead = true.
Proof.
  induction s as [|c s IH]; simpl.
  - exists []. split; reflexivity.
  - destruct (is_space c) eqn:Hc.
    + destruct IH as [lead [Hs Hl]]. exists (c :: lead). simpl.
      rewrite Hc, Hl. split; [now f_equal | reflexivity].
    + exists []. split; reflexivity.
Qed.

Lemma trimStart_head (s : jsstring) (c : N) (s' : jsstring) :
  trimStart s = c :: s' -> is_space c = false.
Proof.
  induction s as [|d s IH]; simpl; [discriminate|].
  destruct (is_space d) eqn:Hd; [exact IH|].
  intros H. injection H as -> _. exact Hd.
Qed.

(** Stripping the end keeps a first character that is not a space. *)
Lemma trimEnd_keeps_head (c : N) (s : jsstring) :
  is_space c = false -> exists s', trimEnd (c :: s) = c :: s'.
Proof.
  intros Hc. unfold trimEnd. simpl rev at 2.
  destruct (trimStart_split (rev s ++ [c])) as [lead [Hs Hl]].
  assert (Hex : exists t, trimStart (rev s ++ [c]) = t ++ [c]).
  { clear Hs Hl lead. induction (rev s) as [|d r IH]; simpl.
    - rewrite Hc. now exists [].
    - destruct (is_space d); [exact IH|]. now exists (d :: r). }
  destruct Hex as [t Ht]. rewrite Ht, rev_app_distr. simpl. eauto.
Qed.

Lemma trim_split (s : jsstring) :
  exists lead trail,
    s = lead ++ trim s ++ trail /\
    forallb is_space lead = true /\ forallb is_space trail = true.
Proof.
  unfold trim, trimEnd.
  destruct (trimStart_split s) as [lead [Hs Hl]].
  destruct (trimStart_split (rev (trimStart s))) as [tr [Hr Ht]].
  exists lead, (rev tr). repeat split; [|exact Hl|].
  - rewrite <- rev_app_distr, <- Hr, rev_involutive. exact Hs.
  - rewrite forallb_forall in *. intros x Hx. apply Ht. now apply in_rev.
Qed.

Lemma trim_ends (s : jsstring) :
  (forall c s', trim s = c :: s' -> is_space c = false) /\
  (forall c s', trim s = s' ++ [c] -> is_space c = false).
Proof.
  split; intros c s' H.
  - destruct (trimStart s) as [|d t] eqn:Hd.
    + unfold trim in H. rewrite Hd in H. discriminate.
    + pose proof (trimStart_head _ _ _ Hd) as Hsp.
      unfold trim in H. rewrite Hd in H.
      destruct (trimEnd_keeps_head d t Hsp) as [t' Ht'].
      rewrite Ht' in H. injection H as -> _. exact Hsp.
  - unfold trim, trimEnd in H.
    apply (f_equal (@rev N)) in H.
    rewrite rev_involutive, rev_app_distr in H. simpl in H.
    exact (trimStart_head _ _ _ H).
Qed.

Lemma lookup_map_list {A B} (f : A -> B) (l : list A) (i : nat) :
  map f l !! i = f <$> l !! i.
Proof.
  revert i. induction l as [|a l IH]; intros [|i]; simpl; try reflexivity.
  apply IH.
Qed.

Lemma titleSlug_unfold (title : jsstring) :
  titleSlug title = take 251 (replace_nonword (trim title)).
Proof. destruct title; reflexivity. Qed.

Lemma replace_nonword_word (c : N) :
  is_word (if is_word c then c else underscore) = true.
Proof. destruct (is_word c) eqn:H; [exact H | reflexivity]. Qed.

(** C4. [titleSlug] strips the white space at both ends of the title,
    replaces every code unit outside [[A-Za-z0-9_]] by an underscore and
    keeps the first 251 code units; ["My Test: Case #1"] becomes
    ["My_Test__Case__1"]. *)
Theorem titleSlug_spec (title : jsstring) :
  (exists lead trail,
      title = lead ++ trim title ++ trail /\
      forallb is_space lead = true /\ forallb is_space trail = true) /\
  (forall c s', trim title = c :: s' -> is_space c = false) /\
  (forall c s', trim title = s' ++ [c] -> is_space c = false) /\
  length (titleSlug title) = Nat.min 251 (length (trim title)) /\
  (forall (i : nat) (c : N),
      titleSlug title !! i = Some c <->
      (i < 251)%nat /\
      exists c0, trim title !! i = Some c0 /\
                 c = if is_word c0 then c0 else underscore) /\
  forallb is_word (titleSlug title) = true /\
  titleSlug (lit "My Test: Case #1") = lit "My_Test__Case__1".
Proof.
  split; [apply trim_split|].
  split; [apply trim_ends|].
  split; [apply trim_ends|].
  rewrite titleSlug_unfold. unfold replace_nonword.
  split; [now rewrite length_take, length_map, Nat.min_comm|].
  split.
  - intros i c. split.
    + intros H. apply lookup_take_Some in H as [H Hi]. split; [exact Hi|].
      rewrite lookup_map_list in H.
      destruct (trim title !! i) as [c0|]; [|discriminate].
      exists c0. split; [reflexivity|]. simpl in H. congruence.
    + intros [Hi [c0 [Hc0 ->]]]. apply lookup_take_Some. split; [|exact Hi].
      rewrite lookup_map_list, Hc0. reflexivity.
  - split; [|reflexivity].
    apply forallb_forall. intros x Hx. apply list_elem_of_In in Hx.
    apply elem_of_take in Hx as [i [Hx _]].
    rewrite lookup_map_list in Hx.
    destruct (trim title !! i) as [c0|]; [|discriminate].
    simpl in Hx. injection Hx as <-. apply replace_nonword_word.
Qed.

(** ** The Jenkins URL formatter *)

(** C5. With workspace root [/w], base path [/w/report], image name
    [x.png], job [myjob], CI URL [http://ci/] and no build URL the
    formatter returns the workspace URL
    [http://ci/job/myjob/ws/report/x.png] and no archived URL; without a
    workspace root it returns no result, whatever the other inputs. *)
Theorem formatJenkinsImageUrls_spec :
  (forall (h : host) (w : world),
      WORKSPACE h = Some (lit "/w") ->
      JOB_NAME h = Some (lit "myjob") ->
      JENKINS_URL h = Some (lit "http://ci/") ->
      BUILD_URL h = None ->
      exists w',
        formatJenkinsImageUrls h (lit "/w/report") (lit "x.png") w =
        (Ret (Some (JenkinsUrls
                      (Some (lit "http://ci/job/myjob/ws/report/x.png")) None)),
         w')) /\
  (forall (h : host) (path name : jsstring) (w : world),
      WORKSPACE h = None ->
      exists w', formatJenkinsImageUrls h path name w = (Ret None, w')).
Proof.
  split.
  - intros h w Hw Hj Hc Hb. unfold formatJenkinsImageUrls.
    rewrite Hw, Hj, Hc, Hb. simpl. eexists. reflexivity.
  - intros h path name w Hw. unfold formatJenkinsImageUrls.
    rewrite Hw. simpl. eexists. reflexivity.
Qed.

Lemma formatJenkinsImageUrls_spec_witness :
  (exists w',
      formatJenkinsImageUrls sample_host (lit "/w/report") (lit "x.png")
        empty_world =
      (Ret (Some (JenkinsUrls
                    (Some (lit "http://ci/job/myjob/ws/report/x.png")) None)),
       w')) /\
  (exists w',
      formatJenkinsImageUrls host_without_workspace (lit "/w/report")
        (lit "x.png") empty_world = (Ret None, w')).
Proof.
  split.
  - apply (proj1 formatJenkinsImageUrls_spec sample_host empty_world);
      reflexivity.
  - apply (proj2 formatJenkinsImageUrls_spec host_without_workspace).
    reflexivity.
Defined.

(** ** The awaitable bridge *)

Lemma settle_pending (c : nat) (s : settled) (w : world) :
  cells w !! c = Some Pending ->
  settle c s w = (Ret tt, with_cells w (<[c := s]> (cells w)) (next_cell w)).
Proof. intros H. unfold settle, bind, get_world. now rewrite H. Qed.

Lemma settle_settled (c : nat) (s : settled) (w : world) :
  cells w !! c <> Some Pending -> settle c s w = (Ret tt, w).
Proof.
  intros H. unfold settle, bind, get_world.
  destruct (cells w !! c) as [[| |]|]; try reflexivity. now destruct H.
Qed.

(** What [p] returns: both ends act on the cell of the promise handed
    out, and that cell is pending. *)
Lemma p_returns (h : host) (w : world) :
  exists d c n,
    p h w = (Ret d, with_cells w c n) /\
    c !! promise d = Some Pending /\
    resolver_cell (fulfill d) = promise d /\
    rejecter_cell (reject d) = promise d.
Proof.
  unfold p, bind, new_cell, get_world, set_cells, ret.
  destruct (nativePromise h); simpl.
  - eexists _, _, _. split; [reflexivity|]. simpl.
    split; [apply lookup_insert_eq | split; reflexivity].
  - eexists _, _, _. split; [reflexivity|]. simpl.
    split; [apply lookup_insert_eq | split; reflexivity].
Qed.

Lemma apply_call_pending (d : deferred) (c : call) (w : world) :
  resolver_cell (fulfill d) = promise d ->
  rejecter_cell (reject d) = promise d ->
  cells w !! promise d = Some Pending ->
  apply_call d c w =
  (Ret tt, with_cells w (<[promise d := outcome_of c]> (cells w)) (next_cell w)).
Proof.
  intros Hf Hr Hp. destruct d as [pr f r]; simpl in *.
  destruct c as [v|e]; simpl.
  - destruct f; simpl in *; subst; now apply settle_pending.
  - destruct r; simpl in *; subst; now apply settle_pending.
Qed.

Lemma apply_call_settled (d : deferred) (c : call) (w : world) :
  resolver_cell (fulfill d) = promise d ->
  rejecter_cell (reject d) = promise d ->
  cells w !! promise d <> Some Pending ->
  apply_call d c w = (Ret tt, w).
Proof.
  intros Hf Hr Hp. destruct d as [pr f r]; simpl in *.
  destruct c as [v|e]; simpl.
  - destruct f; simpl in *; subst; now apply settle_settled.
  - destruct r; simpl in *; subst; now apply settle_settled.
Qed.

Lemma wired_cells_of (h : host) (d : deferred) : wired h d -> wired_cells d.
Proof.
  unfold wired, wired_cells. destruct (nativePromise h); intros [-> ->]; now split.
Qed.

Lemma with_cells_same (w : world) : with_cells w (cells w) (next_cell w) = w.
Proof. now destruct w. Qed.

(** A call on either end acts on the promise of the pair as a call on a
    register. *)
Lemma apply_call_alter (d : deferred) (c : call) (w : world) :
  wired_cells d ->
  apply_call d c w =
  (Ret tt, with_cells w (alter (register_call c) (promise d) (cells w))
                      (next_cell w)).
Proof.
  intros [Hf Hr].
  destruct (cells w !! promise d) as [s|] eqn:E.
  - assert (Hs : s = Pending \/ s <> Pending)
      by (destruct s; [now left | right; discriminate | right; discriminate]).
    destruct Hs as [->|Hs].
    + rewrite apply_call_pending by assumption. f_equal. f_equal.
      apply map_eq. intros k. destruct (decide (k = promise d)) as [->|Hk].
      * now rewrite lookup_insert_eq, lookup_alter_eq, E.
      * now rewrite lookup_insert_ne, lookup_alter_ne by congruence.
    + rewrite apply_call_settled by (try assumption; congruence).
      rewrite <- (with_cells_same w) at 1. f_equal. f_equal.
      apply map_eq. intros k. destruct (decide (k = promise d)) as [->|Hk].
      * rewrite lookup_alter_eq, E. now destruct s.
      * now rewrite lookup_alter_ne by congruence.
  - rewrite apply_call_settled by (try assumption; congruence).
    rewrite <- (with_cells_same w) at 1. f_equal. f_equal.
    apply map_eq. intros k. destruct (decide (k = promise d)) as [->|Hk].
    + now rewrite lookup_alter_eq, E.
    + now rewrite lookup_alter_ne by congruence.
Qed.

(** What [p] does to the store of cells. *)
Lemma p_run (h : host) (w : world) :
  let n := next_cell w in
  p h w =
  if nativePromise h then
    (Ret (Deferred (S n) (NativeGood (S n)) (NativeBad (S n))),
     with_cells w (<[S n := Pending]> (<[n := Pending]> (cells w))) (S (S n)))
  else
    (Ret (Deferred n (WdFulfill n) (WdReject n)),
     with_cells w (<[n := Pending]> (cells w)) (S n)).
Proof. unfold p. destruct (nativePromise h); reflexivity. Qed.

Lemma p_fresh (h : host) (w : world) :
  cells_wf w ->
  exists d w',
    p h w = (Ret d, w') /\
    wired h d /\
    (next_cell w <= promise d < next_cell w')%nat /\
    cells w' !! promise d = Some Pending /\
    (forall c, (c < next_cell w)%nat -> cells w' !! c = cells w !! c) /\
    cells_wf w' /\
    objs w' = objs w /\ next_obj w' = next_obj w /\ files w' = files w /\
    currentTestTitle w' = currentTestTitle w /\ trace w' = trace w.
Proof.
  intros Hwf. rewrite p_run. unfold wired.
  destruct (nativePromise h); eexists _, _; (split; [reflexivity|]); simpl.
  - split; [now split|]. split; [lia|].
    split; [apply lookup_insert_eq|].
    split.
    { intros c Hc. now rewrite !lookup_insert_ne by lia. }
    split; [|now repeat split].
    unfold cells_wf. simpl. intros c Hc. rewrite !lookup_insert_ne by lia.
    apply Hwf. lia.
  - split; [now split|]. split; [lia|].
    split; [apply lookup_insert_eq|].
    split.
    { intros c Hc. now rewrite lookup_insert_ne by lia. }
    split; [|now repeat split].
    unfold cells_wf. simpl. intros c Hc. rewrite lookup_insert_ne by lia.
    apply Hwf. lia.
Qed.

(** The pairs made so far, against the registers of the reference: the
    invariant of a run that started in [w0]. *)
Record bridge_inv (h : host) (w0 : world) (made : list deferred)
    (regs : list settled) (w : world) : Prop := BridgeInv {
  inv_length : length made = length regs;
  inv_state : forall i d, made !! i = Some d ->
    wired h d /\ (next_cell w0 <= promise d < next_cell w)%nat /\
    cells w !! promise d = regs !! i;
  inv_distinct : forall i j d d',
    made !! i = Some d -> made !! j = Some d' ->
    promise d = promise d' -> i = j;
  inv_old : forall c, (c < next_cell w0)%nat -> cells w !! c = cells w0 !! c;
  inv_next : (next_cell w0 <= next_cell w)%nat;
  inv_wf : cells_wf w;
  inv_frame : objs w = objs w0 /\ next_obj w = next_obj w0 /\
              files w = files w0 /\
              currentTestTitle w = currentTestTitle w0 /\ trace w = trace w0
}.

Lemma bridge_inv_run (h : host) (w0 : world) (ops : list bridge_op) :
  forall made regs w,
    bridge_inv h w0 made regs w ->
    exists made' w',
      run_ops h ops made w = (Ret made', w') /\
      bridge_inv h w0 made' (registers ops regs) w'.
Proof.
  induction ops as [|[|i c] ops IH]; intros made regs w Hinv.
  - exists made, w. now split.
  - simpl.
    destruct (p_fresh h w (inv_wf _ _ _ _ _ Hinv))
      as (d & w1 & Hp & Hwired & Hrange & Hpend & Hold & Hwf & Hframe).
    unfold bind. rewrite Hp. apply IH.
    destruct Hinv as [Hlen Hstate Hdist Hold0 Hnext Hwf0 Hframe0].
    constructor.
    + rewrite !length_app. simpl. lia.
    + intros j d' Hj. apply lookup_app_Some in Hj as [Hj | [Hge Hj]].
      * destruct (Hstate j d' Hj) as (Hw' & Hr' & Hc').
        split; [exact Hw'|]. split; [lia|].
        rewrite Hold by lia. rewrite Hc'.
        symmetry. apply lookup_app_l. rewrite <- Hlen.
        now apply lookup_lt_Some in Hj.
      * destruct (j - length made)%nat as [|k] eqn:E; [|now destruct k].
        injection Hj as <-. split; [exact Hwired|]. split; [lia|].
        rewrite Hpend. symmetry.
        replace j with (length regs + 0)%nat by lia.
        now rewrite lookup_app_r, Nat.add_comm, Nat.add_sub by lia.
    + intros j k d1 d2 Hj Hk Heq.
      apply lookup_app_Some in Hj as [Hj | [Hgej Hj]];
        apply lookup_app_Some in Hk as [Hk | [Hgek Hk]].
      * eapply Hdist; eassumption.
      * destruct (k - length made)%nat as [|k'] eqn:E; [|now destruct k'].
        injection Hk as <-. destruct (Hstate j d1 Hj) as (_ & Hr1 & _). lia.
      * destruct (j - length made)%nat as [|j'] eqn:E; [|now destruct j'].
        injection Hj as <-. destruct (Hstate k d2 Hk) as (_ & Hr2 & _). lia.
      * destruct (j - length made)%nat as [|j'] eqn:Ej; [|now destruct j'].
        destruct (k - length made)%nat as [|k'] eqn:Ek; [|now destruct k'].
        lia.
    + intros c0 Hc0. rewrite Hold by lia. now apply Hold0.
    + lia.
    + exact Hwf.
    + destruct Hframe as (-> & -> & -> & -> & ->). exact Hframe0.
  - simpl. destruct (made !! i) as [d|] eqn:Ei.
    + destruct (inv_state _ _ _ _ _ Hinv i d Ei) as (Hwired & Hrange & Hcell).
      unfold bind.
      rewrite apply_call_alter by (eapply wired_cells_of; exact Hwired).
      apply IH.
      destruct Hinv as [Hlen Hstate Hdist Hold0 Hnext Hwf0 Hframe0].
      constructor; simpl.
      * now rewrite length_alter.
      * intros j d' Hj. destruct (Hstate j d' Hj) as (Hw' & Hr' & Hc').
        split; [exact Hw'|]. split; [exact Hr'|].
        destruct (decide (i = j)) as [<-|Hij].
        -- assert (d' = d) as -> by congruence.
           now rewrite lookup_alter_eq, list_lookup_alter_eq, Hc'.
        -- rewrite list_lookup_alter_ne by exact Hij.
           rewrite lookup_alter_ne; [exact Hc'|].
           intros Heq. apply Hij. eapply Hdist; eassumption.
      * exact Hdist.
      * intros c0 Hc0. rewrite lookup_alter_ne by lia. now apply Hold0.
      * exact Hnext.
      * intros c0 Hc0. simpl in Hc0. apply lookup_alter_None. now apply Hwf0.
      * exact Hframe0.
    + apply IH.
      destruct Hinv as [Hlen Hstate Hdist Hold0 Hnext Hwf0 Hframe0].
      constructor; try assumption.
      * now rewrite length_alter.
      * intros j d' Hj. destruct (Hstate j d' Hj) as (Hw' & Hr' & Hc').
        split; [exact Hw'|]. split; [exact Hr'|].
        rewrite list_lookup_alter_ne; [exact Hc'|].
        intros <-. congruence.
Qed.

Lemma bridge_inv_start (h : host) (w : world) :
  cells_wf w -> bridge_inv h w [] [] w.
Proof.
  intros Hwf. constructor; try easy.
Qed.

(** C9. The pairs made by [p] are settle-once, with a native [Promise]
    and without one.  Let a client make pairs and call their ends in any
    order, calls on one pair alternating with calls on others and with the
    making of new pairs, from a store whose cells in use lie below
    [next_cell].  Then the promise of every pair is in the state of its
    register: pending until the first call of [fulfill] or [reject] on that
    pair, settled with the outcome of that call from then on.  A call on a
    settled pair changes nothing in the world.  The promises handed out are
    new and pairwise distinct, the cells that were there keep their state,
    and nothing but the store of cells changes. *)
Theorem p_settles_exactly_once (h : host) (ops : list bridge_op) (w : world) :
  cells_wf w ->
  exists made w',
    run_ops h ops [] w = (Ret made, w') /\
    length made = length (registers ops []) /\
    (forall i d, made !! i = Some d ->
       wired h d /\
       cells w !! promise d = None /\
       cells w' !! promise d = registers ops [] !! i /\
       forall c, cells w' !! promise d <> Some Pending ->
                 apply_call d c w' = (Ret tt, w')) /\
    (forall i j d d', made !! i = Some d -> made !! j = Some d' ->
       promise d = promise d' -> i = j) /\
    (forall c, (c < next_cell w)%nat -> cells w' !! c = cells w !! c) /\
    objs w' = objs w /\ files w' = files w /\ trace w' = trace w /\
    cells_wf w'.
Proof.
  intros Hwf.
  destruct (bridge_inv_run h w ops [] [] w (bridge_inv_start h w Hwf))
    as (made & w' & Hrun & [Hlen Hstate Hdist Hold Hnext Hwf' Hframe]).
  exists made, w'. split; [exact Hrun|]. split; [exact Hlen|].
  split.
  { intros i d Hi. destruct (Hstate i d Hi) as (Hw & Hr & Hc).
    split; [exact Hw|]. split; [apply Hwf; lia|]. split; [exact Hc|].
    intros c Hset. destruct (wired_cells_of h d Hw).
    now apply apply_call_settled. }
  split; [exact Hdist|]. split; [exact Hold|].
  destruct Hframe as (? & ? & ? & ? & ?). now repeat split.
Qed.

Lemma cells_wf_empty : cells_wf empty_world.
Proof. intros c _. reflexivity. Qed.

Lemma p_settles_exactly_once_witness :
  (exists made w',
     run_ops sample_host sample_ops [] empty_world = (Ret made, w') /\
     length made = length (registers sample_ops []) /\
     (forall i d, made !! i = Some d ->
        wired sample_host d /\
        cells empty_world !! promise d = None /\
        cells w' !! promise d = registers sample_ops [] !! i /\
        forall c, cells w' !! promise d <> Some Pending ->
                  apply_call d c w' = (Ret tt, w')) /\
     (forall i j d d', made !! i = Some d -> made !! j = Some d' ->
        promise d = promise d' -> i = j) /\
     (forall c, (c < next_cell empty_world)%nat ->
                cells w' !! c = cells empty_world !! c) /\
     objs w' = objs empty_world /\ files w' = files empty_world /\
     trace w' = trace empty_world /\
     cells_wf w') /\
  (exists made w',
     run_ops host_retrieval_fails sample_ops [] empty_world = (Ret made, w') /\
     length made = length (registers sample_ops []) /\
     (forall i d, made !! i = Some d ->
        wired host_retrieval_fails d /\
        cells empty_world !! promise d = None /\
        cells w' !! promise d = registers sample_ops [] !! i /\
        forall c, cells w' !! promise d <> Some Pending ->
                  apply_call d c w' = (Ret tt, w')) /\
     (forall i j d d', made !! i = Some d -> made !! j = Some d' ->
        promise d = promise d' -> i = j) /\
     (forall c, (c < next_cell empty_world)%nat ->
                cells w' !! c = cells empty_world !! c) /\
     objs w' = objs empty_world /\ files w' = files empty_world /\
     trace w' = trace empty_world /\
     cells_wf w').
Proof.
  split.
  - apply (p_settles_exactly_once sample_host sample_ops empty_world).
    intros c _. reflexivity.
  - apply (p_settles_exactly_once host_retrieval_fails sample_ops empty_world).
    intros c _. reflexivity.
Defined.

(** The sample client, with a native [Promise] and without one: the states
    of the three promises are those of the registers. *)
Example registers_sample_ops :
  registers sample_ops [] = [Fulfilled VTrue; Rejected 0%nat; Pending].
Proof. reflexivity. Qed.

Example run_sample_ops :
  (exists made w',
     run_ops sample_host sample_ops [] empty_world = (Ret made, w') /\
     map promise made = [1; 3; 5]%nat /\
     map (fun d => cells w' !! promise d) made
     = [Some (Fulfilled VTrue); Some (Rejected 0%nat); Some Pending]) /\
  (exists made w',
     run_ops host_retrieval_fails sample_ops [] empty_world = (Ret made, w') /\
     map promise made = [0; 1; 2]%nat /\
     map (fun d => cells w' !! promise d) made
     = [Some (Fulfilled VTrue); Some (Rejected 0%nat); Some Pending]).
Proof.
  split; eexists _, _; (split; [vm_compute; reflexivity|]); split; reflexivity.
Qed.

(** The captures keep the store of cells in order, so that the pairs they
    make are new ones. *)
Section CellsWf.

Variable h : host.

Lemma keeps_cells_wf_same {A} (m : M A) : keeps_cells m -> keeps_cells_wf m.
Proof.
  intros Hm w res w' Hrun Hwf k Hk.
  destruct (Hm w res w' Hrun) as [Hc Hn]. rewrite Hc. apply Hwf.
  now rewrite <- Hn.
Qed.

Lemma keeps_cells_wf_ret {A} (a : A) : keeps_cells_wf (ret a).
Proof. apply keeps_cells_wf_same. intros w res w' [= <- <-]. now split. Qed.

Lemma keeps_cells_wf_throw {A} (e : ref) : keeps_cells_wf (@throw A e).
Proof. apply keeps_cells_wf_same. intros w res w' [= <- <-]. now split. Qed.

Lemma keeps_cells_wf_emit_event (ev : event) : keeps_cells_wf (emit_event ev).
Proof. apply keeps_cells_wf_same. intros w res w' [= <- <-]. now split. Qed.

Lemma keeps_cells_wf_get_world : keeps_cells_wf get_world.
Proof. apply keeps_cells_wf_same. intros w res w' [= <- <-]. now split. Qed.

Lemma keeps_cells_wf_set_files f : keeps_cells_wf (set_files f).
Proof. apply keeps_cells_wf_same. intros w res w' [= <- <-]. now split. Qed.

Lemma keeps_cells_wf_bind {A B} (m : M A) (k : A -> M B) :
  keeps_cells_wf m -> (forall a, keeps_cells_wf (k a)) ->
  keeps_cells_wf (bind m k).
Proof.
  intros Hm Hk w res w' Hrun Hw. unfold bind in Hrun.
  destruct (m w) as [[a|e] w1] eqn:E.
  - eapply Hk; [exact Hrun|]. eapply Hm; eassumption.
  - injection Hrun as <- <-. eapply Hm; eassumption.
Qed.

Lemma keeps_cells_wf_then {A B} (o : outcome A) (onOk : A -> M B)
    (onErr : option (ref -> M B)) :
  (forall a, keeps_cells_wf (onOk a)) ->
  (forall k e, onErr = Some k -> keeps_cells_wf (k e)) ->
  keeps_cells_wf (then_ o onOk onErr).
Proof.
  intros Hok Herr w res w' Hrun Hw. unfold then_ in Hrun.
  destruct o as [a|e|].
  - destruct (onOk a w) as [[b|e] w1] eqn:E; injection Hrun as <- <-;
      eapply Hok; eassumption.
  - destruct onErr as [k|].
    + destruct (k e w) as [[b|e'] w1] eqn:E; injection Hrun as <- <-;
        eapply Herr; eauto.
    + now injection Hrun as <- <-.
  - now injection Hrun as <- <-.
Qed.

Lemma keeps_cells_wf_drop_promise {A} (o : outcome A) :
  keeps_cells_wf (drop_promise o).
Proof.
  destruct o; simpl;
    [apply keeps_cells_wf_ret | apply keeps_cells_wf_emit_event
    | apply keeps_cells_wf_ret].
Qed.

Lemma keeps_cells_wf_settle (c : nat) (s : settled) :
  keeps_cells_wf (settle c s).
Proof.
  intros w res w' Hrun Hwf. unfold settle, bind, get_world in Hrun.
  destruct (cells w !! c) as [[| |]|] eqn:E;
    try (injection Hrun as <- <-; exact Hwf).
  injection Hrun as <- <-. unfold cells_wf. simpl. intros k Hk.
  rewrite lookup_insert_ne; [now apply Hwf|].
  intros <-. rewrite Hwf in E by exact Hk. discriminate.
Qed.

Lemma keeps_cells_wf_call_fulfill f v : keeps_cells_wf (call_fulfill f v).
Proof. destruct f; apply keeps_cells_wf_settle. Qed.

Lemma keeps_cells_wf_call_reject f e : keeps_cells_wf (call_reject f e).
Proof. destruct f; apply keeps_cells_wf_settle. Qed.

Lemma keeps_cells_wf_p : keeps_cells_wf (p h).
Proof.
  intros w res w' Hrun Hwf.
  destruct (p_fresh h w Hwf) as (d & w1 & Hp & _ & _ & _ & _ & Hwf1 & _).
  rewrite Hp in Hrun. now injection Hrun as <- <-.
Qed.

Ltac wf_step :=
  first
    [ apply keeps_cells_wf_ret | apply keeps_cells_wf_throw
    | apply keeps_cells_wf_emit_event | apply keeps_cells_wf_get_world
    | apply keeps_cells_wf_set_files | apply keeps_cells_wf_drop_promise
    | apply keeps_cells_wf_call_fulfill | apply keeps_cells_wf_call_reject
    | apply keeps_cells_wf_p
    | apply keeps_cells_wf_bind; [|intros ?]
    | apply keeps_cells_wf_then; [intros ?|intros ? ? [= <-]]
    | match goal with
      | |- context [match ?x with _ => _ end] => destruct x
      | |- context [if ?x then _ else _] => destruct x
      end ].

Lemma keeps_cells_wf_snap f : keeps_cells_wf (snap h f).
Proof.
  unfold snap, driver_getSession, driver_takeScreenshot, mkdirp,
    fs_writeFile, formatJenkinsImageUrls.
  repeat wf_step.
Qed.

Lemma keeps_cells_wf_source f : keeps_cells_wf (source h f).
Proof.
  unfold source, side_channel, driver_getSession, driver_executeScript,
    driver_getPageSource, mkdirp, fs_writeFile.
  repeat wf_step.
Qed.

End CellsWf.

(** ** Frame properties of the monad *)

Section Frames.

Context {A B : Type}.
Variable P : event -> Prop.

Lemma appends_ret (a : A) : appends P (ret a).
Proof.
  intros w r w' H. injection H as <- <-. exists []. now rewrite app_nil_r.
Qed.

Lemma appends_throw (e : ref) : appends P (@throw A e).
Proof.
  intros w r w' H. injection H as <- <-. exists []. now rewrite app_nil_r.
Qed.

Lemma appends_bind (m : M A) (k : A -> M B) :
  appends P m -> (forall a, appends P (k a)) -> appends P (bind m k).
Proof.
  intros Hm Hk w r w' H. unfold bind in H.
  destruct (m w) as [[a|e] w1] eqn:E.
  - destruct (Hm _ _ _ E) as [ev1 [H1 F1]].
    destruct (Hk a _ _ _ H) as [ev2 [H2 F2]].
    exists (ev1 ++ ev2). rewrite H2, H1, <- app_assoc.
    split; [reflexivity | now apply Forall_app].
  - injection H as <- <-. exact (Hm _ _ _ E).
Qed.

Lemma appends_then (o : outcome A) (f : A -> M B) (g : option (ref -> M B)) :
  (forall a, appends P (f a)) ->
  (forall k e, g = Some k -> appends P (k e)) ->
  appends P (then_ o f g).
Proof.
  intros Hf Hg w r w' H. unfold then_ in H.
  destruct o as [a|e|].
  - destruct (f a w) as [[b|e'] w1] eqn:E; injection H as <- <-;
      exact (Hf _ _ _ _ E).
  - destruct g as [k|].
    + destruct (k e w) as [[b|e'] w1] eqn:E; injection H as <- <-;
        exact (Hg _ _ eq_refl _ _ _ E).
    + injection H as <- <-. exists []. now rewrite app_nil_r.
  - injection H as <- <-. exists []. now rewrite app_nil_r.
Qed.

Lemma total_ret (a : A) : total (ret a).
Proof. intros w. now exists a, w. Qed.

Lemma total_bind (m : M A) (k : A -> M B) :
  total m -> (forall a, total (k a)) -> total (bind m k).
Proof.
  intros Hm Hk w. unfold bind. destruct (Hm w) as [a [w1 ->]]. apply Hk.
Qed.

Lemma total_then (o : outcome A) (f : A -> M B) (g : option (ref -> M B)) :
  total (then_ o f g).
Proof.
  intros w. unfold then_. destruct o as [a|e|].
  - destruct (f a w) as [[b|e'] w1]; eauto.
  - destruct g as [k|]; [destruct (k e w) as [[b|e'] w1]|]; eauto.
  - eauto.
Qed.

Lemma keeps_objs_ret (a : A) : keeps_objs (ret a).
Proof. intros w r w' H. now injection H as <- <-. Qed.

Lemma keeps_objs_throw (e : ref) : keeps_objs (@throw A e).
Proof. intros w r w' H. now injection H as <- <-. Qed.

Lemma keeps_objs_bind (m : M A) (k : A -> M B) :
  keeps_objs m -> (forall a, keeps_objs (k a)) -> keeps_objs (bind m k).
Proof.
  intros Hm Hk w r w' H. unfold bind in H.
  destruct (m w) as [[a|e] w1] eqn:E.
  - destruct (Hm _ _ _ E) as [H1 [H2 H3]].
    destruct (Hk a _ _ _ H) as [H4 [H5 H6]]. repeat split; congruence.
  - injection H as <- <-. exact (Hm _ _ _ E).
Qed.

Lemma keeps_objs_then (o : outcome A) (f : A -> M B)
    (g : option (ref -> M B)) :
  (forall a, keeps_objs (f a)) ->
  (forall k e, g = Some k -> keeps_objs (k e)) ->
  keeps_objs (then_ o f g).
Proof.
  intros Hf Hg w r w' H. unfold then_ in H.
  destruct o as [a|e|].
  - destruct (f a w) as [[b|e'] w1] eqn:E; injection H as <- <-;
      exact (Hf _ _ _ _ E).
  - destruct g as [k|].
    + destruct (k e w) as [[b|e'] w1] eqn:E; injection H as <- <-;
        exact (Hg _ _ eq_refl _ _ _ E).
    + now injection H as <- <-.
  - now injection H as <- <-.
Qed.

End Frames.

Lemma appends_emit_event (P : event -> Prop) (ev : event) :
  P ev -> appends P (emit_event ev).
Proof.
  intros HP w r w' H. injection H as <- <-. exists [ev]. simpl.
  split; [reflexivity | now constructor].
Qed.

Lemma appends_weaken (P Q : event -> Prop) {A} (m : M A) :
  appends P m -> (forall ev, P ev -> Q ev) -> appends Q m.
Proof.
  intros Hm HPQ w r w' H. destruct (Hm _ _ _ H) as [evs [Ht F]].
  exists evs. split; [exact Ht|]. eapply Forall_impl; [exact F | exact HPQ].
Qed.

Lemma appends_silent (P : event -> Prop) {A} (m : M A) :
  (forall w r w', m w = (r, w') -> trace w' = trace w) -> appends P m.
Proof.
  intros Hm w r w' H. exists []. rewrite app_nil_r. split; [eauto | constructor].
Qed.

Lemma settle_silent (c : nat) (s : settled) :
  forall w r w', settle c s w = (r, w') ->
    trace w' = trace w /\ objs w' = objs w /\ next_obj w' = next_obj w /\
    currentTestTitle w' = currentTestTitle w /\ files w' = files w /\ r = Ret tt.
Proof.
  intros w r w' H. unfold settle, bind, get_world, set_cells, ret in H.
  destruct (cells w !! c) as [[| |]|]; injection H as <- <-; simpl; tauto.
Qed.

Lemma call_fulfill_silent (f : resolver) (v : capture) :
  forall w r w', call_fulfill f v w = (r, w') ->
    trace w' = trace w /\ objs w' = objs w /\ next_obj w' = next_obj w /\
    currentTestTitle w' = currentTestTitle w /\ files w' = files w /\ r = Ret tt.
Proof. destruct f; apply settle_silent. Qed.

Lemma call_reject_silent (f : rejecter) (e : ref) :
  forall w r w', call_reject f e w = (r, w') ->
    trace w' = trace w /\ objs w' = objs w /\ next_obj w' = next_obj w /\
    currentTestTitle w' = currentTestTitle w /\ files w' = files w /\ r = Ret tt.
Proof. destruct f; apply settle_silent. Qed.

Lemma p_silent (h : host) :
  forall w r w', p h w = (r, w') ->
    trace w' = trace w /\ objs w' = objs w /\ next_obj w' = next_obj w /\
    currentTestTitle w' = currentTestTitle w /\ files w' = files w.
Proof.
  intros w r w' H. destruct (p_returns h w) as [d [c [n [Hp _]]]].
  rewrite Hp in H. injection H as <- <-. simpl. tauto.
Qed.

Create HintDb frames.

#[local] Hint Resolve appends_ret appends_throw total_ret keeps_objs_ret
  keeps_objs_throw : frames.

Ltac frame_step :=
  first
    [ solve [auto with frames]
    | apply appends_bind; [|intros ?]
    | apply keeps_objs_bind; [|intros ?]
    | apply total_bind; [|intros ?]
    | apply appends_then; [intros ?|intros ? ? [= <-]]
    | apply keeps_objs_then; [intros ?|intros ? ? [= <-]]
    | apply total_then
    | apply appends_emit_event; exact I
    | match goal with
      | |- context [match ?x with _ => _ end] => destruct x
      | |- context [if ?x then _ else _] => destruct x
      end ].

Ltac frames := repeat frame_step.

Section CaptureFrames.

Variable h : host.

Lemma appends_settle P c s : appends P (settle c s).
Proof. apply appends_silent. intros w r w' H. now apply settle_silent in H. Qed.

Lemma keeps_objs_settle c s : keeps_objs (settle c s).
Proof. intros w r w' H. apply settle_silent in H. tauto. Qed.

Lemma total_settle c s : total (settle c s).
Proof.
  intros w. destruct (settle c s w) as [r w'] eqn:E.
  pose proof (settle_silent _ _ _ _ _ E) as H.
  destruct H as (_ & _ & _ & _ & _ & ->). eauto.
Qed.

Lemma appends_call_fulfill P f v : appends P (call_fulfill f v).
Proof. destruct f; apply appends_settle. Qed.

Lemma appends_call_reject P f e : appends P (call_reject f e).
Proof. destruct f; apply appends_settle. Qed.

Lemma keeps_objs_call_fulfill f v : keeps_objs (call_fulfill f v).
Proof. destruct f; apply keeps_objs_settle. Qed.

Lemma keeps_objs_call_reject f e : keeps_objs (call_reject f e).
Proof. destruct f; apply keeps_objs_settle. Qed.

Lemma total_call_fulfill f v : total (call_fulfill f v).
Proof. destruct f; apply total_settle. Qed.

Lemma total_call_reject f e : total (call_reject f e).
Proof. destruct f; apply total_settle. Qed.

Lemma appends_p P : appends P (p h).
Proof. apply appends_silent. intros w r w' H. now apply p_silent in H. Qed.

Lemma keeps_objs_p : keeps_objs (p h).
Proof. intros w r w' H. apply p_silent in H. tauto. Qed.

Lemma total_p : total (p h).
Proof. intros w. destruct (p_returns h w) as [d [c [n [Hp _]]]]. eauto. Qed.

Lemma appends_get_world P : appends P get_world.
Proof. apply appends_silent. intros w r w' H. now injection H as <- <-. Qed.

Lemma keeps_objs_get_world : keeps_objs get_world.
Proof. intros w r w' H. now injection H as <- <-. Qed.

Lemma total_get_world : total get_world.
Proof. intros w. now exists w, w. Qed.

Lemma keeps_objs_emit_event ev : keeps_objs (emit_event ev).
Proof. intros w r w' H. now injection H as <- <-. Qed.

Lemma total_emit_event ev : total (emit_event ev).
Proof. intros w. unfold emit_event. eauto. Qed.

Lemma appends_set_files P f : appends P (set_files f).
Proof. apply appends_silent. intros w r w' H. now injection H as <- <-. Qed.

Lemma keeps_objs_set_files f : keeps_objs (set_files f).
Proof. intros w r w' H. now injection H as <- <-. Qed.

Lemma total_set_files f : total (set_files f).
Proof. intros w. unfold set_files. eauto. Qed.

#[local] Hint Resolve appends_settle keeps_objs_settle total_settle
  appends_call_fulfill appends_call_reject keeps_objs_call_fulfill
  keeps_objs_call_reject total_call_fulfill total_call_reject
  appends_p keeps_objs_p total_p appends_get_world keeps_objs_get_world
  total_get_world keeps_objs_emit_event total_emit_event
  appends_set_files keeps_objs_set_files total_set_files : frames.

Lemma appends_formatJenkinsImageUrls a b :
  appends capture_io (formatJenkinsImageUrls h a b).
Proof. unfold formatJenkinsImageUrls. frames. Qed.

Lemma keeps_objs_formatJenkinsImageUrls a b :
  keeps_objs (formatJenkinsImageUrls h a b).
Proof. unfold formatJenkinsImageUrls. frames. Qed.

Lemma total_formatJenkinsImageUrls a b : total (formatJenkinsImageUrls h a b).
Proof. unfold formatJenkinsImageUrls. frames. Qed.

Lemma appends_drop_promise {A} (o : outcome A) :
  appends capture_io (drop_promise o).
Proof. unfold drop_promise. frames. Qed.

Lemma keeps_objs_drop_promise {A} (o : outcome A) : keeps_objs (drop_promise o).
Proof. unfold drop_promise. frames. Qed.

Lemma total_drop_promise {A} (o : outcome A) : total (drop_promise o).
Proof. unfold drop_promise. frames. Qed.

Lemma appends_mkdirp dir : appends capture_io (mkdirp h dir).
Proof. unfold mkdirp. frames. Qed.

Lemma keeps_objs_mkdirp dir : keeps_objs (mkdirp h dir).
Proof. unfold mkdirp. frames. Qed.

Lemma appends_fs_writeFile path data enc cb :
  (forall err, appends capture_io (cb err)) ->
  appends capture_io (fs_writeFile h path data enc cb).
Proof. intros Hcb. unfold fs_writeFile. frames; apply Hcb. Qed.

Lemma keeps_objs_fs_writeFile path data enc cb :
  (forall err, keeps_objs (cb err)) ->
  keeps_objs (fs_writeFile h path data enc cb).
Proof. intros Hcb. unfold fs_writeFile. frames; apply Hcb. Qed.

#[local] Hint Resolve appends_formatJenkinsImageUrls
  keeps_objs_formatJenkinsImageUrls total_formatJenkinsImageUrls
  appends_drop_promise keeps_objs_drop_promise total_drop_promise
  appends_mkdirp keeps_objs_mkdirp : frames.

Ltac capture_frames :=
  repeat first
    [ solve [auto with frames]
    | apply appends_fs_writeFile; intros ?
    | apply keeps_objs_fs_writeFile; intros ?
    | frame_step ].

Lemma appends_snap f : appends capture_io (snap h f).
Proof.
  unfold snap, driver_getSession, driver_takeScreenshot. capture_frames.
Qed.

Lemma keeps_objs_snap f : keeps_objs (snap h f).
Proof.
  unfold snap, driver_getSession, driver_takeScreenshot. capture_frames.
Qed.

Lemma total_snap f : total (snap h f).
Proof.
  unfold snap, driver_getSession, driver_takeScreenshot. capture_frames.
Qed.

Lemma appends_source f : appends capture_io (source h f).
Proof.
  unfold source, side_channel, driver_getSession, driver_executeScript,
    driver_getPageSource. capture_frames.
Qed.

Lemma keeps_objs_source f : keeps_objs (source h f).
Proof.
  unfold source, side_channel, driver_getSession, driver_executeScript,
    driver_getPageSource. capture_frames.
Qed.

Lemma total_source f : total (source h f).
Proof.
  unfold source, side_channel, driver_getSession, driver_executeScript,
    driver_getPageSource. capture_frames.
Qed.

End CaptureFrames.

(** ** [snap] *)

Ltac run_monad :=
  unfold bind, ret, throw, get_world, emit_event, set_cells, set_files,
    set_objs, driver_getSession, driver_takeScreenshot, driver_getPageSource,
    driver_executeScript; simpl.

Lemma call_fulfill_pending (f : resolver) (v : capture) (w : world) :
  cells w !! resolver_cell f = Some Pending ->
  call_fulfill f v w =
  (Ret tt, with_cells w (<[resolver_cell f := Fulfilled v]> (cells w))
                      (next_cell w)).
Proof. intros H. destruct f; now apply settle_pending. Qed.

Lemma call_reject_pending (f : rejecter) (e : ref) (w : world) :
  cells w !! rejecter_cell f = Some Pending ->
  call_reject f e w =
  (Ret tt, with_cells w (<[rejecter_cell f := Rejected e]> (cells w))
                      (next_cell w)).
Proof. intros H. destruct f; now apply settle_pending. Qed.

(** The Jenkins step of [snap] only writes to the console. *)
Lemma jenkins_step_run (h : host) (a b : jsstring) (w : world) :
  exists u evs,
    (if truthy (JENKINS_URL h) then formatJenkinsImageUrls h a b else ret None) w
    = (Ret u, with_events w evs).
Proof.
  destruct w as [c n o no fl t tr].
  destruct (truthy (JENKINS_URL h)).
  - unfold formatJenkinsImageUrls, with_events.
    destruct (negb (truthy (WORKSPACE h)));
      [|destruct (truthy (JOB_NAME h))];
      unfold bind, emit_event, ret; cbn [trace cells next_cell objs next_obj
        files currentTestTitle];
      repeat match goal with
             | |- context [if ?b then _ else _] => destruct b
             end;
      first [ eexists _, []; rewrite app_nil_r; reflexivity
            | eexists _, [_]; reflexivity ].
  - exists None, []. unfold ret, with_events. simpl. now rewrite app_nil_r.
Qed.

(** C2. Without a live session ([getSession()] falsy) [snap] fulfils its
    promise with the sentinel [true]; the only call it makes is the session
    query: no directory is created, no file is written, and the files are
    what they were. *)
Theorem snap_without_session (h : host) (filename : jsstring) (w : world) :
  session_truthy (getSession h) = false ->
  exists pr w',
    snap h filename w = (Ret pr, w') /\
    cells w' !! pr = Some (Fulfilled VTrue) /\
    files w' = files w /\
    trace w' = trace w ++ [DriverCmd GetSession] /\
    List.filter is_fs_event (trace w') = List.filter is_fs_event (trace w).
Proof.
  intros Hs. unfold snap.
  destruct (p_returns h w) as [d [c [n [Hp [Hc [Hf Hr]]]]]].
  unfold bind at 1. rewrite Hp. run_monad. rewrite Hs. simpl.
  rewrite call_fulfill_pending by (simpl; now rewrite Hf).
  simpl. eexists _, _. split; [reflexivity|]. simpl.
  rewrite Hf, lookup_insert_eq. repeat split.
  rewrite List.filter_app. simpl. apply app_nil_r.
Qed.

Lemma snap_without_session_witness :
  exists pr w',
    snap host_without_session (lit "teardown") empty_world = (Ret pr, w') /\
    cells w' !! pr = Some (Fulfilled VTrue) /\
    files w' = files empty_world /\
    trace w' = trace empty_world ++ [DriverCmd GetSession] /\
    List.filter is_fs_event (trace w') =
    List.filter is_fs_event (trace empty_world).
Proof.
  apply (snap_without_session host_without_session (lit "teardown") empty_world).
  reflexivity.
Defined.

(** A screenshot that the driver delivers and that is written: the promise
    is fulfilled with the image object and the file holds the image. *)
Lemma snap_written_run (h : host) (filename img : jsstring) (w : world) :
  session_truthy (getSession h) = true ->
  takeScreenshot h = Resolved img ->
  mkdirp_sync h (Path.dirname (snap_path h filename)) = None ->
  writeFile h (snap_path h filename) = None ->
  exists pr w' iu au,
    snap h filename w = (Ret pr, w') /\
    cells w' !! pr =
      Some (Fulfilled (VImage (ImageObj (filename ++ lit ".png")
                                        (snap_path h filename) iu au))) /\
    files w' = <[snap_path h filename := (img, Base64)]> (files w) /\
    objs w' = objs w.
Proof.
  intros Hs Hshot Hmk Hwr. unfold snap.
  destruct (p_returns h w) as [d [c [n [Hp [Hc [Hf Hr]]]]]].
  unfold bind at 1. rewrite Hp. run_monad. rewrite Hs, Hshot. simpl.
  unfold then_, mkdirp. run_monad.
  rewrite Hmk.
  match goal with
  | |- context [(if truthy (JENKINS_URL h) then ?f else ?g) ?w0] =>
      destruct (jenkins_step_run h (screenShotPath h) (filename ++ lit ".png") w0)
        as [u [evs Hj]]
  end.
  unfold ret in Hj. rewrite Hj. unfold with_events, fs_writeFile. run_monad. rewrite Hwr. simpl.
  rewrite call_fulfill_pending by (simpl; now rewrite Hf).
  simpl. destruct u as [u|];
    (eexists _, _, _, _; split; [reflexivity|]; simpl;
     rewrite Hf, lookup_insert_eq; repeat split; reflexivity).
Qed.

Lemma snap_retrieval_failure_run (h : host) (filename : jsstring) (w : world)
    (e : ref) :
  session_truthy (getSession h) = true ->
  takeScreenshot h = Failed e ->
  exists pr w',
    snap h filename w = (Ret pr, w') /\
    cells w' !! pr = Some (Rejected e) /\
    objs w' = objs w /\ files w' = files w.
Proof.
  intros Hs Hshot. unfold snap.
  destruct (p_returns h w) as [d [c [n [Hp [Hc [Hf Hr]]]]]].
  unfold bind at 1. rewrite Hp. run_monad. rewrite Hs, Hshot. simpl.
  unfold then_.
  rewrite call_reject_pending by (simpl; now rewrite Hr).
  simpl. eexists _, _. split; [reflexivity|]. simpl.
  rewrite Hr, lookup_insert_eq. repeat split; reflexivity.
Qed.

Lemma snap_write_failure_run (h : host) (filename img : jsstring) (w : world)
    (e : ref) :
  session_truthy (getSession h) = true ->
  takeScreenshot h = Resolved img ->
  mkdirp_sync h (Path.dirname (snap_path h filename)) = None ->
  writeFile h (snap_path h filename) = Some e ->
  exists pr w',
    snap h filename w = (Ret pr, w') /\
    cells w' !! pr = Some (Rejected e) /\
    objs w' = objs w /\ files w' = files w.
Proof.
  intros Hs Hshot Hmk Hwr. unfold snap.
  destruct (p_returns h w) as [d [c [n [Hp [Hc [Hf Hr]]]]]].
  unfold bind at 1. rewrite Hp. run_monad. rewrite Hs, Hshot. simpl.
  unfold then_, mkdirp. run_monad.
  rewrite Hmk.
  match goal with
  | |- context [(if truthy (JENKINS_URL h) then ?f else ?g) ?w0] =>
      destruct (jenkins_step_run h (screenShotPath h) (filename ++ lit ".png") w0)
        as [u [evs Hj]]
  end.
  unfold ret in Hj. rewrite Hj. unfold with_events, fs_writeFile.
  run_monad. rewrite Hwr. simpl.
  rewrite call_reject_pending by (simpl; now rewrite Hr).
  simpl. eexists _, _. split; [reflexivity|]. simpl.
  rewrite Hr, lookup_insert_eq. repeat split; reflexivity.
Qed.

(** C7. When the driver fails to deliver the screenshot, or delivers it
    and the write of the file fails, the promise of [snap] is rejected
    with that very error reference, and the heap of error objects is as it
    was: the error is neither wrapped nor modified. *)
Theorem snap_rejects_with_the_error (h : host) (filename : jsstring)
    (w : world) (e : ref) :
  session_truthy (getSession h) = true ->
  takeScreenshot h = Failed e \/
  (exists img,
      takeScreenshot h = Resolved img /\
      mkdirp_sync h (Path.dirname (snap_path h filename)) = None /\
      writeFile h (snap_path h filename) = Some e) ->
  exists pr w',
    snap h filename w = (Ret pr, w') /\
    cells w' !! pr = Some (Rejected e) /\
    objs w' = objs w.
Proof.
  intros Hs [Hshot | [img [Hshot [Hmk Hwr]]]].
  - destruct (snap_retrieval_failure_run h filename w e Hs Hshot)
      as [pr [w' [H1 [H2 [H3 _]]]]]. eauto.
  - destruct (snap_write_failure_run h filename img w e Hs Hshot Hmk Hwr)
      as [pr [w' [H1 [H2 [H3 _]]]]]. eauto.
Qed.

Lemma snap_rejects_with_the_error_witness :
  (exists pr w',
      snap host_retrieval_fails (lit "shot") (world_with boom) = (Ret pr, w') /\
      cells w' !! pr = Some (Rejected 0%nat) /\
      objs w' = objs (world_with boom)) /\
  (exists pr w',
      snap host_write_fails (lit "shot") (world_with boom) = (Ret pr, w') /\
      cells w' !! pr = Some (Rejected 0%nat) /\
      objs w' = objs (world_with boom)).
Proof.
  split.
  - apply (snap_rejects_with_the_error host_retrieval_fails (lit "shot")
             (world_with boom) 0%nat); [reflexivity|].
    left. reflexivity.
  - apply (snap_rejects_with_the_error host_write_fails (lit "shot")
             (world_with boom) 0%nat); [reflexivity|].
    right. exists (lit "iVBORw0KGgo="). repeat split; reflexivity.
Defined.

(** ** Paths *)

Module PathFacts.
Import Path.

Lemma split_nonempty (s : jsstring) : split s <> [].
Proof.
  induction s as [|c s IH]; simpl; [discriminate|].
  destruct (c =? slash); [discriminate|].
  destruct (split s); [contradiction | discriminate].
Qed.

Lemma split_slashfree (s : jsstring) : slashfree s -> split s = [s].
Proof.
  induction 1 as [|c s Hc _ IH]; simpl; [reflexivity|].
  apply N.eqb_neq in Hc. now rewrite Hc, IH.
Qed.

Lemma split_app_slash (a b : jsstring) :
  split (a ++ slash :: b) = split a ++ split b.
Proof.
  induction a as [|c a IH]; simpl.
  - reflexivity.
  - destruct (c =? slash); [now rewrite IH|].
    rewrite IH. pose proof (split_nonempty a) as Hne.
    destruct (split a); [contradiction | reflexivity].
Qed.

Lemma split_segments_slashfree (s : jsstring) : Forall slashfree (split s).
Proof.
  induction s as [|c s IH]; simpl.
  - repeat constructor.
  - destruct (c =? slash) eqn:E.
    + constructor; [constructor | exact IH].
    + apply N.eqb_neq in E. destruct (split s) as [|seg segs].
      * repeat constructor. exact E.
      * inversion IH; subst. constructor; [now constructor | assumption].
Qed.

Lemma split_join_segs (ns : list jsstring) :
  ns <> [] -> Forall slashfree ns -> split (join_segs ns) = ns.
Proof.
  induction ns as [|seg ns IH]; [contradiction|].
  intros _ H. inversion H as [|? ? Hseg Hns]; subst.
  destruct ns as [|s2 ns].
  - simpl. now apply split_slashfree.
  - change (join_segs (seg :: s2 :: ns))
      with (seg ++ slash :: join_segs (s2 :: ns)).
    rewrite split_app_slash, split_slashfree by assumption.
    rewrite IH by (assumption || discriminate). reflexivity.
Qed.

(** The last segment of [f ++ s] ends with [s] when [s] has no slash. *)
Lemma split_app_last (f s : jsstring) :
  slashfree s -> exists init l, split (f ++ s) = init ++ [l ++ s].
Proof.
  intros Hs. induction f as [|c f IH]; simpl.
  - exists [], []. now apply split_slashfree.
  - destruct IH as [init [l IH]]. destruct (c =? slash).
    + exists ([] :: init), l. now rewrite IH.
    + rewrite IH. destruct init as [|i0 init]; simpl.
      * now exists [], (c :: l).
      * now exists ((c :: i0) :: init), l.
Qed.

Lemma norm_step_kept (b : bool) (stack : list jsstring) (seg : jsstring) :
  kept seg -> norm_step b stack seg = seg :: stack.
Proof.
  intros (H1 & H2 & H3). unfold norm_step.
  rewrite !bool_decide_eq_false_2 by assumption. reflexivity.
Qed.

Lemma fold_kept (b : bool) (segs stack : list jsstring) :
  Forall kept segs ->
  fold_left (norm_step b) segs stack = rev segs ++ stack.
Proof.
  intros H. revert stack. induction H as [|seg segs Hk _ IH]; intros stack.
  - reflexivity.
  - simpl. rewrite norm_step_kept by assumption.
    rewrite IH, <- app_assoc. reflexivity.
Qed.

Lemma fold_without_dotdot (b : bool) (segs stack : list jsstring) :
  Forall (fun seg => seg <> dotdot) segs ->
  fold_left (norm_step b) segs stack = rev (List.filter keepb segs) ++ stack.
Proof.
  intros H. revert stack. induction H as [|seg segs Hd _ IH]; intros stack.
  - reflexivity.
  - simpl. rewrite IH. unfold keepb at 2, norm_step.
    destruct (bool_decide (seg = []) || bool_decide (seg = dot)); simpl.
    + reflexivity.
    + rewrite bool_decide_eq_false_2 by assumption.
      now rewrite <- app_assoc.
Qed.

Lemma norm_step_clean (stack : list jsstring) (seg : jsstring) :
  slashfree seg -> Forall clean stack ->
  Forall clean (norm_step false stack seg).
Proof.
  intros Hs Hst. unfold norm_step.
  destruct (bool_decide (seg = [])) eqn:E1; [exact Hst|].
  destruct (bool_decide (seg = dot)) eqn:E2; [exact Hst|]. simpl.
  destruct (bool_decide (seg = dotdot)) eqn:E3.
  - destruct stack as [|top below]; [constructor|].
    destruct (bool_decide (top = dotdot)); [exact Hst|].
    now inversion Hst.
  - apply bool_decide_eq_false in E1, E2, E3.
    constructor; [|exact Hst]. repeat split; assumption.
Qed.

Lemma fold_clean (segs stack : list jsstring) :
  Forall slashfree segs -> Forall clean stack ->
  Forall clean (fold_left (norm_step false) segs stack).
Proof.
  intros H. revert stack. induction H as [|seg segs Hs _ IH]; intros stack Hst.
  - exact Hst.
  - simpl. apply IH. now apply norm_step_clean.
Qed.

Lemma normalize_segs_clean (path : jsstring) :
  Forall clean (normalize_segs false (split path)).
Proof.
  unfold normalize_segs. apply Forall_rev, fold_clean.
  - apply split_segments_slashfree.
  - constructor.
Qed.

Lemma join_segs_nonempty (ns : list jsstring) :
  ns <> [] -> Forall (fun seg => seg <> []) ns -> join_segs ns <> [].
Proof.
  destruct ns as [|seg ns]; [contradiction|].
  intros _ H. inversion H as [|? ? Hseg _]; subst.
  destruct ns; simpl; [exact Hseg|].
  destruct seg; [contradiction | discriminate].
Qed.

Lemma join_segs_app (a b : list jsstring) :
  a <> [] -> b <> [] ->
  join_segs (a ++ b) = join_segs a ++ slash :: join_segs b.
Proof.
  intros Ha Hb. induction a as [|seg a IH]; [contradiction|].
  destruct a as [|s2 a].
  - simpl. destruct b; [contradiction | reflexivity].
  - change (join_segs ((seg :: s2 :: a) ++ b))
      with (seg ++ slash :: join_segs ((s2 :: a) ++ b)).
    rewrite IH by discriminate.
    change (join_segs (seg :: s2 :: a))
      with (seg ++ slash :: join_segs (s2 :: a)).
    now rewrite <- app_assoc.
Qed.

(** [path.resolve] against an absolute working directory: a slash and
    clean segments. *)
Lemma resolve_shape (cwd d : jsstring) :
  isAbsolute cwd = true ->
  exists ns, Forall clean ns /\ resolve cwd d = slash :: join_segs ns.
Proof.
  intros Habs. unfold resolve. rewrite Habs, orb_true_r. simpl.
  eexists. split; [|reflexivity]. apply normalize_segs_clean.
Qed.



Lemma filter_keepb_nonempty (segs : list jsstring) :
  Forall (fun seg => seg <> []) (List.filter keepb segs).
Proof.
  apply Forall_forall. intros seg Hin. apply list_elem_of_In, List.filter_In in Hin as [_ Hk].
  unfold keepb in Hk. intros ->. discriminate.
Qed.

(** Normalising [/ns.../name]: the clean segments of the directory stay,
    followed by the surviving segments of the name. *)
Lemma normalize_segs_under (ns : list jsstring) (name : jsstring) :
  Forall clean ns ->
  Forall (fun seg => seg <> dotdot) (split name) ->
  normalize_segs false (split (slash :: join_segs ns ++ slash :: name))
  = ns ++ List.filter keepb (split name).
Proof.
  intros Hns Hname.
  change (slash :: join_segs ns ++ slash :: name)
    with ([] ++ slash :: (join_segs ns ++ slash :: name)).
  rewrite !split_app_slash. unfold normalize_segs.
  change (split []) with [@nil N]. simpl fold_left.
  change (norm_step false [] []) with (@nil jsstring).
  rewrite fold_left_app.
  assert (Hdir : fold_left (norm_step false) (split (join_segs ns)) []
                 = rev ns).
  { destruct ns as [|seg ns'] eqn:E; [reflexivity|]. rewrite <- E in *.
    rewrite split_join_segs.
    - rewrite fold_kept, app_nil_r; [reflexivity|].
      eapply Forall_impl; [exact Hns|]. now intros ? [? _].
    - subst; discriminate.
    - eapply Forall_impl; [exact Hns|]. now intros ? [_ ?]. }
  rewrite Hdir, fold_without_dotdot by assumption.
  now rewrite rev_app_distr, !rev_involutive.
Qed.

Lemma join_nonempty (a b : jsstring) :
  a <> [] -> b <> [] -> join a b = normalize (a ++ slash :: b).
Proof. destruct a, b; try contradiction; reflexivity. Qed.


End PathFacts.





(** ** [done] *)

Lemma callbacks_app (t1 t2 : list event) :
  callbacks (t1 ++ t2) = callbacks t1 ++ callbacks t2.
Proof.
  induction t1 as [|ev t1 IH]; [reflexivity|].
  destruct ev; simpl; rewrite IH; reflexivity.
Qed.

Lemma callbacks_capture_io (evs : list event) :
  Forall capture_io evs -> callbacks evs = [].
Proof.
  induction 1 as [|ev evs Hev _ IH]; [reflexivity|].
  destruct ev; simpl in *; try exact IH; contradiction.
Qed.

Lemma new_error_run (msg : jsstring) (w : world) :
  new_error msg w = (Ret (next_obj w), with_new_error w msg).
Proof. reflexivity. Qed.

Lemma appendImageUrlToStackTrace_run (h : host) (v : capture) (err : errarg)
    (w : world) :
  annotatable err = true ->
  appendImageUrlToStackTrace h v err w =
  (Ret tt,
   match err with
   | EObj r => with_objs w (alter (annotate (stack_output h v)) r (objs w))
   | _ => w
   end).
Proof.
  destruct err as [| |r|[b|n|s']|r]; try reflexivity; try discriminate;
    unfold annotatable, appendImageUrlToStackTrace; simpl;
    intros H; rewrite orb_false_r in H; apply negb_true_iff in H;
    now rewrite H.
Qed.

(** On a truthy primitive and on a frozen object the assignment to
    [stack] throws a new [TypeError]. *)
Lemma appendImageUrlToStackTrace_throws (h : host) (v : capture)
    (err : errarg) (w : world) :
  annotatable err = false ->
  appendImageUrlToStackTrace h v err w =
  (Throw (next_obj w), with_new_error w stack_type_error).
Proof.
  destruct err as [| |r|[b|n|s']|r]; try discriminate; try reflexivity;
    unfold annotatable, appendImageUrlToStackTrace; simpl;
    intros H; rewrite orb_false_r in H; apply negb_false_iff in H;
    now rewrite H.
Qed.

Lemma await_run (pr : nat) (w : world) :
  await pr w =
  (Ret match cells w !! pr with
       | Some (Fulfilled v) => Resolved v
       | Some (Rejected e) => Failed e
       | _ => Never
       end, w).
Proof. reflexivity. Qed.

(** What [done] does once [snap] has run. *)
Lemma done_run (h : host) (filename : jsstring) (err : errarg) (w : world)
    (pr : nat) (w1 : world) :
  snap h filename w = (Ret pr, w1) ->
  done h filename err w =
  (Ret tt,
   match cells w1 !! pr with
   | Some (Fulfilled v) =>
       if annotatable err then
         with_events
           match err with
           | EObj r =>
               with_objs w1 (alter (annotate (stack_output h v)) r (objs w1))
           | _ => w1
           end [Callback err]
       else
         with_events (with_new_error w1 stack_type_error)
                     [Unhandled (next_obj w1)]
   | Some (Rejected e) =>
       with_events w1
         [ConsoleLog (lit "nemo-screenshot encountered some error.") (Some e);
          Callback (EObj e)]
   | _ => w1
   end).
Proof.
  intros Hsnap. unfold done. unfold bind at 1. rewrite Hsnap.
  unfold bind at 1. rewrite await_run.
  destruct (cells w1 !! pr) as [[|v|e]|]; try reflexivity.
  - unfold bind, then_. destruct (annotatable err) eqn:E.
    + rewrite appendImageUrlToStackTrace_run by exact E.
      destruct err; reflexivity.
    + rewrite appendImageUrlToStackTrace_throws by exact E.
      unfold drop_promise, emit_event, with_events. reflexivity.
  - unfold bind, then_, callback, emit_event, drop_promise, ret, with_events.
    simpl. now rewrite <- app_assoc.
Qed.

(** Both branches occur: on the sample host [snap] is fulfilled, on a host
    whose writes fail it is rejected. *)
Example done_after_success :
  exists w2,
    done sample_host (lit "shot") (EObj 0%nat) (world_with boom) = (Ret tt, w2) /\
    callbacks (trace w2) = [EObj 0%nat] /\
    objs w2 !! 0%nat =
      Some (ErrObj (lit "boom")
              (Some (lit "Error: boom" ++ nl
                       ++ lit "nemo-screenshot (workspace): http://ci/job/myjob/ws/report/shot.png"
                       ++ nl))
              false).
Proof. eexists. split; [vm_compute; reflexivity|]. split; reflexivity. Qed.

Example done_after_failure :
  exists w2,
    done host_write_fails (lit "shot") (EObj 1%nat)
         (world_with_two boom assertion_failed) = (Ret tt, w2) /\
    callbacks (trace w2) = [EObj 0%nat] /\
    objs w2 = objs (world_with_two boom assertion_failed).
Proof. eexists. split; [vm_compute; reflexivity|]. split; reflexivity. Qed.

(** C10. When [done] is given a falsy error ([undefined] or [null]) and
    [snap] is fulfilled, the annotation step changes nothing (no property
    of the missing error object is read or written), [done] does not throw,
    and all it adds to the world is one call of the callback with that
    falsy value. *)
Theorem done_with_falsy_error (h : host) (filename : jsstring) (err : errarg)
    (w : world) (pr : nat) (w1 : world) (v : capture) :
  err = EUndefined \/ err = ENull ->
  snap h filename w = (Ret pr, w1) ->
  cells w1 !! pr = Some (Fulfilled v) ->
  appendImageUrlToStackTrace h v err w1 = (Ret tt, w1) /\
  done h filename err w = (Ret tt, with_events w1 [Callback err]) /\
  callbacks (trace (with_events w1 [Callback err]))
  = callbacks (trace w) ++ [err].
Proof.
  intros Herr Hsnap Hcell.
  destruct (appends_snap h filename _ _ _ Hsnap) as [evs [Htr Hio]].
  split; [|split].
  - destruct Herr; subst; reflexivity.
  - rewrite (done_run h filename err w pr w1 Hsnap), Hcell.
    destruct Herr; subst; reflexivity.
  - simpl. rewrite callbacks_app, Htr, callbacks_app.
    rewrite (callbacks_capture_io evs) by assumption.
    now rewrite app_nil_r.
Qed.

Lemma done_with_falsy_error_witness :
  exists w1 v,
    appendImageUrlToStackTrace sample_host v ENull w1 = (Ret tt, w1) /\
    done sample_host (lit "shot") ENull empty_world
      = (Ret tt, with_events w1 [Callback ENull]) /\
    callbacks (trace (with_events w1 [Callback ENull]))
    = callbacks (trace empty_world) ++ [ENull].
Proof.
  eexists _, _.
  eapply (done_with_falsy_error sample_host (lit "shot") ENull empty_world).
  - right. reflexivity.
  - vm_compute. reflexivity.
  - vm_compute. reflexivity.
Defined.

(** ** [source] *)

Lemma keeps_cells_ret {A} (a : A) : keeps_cells (ret a).
Proof. intros w r w' H. now injection H as <- <-. Qed.

Lemma keeps_cells_emit_event (ev : event) : keeps_cells (emit_event ev).
Proof. intros w r w' H. now injection H as <- <-. Qed.

Lemma keeps_cells_bind {A B} (m : M A) (k : A -> M B) :
  keeps_cells m -> (forall a, keeps_cells (k a)) -> keeps_cells (bind m k).
Proof.
  intros Hm Hk w r w' H. unfold bind in H.
  destruct (m w) as [[a|e] w1] eqn:E.
  - destruct (Hm _ _ _ E) as [H1 H2].
    destruct (Hk a _ _ _ H) as [H3 H4]. split; congruence.
  - injection H as <- <-. exact (Hm _ _ _ E).
Qed.

Lemma keeps_cells_then {A B} (o : outcome A) (f : A -> M B) :
  (forall a, keeps_cells (f a)) -> keeps_cells (then_ o f None).
Proof.
  intros Hf w r w' H. unfold then_ in H. destruct o as [a|e|].
  - destruct (f a w) as [[b|e'] w1] eqn:E; injection H as <- <-;
      exact (Hf _ _ _ _ E).
  - now injection H as <- <-.
  - now injection H as <- <-.
Qed.

Lemma keeps_cells_drop_promise {A} (o : outcome A) :
  keeps_cells (drop_promise o).
Proof.
  destruct o; simpl;
    auto using keeps_cells_ret, keeps_cells_emit_event.
Qed.

Lemma side_channel_keeps_cells (h : host) (filename : jsstring)
    (script : outcome jsstring) :
  keeps_cells (side_channel h filename script).
Proof.
  apply keeps_cells_then. intros bin. unfold fs_writeFile.
  apply keeps_cells_bind; [apply keeps_cells_emit_event|]. intros _.
  destruct (writeFile h (invisinode_path h filename)).
  - apply keeps_cells_emit_event.
  - apply keeps_cells_bind; [|intros w0; apply keeps_cells_bind].
    + intros w r w' H. now injection H as <- <-.
    + intros w r w' H. now injection H as <- <-.
    + intros _. apply keeps_cells_ret.
Qed.

(** The promise of [source] settles by the page-source retrieval and the
    write of the [.html] file alone, whatever the side channel does. *)
Lemma source_settles_by_page_source (h : host) (filename : jsstring)
    (w : world) :
  exists pr w',
    source h filename w = (Ret pr, w') /\
    cells w' !! pr = Some (source_state h filename).
Proof.
  unfold source, source_state.
  destruct (p_returns h w) as [d [c [n [Hp [Hc [Hf Hr]]]]]].
  unfold bind at 1. rewrite Hp. run_monad.
  destruct (session_truthy (getSession h)); simpl.
  - match goal with
    | |- context [side_channel h filename (executeScript h) ?w0] =>
        destruct (total_then (executeScript h)
                    (fun bin => fs_writeFile h (invisinode_path h filename) bin Utf8
                       (fun err => match err with
                                   | Some e => emit_event (ConsoleError e)
                                   | None => ret tt
                                   end)) None w0) as [side [w1 Hside]];
        pose proof (side_channel_keeps_cells h filename (executeScript h)
                      w0 _ _ Hside) as [Hc1 Hn1]
    end.
    fold (side_channel h filename (executeScript h)) in Hside.
    rewrite Hside. simpl in Hc1, Hn1.
    destruct (drop_promise side w1) as [r2 w2] eqn:Hdrop.
    pose proof (keeps_cells_drop_promise side _ _ _ Hdrop) as [Hc2 Hn2].
    destruct (total_drop_promise side w1) as [u [w2' Hd']].
    rewrite Hdrop in Hd'. injection Hd' as -> <-.
    destruct w2 as [c2 n2 o2 no2 f2 t2 tr2]. simpl in Hc2, Hn2.
    rewrite Hc1 in Hc2. subst c2. clear Hdrop Hside.
    destruct (getPageSource h) as [src|e|]; unfold then_; simpl.
    + unfold mkdirp. run_monad.
      destruct (mkdirp_sync h (Path.dirname (source_path h filename))).
      * run_monad. eexists _, _. split; [reflexivity|]. simpl.
        exact Hc.
      * unfold fs_writeFile. run_monad.
        destruct (writeFile h (source_path h filename)).
        -- rewrite call_reject_pending by (simpl; now rewrite Hr).
           simpl. eexists _, _. split; [reflexivity|]. simpl.
           now rewrite Hr, lookup_insert_eq.
        -- rewrite call_fulfill_pending by (simpl; now rewrite Hf).
           simpl. eexists _, _. split; [reflexivity|]. simpl.
           now rewrite Hf, lookup_insert_eq.
    + rewrite call_reject_pending by (simpl; now rewrite Hr).
      simpl. eexists _, _. split; [reflexivity|]. simpl.
      now rewrite Hr, lookup_insert_eq.
    + eexists _, _. split; [reflexivity|]. simpl. exact Hc.
  - rewrite call_fulfill_pending by (simpl; now rewrite Hf).
    simpl. eexists _, _. split; [reflexivity|]. simpl.
    now rewrite Hf, lookup_insert_eq.
Qed.

(** For every host: a script that fails leaves a rejection without a
    handler, and from then on [source] writes nothing to the console. *)
Lemma source_script_failure_unhandled (h : host) (filename : jsstring)
    (w : world) (e : ref) :
  session_truthy (getSession h) = true ->
  executeScript h = Failed e ->
  exists pr w' evs,
    source h filename w = (Ret pr, w') /\
    trace w' =
      trace w ++ DriverCmd GetSession :: DriverCmd ExecuteScript
              :: Unhandled e :: DriverCmd GetPageSource :: evs /\
    Forall (fun ev => is_log_event ev = false) evs.
Proof.
  intros Hs Hscript. unfold source.
  destruct (p_returns h w) as [d [c [n [Hp _]]]].
  unfold bind at 1. rewrite Hp. run_monad. rewrite Hs, Hscript. simpl.
  match goal with
  | |- context [then_ ?o ?f ?g ?w0] =>
      destruct (total_then o f g w0) as [chained [w1 Hthen]];
      assert (Happ : appends (fun ev => is_log_event ev = false) (then_ o f g))
  end.
  { apply appends_then.
    - intros src. unfold mkdirp, fs_writeFile.
      repeat first
        [ apply appends_bind; [|intros ?]
        | apply appends_emit_event; reflexivity
        | apply appends_call_fulfill | apply appends_call_reject
        | apply appends_ret | apply appends_throw
        | apply appends_get_world | apply appends_set_files
        | match goal with
          | |- context [match ?x with _ => _ end] => destruct x
          end ].
    - intros k e' [= <-]. apply appends_call_reject. }
  destruct (Happ _ _ _ Hthen) as [ev1 [Ht1 F1]]. rewrite Hthen.
  destruct chained as [u|e'|]; simpl.
  - eexists _, _, ev1. split; [reflexivity|]. split; [|exact F1].
    rewrite Ht1. simpl. rewrite <- !app_assoc. reflexivity.
  - eexists _, _, (ev1 ++ [Unhandled e']). split; [reflexivity|].
    split; [|apply Forall_app; split; [exact F1 | now repeat constructor]].
    simpl. rewrite Ht1. simpl. rewrite <- !app_assoc. reflexivity.
  - eexists _, _, ev1. split; [reflexivity|]. split; [|exact F1].
    rewrite Ht1. simpl. rewrite <- !app_assoc. reflexivity.
Qed.

(** C8, at the failing input.  When the script fails, [source] writes
    nothing to the console: the rejection of the side channel has no
    handler and nothing is logged.  The promise of [source] is fulfilled
    all the same. *)
Theorem source_script_failure_not_logged :
  exists pr w',
    source host_script_fails (lit "page") (world_with boom) = (Ret pr, w') /\
    trace w' =
      [DriverCmd GetSession; DriverCmd ExecuteScript; Unhandled 0%nat;
       DriverCmd GetPageSource; Mkdirp (lit "/w/report");
       WriteFile (lit "/w/report/page.html") (lit "<html></html>") Utf8] /\
    List.filter is_log_event (trace w') = [] /\
    cells w' !! pr =
      Some (Fulfilled (VSource (SourceObj (lit "page.html")
                                          (lit "/w/report/page.html")))).
Proof.
  eexists _, _. split; [vm_compute; reflexivity|].
  split; [reflexivity|]. split; reflexivity.
Qed.

(** The sibling path: a failed write of the [.txt] file is logged with
    [console.error]. *)
Example source_txt_write_failure_logged :
  exists pr w',
    source host_txt_write_fails (lit "page") (world_with boom) = (Ret pr, w') /\
    List.filter is_log_event (trace w') = [ConsoleError 0%nat] /\
    cells w' !! pr =
      Some (Fulfilled (VSource (SourceObj (lit "page.html")
                                          (lit "/w/report/page.html")))).
Proof.
  eexists _, _. split; [vm_compute; reflexivity|]. split; reflexivity.
Qed.

(** ** The uncaught-exception hook *)

Lemma get_handled_run (r : ref) (o : errobj) (w : world) :
  objs w !! r = Some o ->
  get_handled r w = (Ret (_nemoScreenshotHandled o), w).
Proof. intros H. unfold get_handled, bind, get_world, ret. now rewrite H. Qed.

(** * Further properties *)

(** ** The slug *)

Lemma word_not_space (c : N) : is_word c = true -> is_space c = false.
Proof.
  unfold is_word, is_space. intros H.
  assert (Hr : 48 <= c /\ c <= 122).
  { repeat (apply orb_prop in H as [H|H]);
      try (apply andb_prop in H as [H1 H2];
           apply N.leb_le in H1, H2);
      try apply N.eqb_eq in H; lia. }
  destruct Hr as [Hlo Hhi].
  repeat (apply orb_false_intro);
    try (apply andb_false_intro2; apply N.leb_gt; lia);
    try (apply andb_false_intro1; apply N.leb_gt; lia);
    apply N.eqb_neq; lia.
Qed.

Lemma trimStart_no_space (s : jsstring) :
  forallb (fun c => negb (is_space c)) s = true -> trimStart s = s.
Proof.
  destruct s as [|c s]; [reflexivity|]. simpl.
  destruct (is_space c); [discriminate | reflexivity].
Qed.

Lemma trim_no_space (s : jsstring) :
  forallb (fun c => negb (is_space c)) s = true -> trim s = s.
Proof.
  intros H. unfold trim, trimEnd. rewrite (trimStart_no_space s H).
  rewrite trimStart_no_space; [apply rev_involutive|].
  rewrite forallb_forall in *. intros x Hx. apply H. now apply in_rev.
Qed.

Lemma replace_nonword_words (s : jsstring) :
  forallb is_word s = true -> replace_nonword s = s.
Proof.
  induction s as [|c s IH]; [reflexivity|]. simpl.
  intros H. apply andb_prop in H as [Hc Hs]. now rewrite Hc, IH.
Qed.

Lemma titleSlug_words (title : jsstring) :
  forallb is_word (titleSlug title) = true /\
  (length (titleSlug title) <= 251)%nat.
Proof.
  rewrite titleSlug_unfold. split.
  - apply forallb_forall. intros x Hx. apply list_elem_of_In in Hx.
    apply elem_of_take in Hx as [i [Hx _]]. unfold replace_nonword in Hx.
    rewrite lookup_map_list in Hx.
    destruct (trim title !! i) as [c0|]; [|discriminate].
    simpl in Hx. injection Hx as <-. apply replace_nonword_word.
  - rewrite length_take. lia.
Qed.

(** X1. Slugging is idempotent: a slug is made of word characters only and
    is at most 251 code units long, so slugging it again changes nothing. *)
Theorem titleSlug_idempotent (title : jsstring) :
  titleSlug (titleSlug title) = titleSlug title.
Proof.
  destruct (titleSlug_words title) as [Hw Hl].
  rewrite (titleSlug_unfold (titleSlug title)).
  rewrite trim_no_space.
  - rewrite replace_nonword_words by exact Hw. now apply take_ge.
  - rewrite forallb_forall in *. intros x Hx.
    now rewrite (word_not_space x (Hw x Hx)).
Qed.

(** ** Where the captures of the exception hook are written *)

Module PathExt.
Import Path PathFacts.

Section Extension.

(** A file extension: no slash in it, and at least three code units. *)
Variable ext : jsstring.
Hypothesis ext_slashfree : slashfree ext.
Hypothesis ext_length : (3 <= length ext)%nat.

Lemma endsWithSlash_ext (a : jsstring) : endsWithSlash (a ++ ext) = false.
Proof.
  unfold endsWithSlash. rewrite rev_app_distr.
  destruct (rev ext) as [|c r] eqn:E.
  - apply (f_equal (@length N)) in E. rewrite length_rev in E.
    simpl in E. lia.
  - simpl. apply N.eqb_neq.
    assert (Hin : c ∈ ext).
    { apply list_elem_of_In, in_rev. rewrite E. now left. }
    unfold slashfree in ext_slashfree.
    rewrite Forall_forall in ext_slashfree. now apply ext_slashfree.
Qed.

Lemma ext_segments_kept (f : jsstring) :
  List.filter keepb (split (f ++ ext)) <> [].
Proof.
  destruct (split_app_last f ext ext_slashfree) as [init [l E]].
  rewrite E, List.filter_app. intros H. apply app_eq_nil in H as [_ H].
  simpl in H. unfold keepb in H.
  rewrite !bool_decide_eq_false_2 in H; [discriminate| |];
    intros Hd; apply (f_equal (@length N)) in Hd;
    rewrite length_app in Hd; simpl in Hd; lia.
Qed.

Lemma slashfree_single_segment (f : jsstring) :
  slashfree f -> Forall (fun seg => seg <> dotdot) (split (f ++ ext)).
Proof.
  intros Hf. rewrite split_slashfree.
  - constructor; [|constructor]. intros Hd.
    apply (f_equal (@length N)) in Hd. rewrite length_app in Hd.
    simpl in Hd. lia.
  - unfold slashfree. apply Forall_app. split; assumption.
Qed.

Lemma join_lies_under_ext (ns : list jsstring) (f : jsstring) :
  Forall clean ns ->
  Forall (fun seg => seg <> dotdot) (split (f ++ ext)) ->
  lies_under (slash :: join_segs ns) (join (slash :: join_segs ns) (f ++ ext)).
Proof.
  intros Hns Hname.
  set (rest := List.filter keepb (split (f ++ ext))).
  assert (Hrest : rest <> []) by apply ext_segments_kept.
  assert (Hrest' : Forall (fun seg => seg <> []) rest)
    by apply filter_keepb_nonempty.
  assert (Hns' : Forall (fun seg => seg <> []) ns).
  { eapply Forall_impl; [exact Hns|]. now intros ? [[? _] _]. }
  assert (Hne : f ++ ext <> []).
  { intros H. apply (f_equal (@length N)) in H. rewrite length_app in H.
    simpl in H. lia. }
  assert (Hjoin : join (slash :: join_segs ns) (f ++ ext)
                  = slash :: join_segs (ns ++ rest)).
  { rewrite join_nonempty by (assumption || discriminate).
    change ((slash :: join_segs ns) ++ slash :: f ++ ext)
      with (slash :: join_segs ns ++ slash :: f ++ ext).
    unfold normalize, normalizeString.
    rewrite normalize_segs_under by assumption. fold rest.
    assert (Htr : endsWithSlash (slash :: join_segs ns ++ slash :: f ++ ext)
                  = false).
    { replace (slash :: join_segs ns ++ slash :: f ++ ext)
        with ((slash :: join_segs ns ++ slash :: f) ++ ext).
      - apply endsWithSlash_ext.
      - simpl. now rewrite <- app_assoc. }
    rewrite Htr. simpl isAbsolute. simpl negb.
    assert (Hb : join_segs (ns ++ rest) <> []).
    { apply join_segs_nonempty; [|now apply Forall_app].
      intros H. apply app_eq_nil in H as [_ H]. contradiction. }
    destruct (join_segs (ns ++ rest)) eqn:Ej; [congruence | reflexivity]. }
  rewrite Hjoin. unfold lies_under. exists (join_segs rest).
  split; [now apply join_segs_nonempty|].
  destruct ns as [|seg ns'] eqn:E.
  - reflexivity.
  - rewrite <- E in *.
    assert (Hd : join_segs ns <> []).
    { apply join_segs_nonempty; [subst; discriminate | assumption]. }
    rewrite bool_decide_eq_false_2.
    + rewrite join_segs_app by (assumption || (subst; discriminate)).
      simpl. now rewrite <- app_assoc.
    + intros H. injection H as H. contradiction.
Qed.

(** A file name without a slash is written directly under the resolved
    base directory. *)
Lemma capture_path_lies_under (h : host) (f : jsstring) :
  isAbsolute (cwd h) = true ->
  slashfree f ->
  lies_under (resolve (cwd h) (screenShotPath h)) (capture_path h f ext).
Proof.
  intros Hcwd Hf. unfold capture_path.
  destruct (resolve_shape (cwd h) (screenShotPath h) Hcwd) as [ns [Hns ->]].
  apply join_lies_under_ext; [exact Hns|].
  now apply slashfree_single_segment.
Qed.

End Extension.

Lemma digits_slashfree (u : Decimal.uint) : slashfree (digits u).
Proof.
  induction u; simpl; constructor; try assumption; discriminate.
Qed.

Lemma words_slashfree (s : jsstring) :
  forallb is_word s = true -> slashfree s.
Proof.
  intros H. apply Forall_forall. intros c Hc Heq. subst c.
  rewrite forallb_forall in H. apply list_elem_of_In in Hc.
  specialize (H _ Hc). discriminate.
Qed.

Lemma exception_filename_slashfree (h : host) (title : option jsstring) :
  slashfree (exception_filename h title).
Proof.
  unfold exception_filename. destruct (truthy title).
  - apply words_slashfree, titleSlug_words.
  - unfold decimal, slashfree. rewrite !Forall_app.
    repeat split; try apply digits_slashfree;
      repeat constructor; discriminate.
Qed.

End PathExt.

(** X2. Whatever the current test title is (set or not, with slashes, dots
    or any other character), the three files of an exception capture, the
    [.png], the [.html] and the [.txt], are written under the resolved base
    directory: the file name the hook makes has no slash. *)
Theorem exception_captures_stay_under_base (h : host)
    (title : option jsstring) :
  Path.isAbsolute (cwd h) = true ->
  let base := Path.resolve (cwd h) (screenShotPath h) in
  let filename := exception_filename h title in
  Path.lies_under base (snap_path h filename) /\
  Path.lies_under base (source_path h filename) /\
  Path.lies_under base (invisinode_path h filename).
Proof.
  intros Hcwd base filename.
  pose proof (PathExt.exception_filename_slashfree h title) as Hf.
  unfold snap_path, source_path, invisinode_path.
  repeat split; apply PathExt.capture_path_lies_under;
    try assumption; try (simpl; lia);
    repeat constructor; discriminate.
Qed.

Lemma exception_captures_stay_under_base_witness :
  let base := Path.resolve (cwd sample_host) (screenShotPath sample_host) in
  let filename := exception_filename sample_host (Some (lit "../../etc/passwd")) in
  Path.lies_under base (snap_path sample_host filename) /\
  Path.lies_under base (source_path sample_host filename) /\
  Path.lies_under base (invisinode_path sample_host filename).
Proof.
  apply (exception_captures_stay_under_base sample_host
           (Some (lit "../../etc/passwd"))).
  reflexivity.
Defined.

(** ** [source]: the primary chain *)

(** With a session [source] runs its side channel and then its primary
    chain; the side channel leaves the promise pending and the error
    objects alone, and adds only capture events. *)
Lemma source_splits (h : host) (filename : jsstring) (w : world) :
  session_truthy (getSession h) = true ->
  exists d w2 evs,
    source h filename w = source_page_chain h filename d w2 /\
    cells w2 !! promise d = Some Pending /\
    resolver_cell (fulfill d) = promise d /\
    rejecter_cell (reject d) = promise d /\
    objs w2 = objs w /\
    trace w2 =
      trace w ++ DriverCmd GetSession :: DriverCmd ExecuteScript :: evs /\
    Forall (fun ev => capture_io ev /\ ev <> DriverCmd GetPageSource) evs /\
    (forall path, path <> invisinode_path h filename ->
                  files w2 !! path = files w !! path).
Proof.
  intros Hs. unfold source.
  destruct (p_returns h w) as [d [c [n [Hp [Hc [Hf Hr]]]]]].
  unfold bind at 1. rewrite Hp.
  unfold bind at 1, driver_getSession at 1, bind at 1, emit_event at 1, ret at 1.
  rewrite Hs. cbn [negb].
  unfold bind at 1, driver_executeScript at 1, bind at 1, emit_event at 1, ret at 1.
  cbn [with_cells cells next_cell objs next_obj files currentTestTitle trace].
  match goal with
  | |- context [bind (side_channel h filename (executeScript h)) _ ?w0] =>
      set (w0' := w0)
  end.
  assert (Hside : exists side w1 ev1,
             side_channel h filename (executeScript h) w0' = (Ret side, w1) /\
             cells w1 = c /\ objs w1 = objs w /\
             trace w1 = trace w0' ++ ev1 /\
             Forall (fun ev => capture_io ev /\ ev <> DriverCmd GetPageSource)
                    ev1 /\
             (forall path, path <> invisinode_path h filename ->
                           files w1 !! path = files w !! path)).
  { unfold side_channel, then_, fs_writeFile.
    destruct (executeScript h) as [bin|e|].
    - unfold bind, emit_event, get_world, set_files, ret.
      destruct (writeFile h (invisinode_path h filename)); simpl.
      + eexists _, _, [_; _]. split; [reflexivity|]. simpl.
        rewrite <- app_assoc. repeat split; try reflexivity.
        repeat constructor; discriminate.
      + eexists _, _, [_]. split; [reflexivity|]. simpl.
        repeat split; try reflexivity.
        * repeat constructor; discriminate.
        * intros path Hne. now rewrite lookup_insert_ne.
    - eexists _, _, []. split; [reflexivity|]. simpl.
      rewrite app_nil_r. repeat split; try reflexivity. constructor.
    - eexists _, _, []. split; [reflexivity|]. simpl.
      rewrite app_nil_r. repeat split; try reflexivity. constructor. }
  destruct Hside as [side [w1 [ev1 [Hside [Hc1 [Ho1 [Ht1 [F1 Hfl1]]]]]]]].
  unfold bind at 1. rewrite Hside.
  assert (Hdrop : exists w2 ev2,
             drop_promise side w1 = (Ret tt, w2) /\ cells w2 = c /\
             objs w2 = objs w /\ trace w2 = trace w1 ++ ev2 /\
             Forall (fun ev => capture_io ev /\ ev <> DriverCmd GetPageSource)
                    ev2 /\
             files w2 = files w1).
  { destruct side as [u|e|]; simpl.
    - exists w1, []. rewrite app_nil_r. repeat split; try assumption. constructor.
    - eexists _, [_]. split; [reflexivity|]. simpl.
      repeat split; try assumption. repeat constructor; discriminate.
    - exists w1, []. rewrite app_nil_r. repeat split; try assumption. constructor. }
  destruct Hdrop as [w2 [ev2 [Hdrop [Hc2 [Ho2 [Ht2 [F2 Hfl2]]]]]]].
  unfold bind at 1. rewrite Hdrop.
  exists d, w2, (ev1 ++ ev2). split; [reflexivity|].
  rewrite Hc2. repeat split; try assumption.
  - rewrite Ht2, Ht1. subst w0'. simpl. rewrite <- !app_assoc. reflexivity.
  - now apply Forall_app.
  - intros path Hne. rewrite Hfl2. now apply Hfl1.
Qed.

Section PageChain.

Variables (h : host) (filename : jsstring) (d : deferred) (w : world).
Hypothesis pending : cells w !! promise d = Some Pending.
Hypothesis fulfill_cell : resolver_cell (fulfill d) = promise d.
Hypothesis reject_cell : rejecter_cell (reject d) = promise d.

Lemma page_chain_retrieval_fails (e : ref) :
  getPageSource h = Failed e ->
  exists w',
    source_page_chain h filename d w = (Ret (promise d), w') /\
    cells w' !! promise d = Some (Rejected e) /\
    objs w' = objs w /\ files w' = files w /\
    trace w' = trace w ++ [DriverCmd GetPageSource].
Proof.
  intros Hpage. unfold source_page_chain. run_monad. rewrite Hpage.
  unfold then_.
  rewrite call_reject_pending by (simpl; now rewrite reject_cell).
  simpl. eexists. split; [reflexivity|]. simpl.
  rewrite reject_cell, lookup_insert_eq. repeat split; reflexivity.
Qed.

Lemma page_chain_directory_fails (src : jsstring) (e : ref) :
  getPageSource h = Resolved src ->
  mkdirp_sync h (Path.dirname (source_path h filename)) = Some e ->
  exists w',
    source_page_chain h filename d w = (Ret (promise d), w') /\
    cells w' !! promise d = Some Pending /\
    objs w' = objs w /\ files w' = files w /\
    trace w' =
      trace w ++ [DriverCmd GetPageSource;
                  Mkdirp (Path.dirname (source_path h filename));
                  Unhandled e].
Proof.
  intros Hpage Hmk. unfold source_page_chain. run_monad. rewrite Hpage.
  unfold then_, mkdirp. run_monad. rewrite Hmk. run_monad.
  eexists. split; [reflexivity|]. simpl.
  rewrite <- !app_assoc. repeat split; try reflexivity. exact pending.
Qed.

Lemma page_chain_write_fails (src : jsstring) (e : ref) :
  getPageSource h = Resolved src ->
  mkdirp_sync h (Path.dirname (source_path h filename)) = None ->
  writeFile h (source_path h filename) = Some e ->
  exists w',
    source_page_chain h filename d w = (Ret (promise d), w') /\
    cells w' !! promise d = Some (Rejected e) /\
    objs w' = objs w /\ files w' = files w /\
    trace w' =
      trace w ++ [DriverCmd GetPageSource;
                  Mkdirp (Path.dirname (source_path h filename));
                  WriteFile (source_path h filename) src Utf8].
Proof.
  intros Hpage Hmk Hwr. unfold source_page_chain. run_monad. rewrite Hpage.
  unfold then_, mkdirp. run_monad. rewrite Hmk.
  unfold fs_writeFile. run_monad. rewrite Hwr.
  rewrite call_reject_pending by (simpl; now rewrite reject_cell).
  simpl. eexists. split; [reflexivity|]. simpl.
  rewrite reject_cell, lookup_insert_eq, <- !app_assoc.
  repeat split; reflexivity.
Qed.

Lemma page_chain_written (src : jsstring) :
  getPageSource h = Resolved src ->
  mkdirp_sync h (Path.dirname (source_path h filename)) = None ->
  writeFile h (source_path h filename) = None ->
  exists w',
    source_page_chain h filename d w = (Ret (promise d), w') /\
    cells w' !! promise d =
      Some (Fulfilled (VSource (SourceObj (filename ++ lit ".html")
                                          (source_path h filename)))) /\
    objs w' = objs w /\
    files w' = <[source_path h filename := (src, Utf8)]> (files w) /\
    trace w' =
      trace w ++ [DriverCmd GetPageSource;
                  Mkdirp (Path.dirname (source_path h filename));
                  WriteFile (source_path h filename) src Utf8].
Proof.
  intros Hpage Hmk Hwr. unfold source_page_chain. run_monad. rewrite Hpage.
  unfold then_, mkdirp. run_monad. rewrite Hmk.
  unfold fs_writeFile. run_monad. rewrite Hwr.
  rewrite call_fulfill_pending by (simpl; now rewrite fulfill_cell).
  simpl. eexists. split; [reflexivity|]. simpl.
  rewrite fulfill_cell, lookup_insert_eq, <- !app_assoc.
  repeat split; reflexivity.
Qed.

End PageChain.

(** X3. Without a live session [source] fulfils its promise with [true]
    and does nothing else: no script is run, no page source is asked for,
    no file is written.  The only call is the session query. *)
Theorem source_without_session (h : host) (filename : jsstring) (w : world) :
  session_truthy (getSession h) = false ->
  exists pr w',
    source h filename w = (Ret pr, w') /\
    cells w' !! pr = Some (Fulfilled VTrue) /\
    files w' = files w /\
    objs w' = objs w /\
    trace w' = trace w ++ [DriverCmd GetSession].
Proof.
  intros Hs. unfold source.
  destruct (p_returns h w) as [d [c [n [Hp [Hc [Hf Hr]]]]]].
  unfold bind at 1. rewrite Hp. run_monad. rewrite Hs. simpl.
  rewrite call_fulfill_pending by (simpl; now rewrite Hf).
  simpl. eexists _, _. split; [reflexivity|]. simpl.
  rewrite Hf, lookup_insert_eq. repeat split.
Qed.

Lemma source_without_session_witness :
  exists pr w',
    source host_without_session (lit "teardown") empty_world = (Ret pr, w') /\
    cells w' !! pr = Some (Fulfilled VTrue) /\
    files w' = files empty_world /\
    objs w' = objs empty_world /\
    trace w' = trace empty_world ++ [DriverCmd GetSession].
Proof.
  apply (source_without_session host_without_session (lit "teardown")
           empty_world).
  reflexivity.
Defined.

(** X4. With a live session, a page source delivered by the driver and a
    successful write, [source] fulfils its promise with
    [{sourceName: f + ".html", sourcePath}], where [sourcePath] is
    [path.join(path.resolve(screenShotPath), f + ".html")], and the file at
    that path holds the page source as text.  This holds whatever the
    side channel does: the script may fail, the [.txt] write may fail. *)
Theorem source_writes_html (h : host) (filename src : jsstring) (w : world) :
  session_truthy (getSession h) = true ->
  getPageSource h = Resolved src ->
  mkdirp_sync h (Path.dirname (source_path h filename)) = None ->
  writeFile h (source_path h filename) = None ->
  exists pr w' o,
    source h filename w = (Ret pr, w') /\
    cells w' !! pr = Some (Fulfilled (VSource o)) /\
    sourceName o = filename ++ lit ".html" /\
    sourcePath o =
      Path.join (Path.resolve (cwd h) (screenShotPath h)) (sourceName o) /\
    files w' !! sourcePath o = Some (src, Utf8) /\
    objs w' = objs w.
Proof.
  intros Hs Hpage Hmk Hwr.
  destruct (source_splits h filename w Hs)
    as (d & w2 & evs & Hsplit & Hpend & Hf & Hr & Hobjs & _).
  destruct (page_chain_written h filename d w2 Hpend Hf src Hpage Hmk Hwr)
    as (w' & Hrun & Hcell & Hobjs' & Hfiles & _).
  eexists (promise d), w', _. rewrite Hsplit.
  split; [exact Hrun|]. split; [exact Hcell|]. simpl.
  split; [reflexivity|]. split; [reflexivity|].
  split; [rewrite Hfiles; apply lookup_insert_eq | congruence].
Qed.

Lemma source_writes_html_witness :
  exists pr w' o,
    source host_script_fails (lit "page") (world_with boom) = (Ret pr, w') /\
    cells w' !! pr = Some (Fulfilled (VSource o)) /\
    sourceName o = lit "page" ++ lit ".html" /\
    sourcePath o =
      Path.join (Path.resolve (cwd host_script_fails)
                              (screenShotPath host_script_fails))
                (sourceName o) /\
    files w' !! sourcePath o = Some (lit "<html></html>", Utf8) /\
    objs w' = objs (world_with boom).
Proof.
  apply (source_writes_html host_script_fails (lit "page")
           (lit "<html></html>") (world_with boom)); reflexivity.
Defined.

(** X5. When the driver fails to deliver the page source, or delivers it
    and the write of the [.html] file fails, the promise of [source] is
    rejected with that very error reference, and no error object is
    modified. *)
Theorem source_rejects_with_the_error (h : host) (filename : jsstring)
    (w : world) (e : ref) :
  session_truthy (getSession h) = true ->
  getPageSource h = Failed e \/
  (exists src,
      getPageSource h = Resolved src /\
      mkdirp_sync h (Path.dirname (source_path h filename)) = None /\
      writeFile h (source_path h filename) = Some e) ->
  exists pr w',
    source h filename w = (Ret pr, w') /\
    cells w' !! pr = Some (Rejected e) /\
    objs w' = objs w.
Proof.
  intros Hs Hfail.
  destruct (source_splits h filename w Hs)
    as (d & w2 & evs & Hsplit & Hpend & Hf & Hr & Hobjs & _).
  rewrite Hsplit.
  destruct Hfail as [Hpage | [src [Hpage [Hmk Hwr]]]].
  - destruct (page_chain_retrieval_fails h filename d w2 Hpend Hr e Hpage)
      as (w' & Hrun & Hcell & Hobjs' & _).
    exists (promise d), w'. repeat split; congruence.
  - destruct (page_chain_write_fails h filename d w2 Hpend Hr src e
                Hpage Hmk Hwr) as (w' & Hrun & Hcell & Hobjs' & _).
    exists (promise d), w'. repeat split; congruence.
Qed.

Lemma source_rejects_with_the_error_witness :
  (exists pr w',
      source host_page_source_fails (lit "page") (world_with boom)
        = (Ret pr, w') /\
      cells w' !! pr = Some (Rejected 0%nat) /\
      objs w' = objs (world_with boom)) /\
  (exists pr w',
      source host_write_fails (lit "page") (world_with boom) = (Ret pr, w') /\
      cells w' !! pr = Some (Rejected 0%nat) /\
      objs w' = objs (world_with boom)).
Proof.
  split.
  - apply (source_rejects_with_the_error host_page_source_fails (lit "page")
             (world_with boom) 0%nat); [reflexivity|].
    left. reflexivity.
  - apply (source_rejects_with_the_error host_write_fails (lit "page")
             (world_with boom) 0%nat); [reflexivity|].
    right. exists (lit "<html></html>"). repeat split; reflexivity.
Defined.

(** ** A directory that cannot be created *)

Lemma snap_directory_failure_run (h : host) (filename img : jsstring)
    (w : world) (e : ref) :
  session_truthy (getSession h) = true ->
  takeScreenshot h = Resolved img ->
  mkdirp_sync h (Path.dirname (snap_path h filename)) = Some e ->
  exists pr w',
    snap h filename w = (Ret pr, w') /\
    cells w' !! pr = Some Pending /\
    files w' = files w /\ objs w' = objs w /\
    trace w' =
      trace w ++ [DriverCmd GetSession; DriverCmd TakeScreenshot;
                  Mkdirp (Path.dirname (snap_path h filename)); Unhandled e].
Proof.
  intros Hs Hshot Hmk. unfold snap.
  destruct (p_returns h w) as [d [c [n [Hp [Hc [Hf Hr]]]]]].
  unfold bind at 1. rewrite Hp. run_monad. rewrite Hs, Hshot. simpl.
  unfold then_, mkdirp. run_monad. rewrite Hmk. run_monad.
  eexists _, _. split; [reflexivity|]. simpl.
  rewrite <- !app_assoc. repeat split; try reflexivity. exact Hc.
Qed.

(** X6. When [mkdirp.sync] throws inside the continuation, neither [snap]
    nor [source] settles its promise: it stays pending for ever, the write
    of the file is never attempted, and the error of the directory
    creation is left as a rejection without a handler. *)
Theorem directory_failure_leaves_promise_pending (h : host)
    (filename : jsstring) (w : world) (e : ref) :
  session_truthy (getSession h) = true ->
  (forall img,
      takeScreenshot h = Resolved img ->
      mkdirp_sync h (Path.dirname (snap_path h filename)) = Some e ->
      exists pr w',
        snap h filename w = (Ret pr, w') /\
        cells w' !! pr = Some Pending /\
        files w' = files w /\
        trace w' =
          trace w ++ [DriverCmd GetSession; DriverCmd TakeScreenshot;
                      Mkdirp (Path.dirname (snap_path h filename));
                      Unhandled e]) /\
  (forall src,
      getPageSource h = Resolved src ->
      mkdirp_sync h (Path.dirname (source_path h filename)) = Some e ->
      exists pr w' side,
        source h filename w = (Ret pr, w') /\
        cells w' !! pr = Some Pending /\
        Forall (fun ev => capture_io ev /\ ev <> DriverCmd GetPageSource)
               side /\
        trace w' =
          trace w ++ DriverCmd GetSession :: DriverCmd ExecuteScript :: side
                  ++ [DriverCmd GetPageSource;
                      Mkdirp (Path.dirname (source_path h filename));
                      Unhandled e]).
Proof.
  intros Hs. split.
  - intros img Hshot Hmk.
    destruct (snap_directory_failure_run h filename img w e Hs Hshot Hmk)
      as (pr & w' & Hrun & Hcell & Hfiles & _ & Htrace).
    exists pr, w'. repeat split; assumption.
  - intros src Hpage Hmk.
    destruct (source_splits h filename w Hs)
      as (d & w2 & evs & Hsplit & Hpend & Hf & Hr & _ & Ht2 & F2 & _).
    destruct (page_chain_directory_fails h filename d w2 Hpend src e Hpage Hmk)
      as (w' & Hrun & Hcell & _ & _ & Htrace).
    exists (promise d), w', evs. rewrite Hsplit.
    repeat split; try assumption.
    rewrite Htrace, Ht2, <- app_assoc. reflexivity.
Qed.

Lemma directory_failure_leaves_promise_pending_witness :
  (exists pr w',
      snap host_mkdirp_fails (lit "shot") (world_with boom) = (Ret pr, w') /\
      cells w' !! pr = Some Pending /\
      files w' = files (world_with boom) /\
      trace w' =
        trace (world_with boom)
        ++ [DriverCmd GetSession; DriverCmd TakeScreenshot;
            Mkdirp (Path.dirname (snap_path host_mkdirp_fails (lit "shot")));
            Unhandled 0%nat]) /\
  (exists pr w' side,
      source host_mkdirp_fails (lit "shot") (world_with boom) = (Ret pr, w') /\
      cells w' !! pr = Some Pending /\
      Forall (fun ev => capture_io ev /\ ev <> DriverCmd GetPageSource) side /\
      trace w' =
        trace (world_with boom)
        ++ DriverCmd GetSession :: DriverCmd ExecuteScript :: side
        ++ [DriverCmd GetPageSource;
            Mkdirp (Path.dirname (source_path host_mkdirp_fails (lit "shot")));
            Unhandled 0%nat]).
Proof.
  pose proof (directory_failure_leaves_promise_pending host_mkdirp_fails
                (lit "shot") (world_with boom) 0%nat eq_refl) as [Hsnap Hsrc].
  split.
  - apply (Hsnap (lit "iVBORw0KGgo=")); reflexivity.
  - apply (Hsrc (lit "<html></html>")); reflexivity.
Defined.

(** ** Jenkins URLs *)

Lemma truthy_app_lit (a b : jsstring) (s : string) :
  lit s <> [] -> truthy (Some (a ++ lit s ++ b)) = true.
Proof.
  intros Hs. destruct a as [|c a]; [|reflexivity]. simpl.
  destruct (lit s) as [|c l]; [contradiction | reflexivity].
Qed.

Lemma truthy_app_cons (a b : jsstring) (c : N) :
  truthy (Some (a ++ c :: b)) = true.
Proof. destruct a; reflexivity. Qed.

(** X7. The formatter returns a result exactly when [WORKSPACE] is set and
    at least one of [JOB_NAME] and [BUILD_URL] is (an empty string counts
    as unset); a result always carries at least one URL, the workspace URL
    exactly when [JOB_NAME] is set and the archive URL exactly when
    [BUILD_URL] is. *)
Theorem formatJenkinsImageUrls_result_iff (h : host) (path name : jsstring)
    (w : world) :
  ((exists u w', formatJenkinsImageUrls h path name w = (Ret (Some u), w')) <->
   truthy (WORKSPACE h) = true /\
   (truthy (JOB_NAME h) = true \/ truthy (BUILD_URL h) = true)) /\
  (forall u w',
      formatJenkinsImageUrls h path name w = (Ret (Some u), w') ->
      truthy (workspaceUrl u) || truthy (archiveUrl u) = true /\
      truthy (workspaceUrl u) = truthy (JOB_NAME h) /\
      truthy (archiveUrl u) = truthy (BUILD_URL h)).
Proof.
  unfold formatJenkinsImageUrls.
  destruct (truthy (WORKSPACE h)) eqn:Ews; cbn [negb].
  - destruct (truthy (JOB_NAME h)) eqn:Ejob;
      destruct (truthy (BUILD_URL h)) eqn:Ebuild;
      unfold bind, emit_event, ret;
      rewrite ?truthy_app_lit by discriminate; cbn [orb truthy].
    + split; [split; [tauto | eauto] |].
      intros u w' [= <- <-]. cbn [workspaceUrl archiveUrl].
      rewrite !truthy_app_cons. auto.
    + split; [split; [tauto | eauto] |].
      intros u w' [= <- <-]. cbn [workspaceUrl archiveUrl].
      rewrite ?truthy_app_cons. auto.
    + split; [split; [tauto | eauto] |].
      intros u w' [= <- <-]. cbn [workspaceUrl archiveUrl].
      rewrite ?truthy_app_cons. auto.
    + split; [|intros u w' [=]].
      split; [intros (u & w' & [=]) | intros [_ [|]]; discriminate].
  - unfold bind, emit_event, ret.
    split; [|intros u w' [=]].
    split; [intros (u & w' & [=]) | intros [? _]; discriminate].
Qed.

(** X8. When the capture directory is the workspace root followed by
    [rel], and [WORKSPACE], [JOB_NAME] and [BUILD_URL] are set, the
    formatter writes nothing to the console and returns the two URLs
    [JENKINS_URL + "job/" + JOB_NAME + "/ws" + rel + "/" + name] and
    [BUILD_URL + "artifact" + rel + "/" + name]: the relative path is what
    follows the workspace root. *)
Theorem formatJenkinsImageUrls_under_workspace (h : host)
    (ws rel job build name : jsstring) (w : world) :
  WORKSPACE h = Some ws -> ws <> [] ->
  JOB_NAME h = Some job -> job <> [] ->
  BUILD_URL h = Some build -> build <> [] ->
  formatJenkinsImageUrls h (ws ++ rel) name w =
  (Ret (Some (JenkinsUrls
                (Some (to_str (JENKINS_URL h) ++ lit "job/" ++ job
                         ++ lit "/ws" ++ rel ++ lit "/" ++ name))
                (Some (build ++ lit "artifact" ++ rel ++ lit "/" ++ name)))),
   w).
Proof.
  intros Hws Hws' Hjob Hjob' Hbuild Hbuild'.
  unfold formatJenkinsImageUrls. rewrite Hws, Hjob, Hbuild.
  destruct ws as [|c1 ws']; [contradiction|].
  destruct job as [|c2 job']; [contradiction|].
  destruct build as [|c3 build']; [contradiction|].
  cbn [truthy negb to_str]. unfold substr. rewrite drop_app_length.
  unfold bind, ret. rewrite truthy_app_lit by discriminate.
  reflexivity.
Qed.

Lemma formatJenkinsImageUrls_under_workspace_witness :
  formatJenkinsImageUrls host_jenkins_build (lit "/var/ws" ++ lit "/out/shots")
    (lit "a.png") empty_world =
  (Ret (Some (JenkinsUrls
                (Some (to_str (JENKINS_URL host_jenkins_build) ++ lit "job/"
                         ++ lit "nightly" ++ lit "/ws" ++ lit "/out/shots"
                         ++ lit "/" ++ lit "a.png"))
                (Some (lit "http://ci/job/nightly/7/" ++ lit "artifact"
                         ++ lit "/out/shots" ++ lit "/" ++ lit "a.png")))),
   empty_world).
Proof.
  apply (formatJenkinsImageUrls_under_workspace host_jenkins_build
           (lit "/var/ws") (lit "/out/shots") (lit "nightly")
           (lit "http://ci/job/nightly/7/") (lit "a.png") empty_world);
    (reflexivity || discriminate).
Defined.

Lemma jenkins_step_result (h : host) (name : jsstring) (w : world) :
  exists u evs,
    (if truthy (JENKINS_URL h)
     then formatJenkinsImageUrls h (screenShotPath h) name
     else ret None) w = (Ret u, with_events w evs) /\
    match u with Some x => workspaceUrl x | None => None end
    = expected_imageUrl h name /\
    match u with Some x => archiveUrl x | None => None end
    = expected_archivedImageUrl h name.
Proof.
  destruct w as [c n o no fl t tr].
  unfold expected_imageUrl, expected_archivedImageUrl, with_events.
  destruct (truthy (JENKINS_URL h)); cbn [andb].
  - unfold formatJenkinsImageUrls.
    destruct (truthy (WORKSPACE h)); cbn [negb andb];
      [destruct (truthy (JOB_NAME h)); destruct (truthy (BUILD_URL h))|];
      unfold bind, emit_event, ret;
      rewrite ?truthy_app_lit by discriminate;
      cbn [orb truthy trace cells next_cell objs next_obj files
           currentTestTitle];
      first [ eexists _, []; rewrite app_nil_r; repeat split; reflexivity
            | eexists _, [_]; repeat split; reflexivity ].
  - exists None, []. unfold ret. simpl. rewrite app_nil_r. now repeat split.
Qed.

(** A successful [snap], with the URLs of its result. *)
Lemma snap_written_with_urls (h : host) (filename img : jsstring) (w : world) :
  session_truthy (getSession h) = true ->
  takeScreenshot h = Resolved img ->
  mkdirp_sync h (Path.dirname (snap_path h filename)) = None ->
  writeFile h (snap_path h filename) = None ->
  exists pr w',
    snap h filename w = (Ret pr, w') /\
    cells w' !! pr =
      Some (Fulfilled (VImage
              (ImageObj (filename ++ lit ".png") (snap_path h filename)
                 (expected_imageUrl h (filename ++ lit ".png"))
                 (expected_archivedImageUrl h (filename ++ lit ".png"))))) /\
    files w' = <[snap_path h filename := (img, Base64)]> (files w) /\
    objs w' = objs w.
Proof.
  intros Hs Hshot Hmk Hwr. unfold snap.
  destruct (p_returns h w) as [d [c [n [Hp [Hc [Hf Hr]]]]]].
  unfold bind at 1. rewrite Hp. run_monad. rewrite Hs, Hshot. simpl.
  unfold then_, mkdirp. run_monad. rewrite Hmk.
  match goal with
  | |- context [(if truthy (JENKINS_URL h) then ?f else ?g) ?w0] =>
      destruct (jenkins_step_result h (filename ++ lit ".png") w0)
        as [u [evs [Hj [Hiu Hau]]]]
  end.
  unfold ret in Hj. rewrite Hj. unfold with_events, fs_writeFile.
  run_monad. rewrite Hwr. simpl.
  rewrite call_fulfill_pending by (simpl; now rewrite Hf).
  simpl. rewrite <- Hiu, <- Hau.
  destruct u as [u|];
    (eexists _, _; split; [reflexivity|]; simpl;
     rewrite Hf, lookup_insert_eq; repeat split; reflexivity).
Qed.

(** X9. The URLs on the result of a successful [snap]: [imageUrl] is
    present exactly when [JENKINS_URL], [WORKSPACE] and [JOB_NAME] are all
    set, [archivedImageUrl] exactly when [JENKINS_URL], [WORKSPACE] and
    [BUILD_URL] are; without [JENKINS_URL] the result carries no URL,
    whatever the other variables.  The relative path in both is the capture
    directory as given to [setup], without its first [WORKSPACE.length]
    characters. *)
Theorem snap_result_urls (h : host) (filename img : jsstring) (w : world) :
  session_truthy (getSession h) = true ->
  takeScreenshot h = Resolved img ->
  mkdirp_sync h (Path.dirname (snap_path h filename)) = None ->
  writeFile h (snap_path h filename) = None ->
  exists pr w' o,
    snap h filename w = (Ret pr, w') /\
    cells w' !! pr = Some (Fulfilled (VImage o)) /\
    imageUrl o = expected_imageUrl h (filename ++ lit ".png") /\
    archivedImageUrl o = expected_archivedImageUrl h (filename ++ lit ".png") /\
    (truthy (JENKINS_URL h) = false ->
     imageUrl o = None /\ archivedImageUrl o = None).
Proof.
  intros Hs Hshot Hmk Hwr.
  destruct (snap_written_with_urls h filename img w Hs Hshot Hmk Hwr)
    as (pr & w' & Hrun & Hcell & _).
  eexists pr, w', _. split; [exact Hrun|]. split; [exact Hcell|]. simpl.
  split; [reflexivity|]. split; [reflexivity|].
  intros Hj0. unfold expected_imageUrl, expected_archivedImageUrl.
  now rewrite Hj0.
Qed.

Lemma snap_result_urls_witness :
  exists pr w' o,
    snap host_jenkins_build (lit "a") empty_world = (Ret pr, w') /\
    cells w' !! pr = Some (Fulfilled (VImage o)) /\
    imageUrl o = expected_imageUrl host_jenkins_build (lit "a" ++ lit ".png") /\
    archivedImageUrl o
    = expected_archivedImageUrl host_jenkins_build (lit "a" ++ lit ".png") /\
    (truthy (JENKINS_URL host_jenkins_build) = false ->
     imageUrl o = None /\ archivedImageUrl o = None).
Proof.
  apply (snap_result_urls host_jenkins_build (lit "a") (lit "iVBORw0KGgo=")
           empty_world); reflexivity.
Defined.

(** On the build host the two URLs are these. *)
Example snap_result_urls_on_build_host :
  expected_imageUrl host_jenkins_build (lit "a.png")
  = Some (lit "http://ci/job/nightly/ws/out/shots/a.png") /\
  expected_archivedImageUrl host_jenkins_build (lit "a.png")
  = Some (lit "http://ci/job/nightly/7/artifact/out/shots/a.png").
Proof. split; reflexivity. Qed.

(** ** The annotation of the stack *)

(** [JSON.stringify] on a capture result without URLs, and the quoting of
    a quote, a line break and a backslash. *)
Example stringify_image_object :
  stringify (VImage (ImageObj (lit "a.png") (lit "/w/r/a.png") None None))
  = lit "{" ++ [34] ++ lit "imageName" ++ [34] ++ lit ":"
    ++ [34] ++ lit "a.png" ++ [34] ++ lit ","
    ++ [34] ++ lit "imagePath" ++ [34] ++ lit ":"
    ++ [34] ++ lit "/w/r/a.png" ++ [34] ++ lit "}".
Proof. reflexivity. Qed.

Example json_quote_escapes :
  json_quote [34; 10; 92; 1; 56814]
  = [34] ++ [92; 34] ++ lit "\n" ++ [92; 92] ++ lit "\u0001" ++ lit "\uddee"
    ++ [34].
Proof. reflexivity. Qed.

(** X10. [appendImageUrlToStackTrace] on an error object only appends: the
    new stack is the old one (the text [undefined] when there was none)
    followed by a line break and the annotation; message and marker of the
    error stay, every other error object stays, and nothing else in the
    world changes.  Without URLs the annotation is
    [nemo-screenshot::] + the JSON of the capture result +
    [::nemo-screenshot]. *)
Theorem appendImageUrlToStackTrace_only_appends (h : host) (v : capture)
    (r : ref) (o : errobj) (w : world) :
  objs w !! r = Some o ->
  exists w' out,
    appendImageUrlToStackTrace h v (EObj r) w = (Ret tt, w') /\
    objs w' !! r =
      Some (ErrObj (message o) (Some (to_str (stack o) ++ nl ++ out))
                   (_nemoScreenshotHandled o)) /\
    (forall r', r' <> r -> objs w' !! r' = objs w !! r') /\
    trace w' = trace w /\ files w' = files w /\ cells w' = cells w /\
    (truthy (prop_imageUrl v) || truthy (prop_archivedImageUrl v) = false ->
     out = lit "nemo-screenshot::" ++ JSON_stringify h v
             ++ lit "::nemo-screenshot").
Proof.
  intros Hobj. rewrite appendImageUrlToStackTrace_run by reflexivity.
  unfold stack_output.
  destruct (truthy (prop_imageUrl v) || truthy (prop_archivedImageUrl v))
    eqn:E; eexists _, _; (split; [reflexivity|]); simpl.
  - split; [rewrite lookup_alter_eq, Hobj; reflexivity|].
    split; [intros r' Hne; now rewrite lookup_alter_ne|].
    repeat split. discriminate.
  - split; [rewrite lookup_alter_eq, Hobj; reflexivity|].
    split; [intros r' Hne; now rewrite lookup_alter_ne|].
    repeat split.
Qed.

Lemma appendImageUrlToStackTrace_only_appends_witness :
  exists w' out,
    appendImageUrlToStackTrace sample_host VTrue (EObj 0%nat) (world_with boom)
      = (Ret tt, w') /\
    objs w' !! 0%nat =
      Some (ErrObj (message boom) (Some (to_str (stack boom) ++ nl ++ out))
                   (_nemoScreenshotHandled boom)) /\
    (forall r', r' <> 0%nat -> objs w' !! r' = objs (world_with boom) !! r') /\
    trace w' = trace (world_with boom) /\
    files w' = files (world_with boom) /\
    cells w' = cells (world_with boom) /\
    (truthy (prop_imageUrl VTrue) || truthy (prop_archivedImageUrl VTrue)
     = false ->
     out = lit "nemo-screenshot::" ++ JSON_stringify sample_host VTrue
             ++ lit "::nemo-screenshot").
Proof.
  apply (appendImageUrlToStackTrace_only_appends sample_host VTrue 0%nat boom
           (world_with boom)).
  reflexivity.
Defined.

(** ** [done] at teardown *)

Lemma snap_no_session_run (h : host) (filename : jsstring) (w : world) :
  session_truthy (getSession h) = false ->
  exists pr c n,
    snap h filename w =
      (Ret pr, World c n (objs w) (next_obj w) (files w) (currentTestTitle w)
                     (trace w ++ [DriverCmd GetSession])) /\
    c !! pr = Some (Fulfilled VTrue).
Proof.
  intros Hs. unfold snap.
  destruct (p_returns h w) as [d [c [n [Hp [Hc [Hf Hr]]]]]].
  unfold bind at 1. rewrite Hp. run_monad. rewrite Hs. simpl.
  rewrite call_fulfill_pending by (simpl; now rewrite Hf).
  simpl. eexists _, _, _. split; [reflexivity|].
  now rewrite Hf, lookup_insert_eq.
Qed.

(** X11. [done] without a live session: no screenshot is taken and no
    file is written, yet the error is annotated, with the dump of the
    sentinel: its stack gains a line break and
    [nemo-screenshot::] + JSON of [true] + [::nemo-screenshot].  The callback
    is called once, with that error. *)
Theorem done_without_session (h : host) (filename : jsstring) (r : ref)
    (o : errobj) (w : world) :
  session_truthy (getSession h) = false ->
  objs w !! r = Some o ->
  exists w',
    done h filename (EObj r) w = (Ret tt, w') /\
    trace w' = trace w ++ [DriverCmd GetSession; Callback (EObj r)] /\
    files w' = files w /\
    objs w' !! r =
      Some (ErrObj (message o)
              (Some (to_str (stack o) ++ nl ++ lit "nemo-screenshot::"
                       ++ JSON_stringify h VTrue ++ lit "::nemo-screenshot"))
              (_nemoScreenshotHandled o)).
Proof.
  intros Hs Hobj.
  destruct (snap_no_session_run h filename w Hs) as (pr & c & n & Hsnap & Hcell).
  rewrite (done_run h filename (EObj r) w pr _ Hsnap). simpl. rewrite Hcell.
  eexists. split; [reflexivity|]. simpl.
  rewrite <- app_assoc. split; [reflexivity|]. split; [reflexivity|].
  rewrite lookup_alter_eq, Hobj. reflexivity.
Qed.

Lemma done_without_session_witness :
  exists w',
    done host_without_session (lit "teardown") (EObj 0%nat) (world_with boom)
      = (Ret tt, w') /\
    trace w' =
      trace (world_with boom) ++ [DriverCmd GetSession; Callback (EObj 0%nat)] /\
    files w' = files (world_with boom) /\
    objs w' !! 0%nat =
      Some (ErrObj (message boom)
              (Some (to_str (stack boom) ++ nl ++ lit "nemo-screenshot::"
                       ++ JSON_stringify host_without_session VTrue
                       ++ lit "::nemo-screenshot"))
              (_nemoScreenshotHandled boom)).
Proof.
  apply (done_without_session host_without_session (lit "teardown") 0%nat boom
           (world_with boom)); reflexivity.
Defined.

(** ** The uncaught-exception hook, pass by pass *)

Lemma get_handled_is_marked (r : ref) (w : world) :
  get_handled r w = (Ret (is_marked w r), w).
Proof. reflexivity. Qed.

Lemma alter_mark_handled_idem (r : ref) (m : gmap ref errobj) :
  alter mark_handled r (alter mark_handled r m) = alter mark_handled r m.
Proof.
  apply map_eq. intros k. destruct (decide (k = r)) as [->|Hne].
  - rewrite !lookup_alter_eq. now destruct (m !! r).
  - now rewrite !lookup_alter_ne.
Qed.

(** The optional source capture of the hook returns, makes only capture
    calls and leaves error objects and test title alone. *)
Lemma source_option_run (h : host) (filename : jsstring) (w : world) :
  exists w1 evs,
    (if has_option h "source"
     then bind (source h filename) (fun _ => ret tt) else ret tt) w
    = (Ret tt, w1) /\
    trace w1 = trace w ++ evs /\ Forall capture_io evs /\
    objs w1 = objs w.
Proof.
  destruct (has_option h "source").
  - destruct (total_source h filename w) as [pr0 [w1 Hsrc]].
    destruct (appends_source h filename _ _ _ Hsrc) as [e1 [Ht1 F1]].
    destruct (keeps_objs_source h filename _ _ _ Hsrc) as [Ho1 _].
    exists w1, e1. unfold bind, ret. rewrite Hsrc. now repeat split.
  - exists w, []. unfold ret. rewrite app_nil_r. repeat split. constructor.
Qed.

Lemma onSession_filename (h : host) (w : world) :
  (if truthy (currentTestTitle w)
   then titleSlug (to_str (currentTestTitle w))
   else lit "ScreenShot_onException-" ++ decimal (pid h) ++ lit "-"
          ++ decimal (now h))
  = exception_filename h (currentTestTitle w).
Proof. reflexivity. Qed.

(** The continuation of the session query when the screenshot cannot be
    taken: nothing is emitted. *)
Lemma onSession_screenshot_fails (h : host) (r : ref) (w : world) (e : ref) :
  session_truthy (getSession h) = true ->
  takeScreenshot h = Failed e ->
  exists w' evs,
    onSession h (flow_emit h) r true w = (Ret tt, w') /\
    trace w' = trace w ++ evs ++ [Unhandled e] /\
    Forall capture_io evs /\
    objs w' = objs w.
Proof.
  intros Hs Hshot. unfold onSession. unfold bind at 1. unfold get_world at 1.
  rewrite onSession_filename.
  set (filename := exception_filename h (currentTestTitle w)).
  destruct (source_option_run h filename w) as (w1 & e1 & Hsrc & Ht1 & F1 & Ho1).
  unfold bind at 1. rewrite Hsrc.
  destruct (snap_retrieval_failure_run h filename w1 e Hs Hshot)
    as (pr & w2 & Hsnap & Hcell & Ho2 & _).
  destruct (appends_snap h filename _ _ _ Hsnap) as [e2 [Ht2 F2]].
  unfold bind at 1. rewrite Hsnap.
  unfold bind at 1. rewrite await_run, Hcell.
  unfold bind, then_, drop_promise, emit_event. simpl.
  eexists _, (e1 ++ e2). split; [reflexivity|]. simpl.
  split; [now rewrite Ht2, Ht1, <- !app_assoc|].
  split; [now apply Forall_app | congruence].
Qed.

Lemma emits_app (t1 t2 : list event) :
  emits (t1 ++ t2) = emits t1 ++ emits t2.
Proof.
  induction t1 as [|ev t1 IH]; [reflexivity|].
  destruct ev; simpl; now rewrite IH.
Qed.

Lemma emits_capture_io (evs : list event) :
  Forall capture_io evs -> emits evs = [].
Proof.
  induction 1 as [|ev evs Hev _ IH]; [reflexivity|].
  destruct ev; simpl in *; try exact IH; contradiction.
Qed.

(** The world after the hook has marked the exception and asked for the
    session, whatever the emitter. *)
Lemma onUncaughtException_unmarked (h : host) (emit : ref -> M unit)
    (r : ref) (w : world) :
  is_marked w r = false ->
  onUncaughtException h emit r w =
  match getSession h with
  | SessFalsy =>
      bind (new_error (lit "TypeError: Cannot read property 'then'")) throw
  | SessThenable query =>
      bind (then_ query (onSession h emit r) None) (fun first =>
      bind (catch_ first (fun e => bind (set_handled e) (fun _ => emit r)))
           drop_promise)
  end (with_events (with_objs w (alter mark_handled r (objs w)))
                   [DriverCmd GetSession]).
Proof.
  intros Hm. unfold onUncaughtException.
  unfold bind at 1. rewrite get_handled_is_marked, Hm.
  destruct (getSession h) eqn:E; unfold driver_getSession, bind at 1 2 3 4;
    unfold emit_event, ret, set_handled, bind at 1, get_world, set_objs;
    rewrite E; reflexivity.
Qed.

Lemma hook_pass_unmarked (h : host) (r : ref) (w : world) :
  is_marked w r = false ->
  hook_pass h r w =
  match getSession h with
  | SessFalsy =>
      bind (new_error (lit "TypeError: Cannot read property 'then'")) throw
  | SessThenable query =>
      bind (then_ query (onSession h (flow_emit h) r) None) (fun first =>
      bind (catch_ first (fun e => bind (set_handled e)
                                        (fun _ => flow_emit h r)))
           drop_promise)
  end (with_events (with_objs w (alter mark_handled r (objs w)))
                   [DriverCmd GetSession]).
Proof. exact (onUncaughtException_unmarked h (flow_emit h) r w). Qed.

(** X14. First pass with a session, and the screenshot cannot be taken:
    the exception is never emitted again.  The continuation that would
    annotate and emit it hangs on the fulfilment of [snap] only; the
    failure of [snap] is left as a rejection without a handler, and the
    exception keeps its stack and is marked. *)
Theorem hook_swallows_exception_when_snap_fails (h : host) (r e : ref)
    (w : world) :
  is_marked w r = false ->
  getSession h = SessThenable (Resolved true) ->
  takeScreenshot h = Failed e ->
  exists w' evs,
    hook_pass h r w = (Ret tt, w') /\
    trace w' = trace w ++ evs ++ [Unhandled e] /\
    Forall capture_io evs /\
    emits (trace w') = emits (trace w) /\
    objs w' = alter mark_handled r (objs w).
Proof.
  intros Hm Hs Hshot. rewrite (hook_pass_unmarked h r w Hm), Hs.
  cbv beta iota. unfold bind at 1, then_ at 1.
  match goal with
  | |- context [onSession h (flow_emit h) r true ?w0] =>
      destruct (onSession_screenshot_fails h r w0 e) as (w' & evs & Hrun & Ht & F & Ho)
  end; [now rewrite Hs | exact Hshot |].
  rewrite Hrun. unfold bind, catch_, then_, drop_promise, ret.
  exists w', (DriverCmd GetSession :: evs). split; [reflexivity|].
  simpl in Ht, Ho. split; [now rewrite Ht, <- !app_assoc|].
  split; [constructor; [exact I | exact F]|].
  split; [|exact Ho].
  rewrite Ht, !emits_app, (emits_capture_io evs) by assumption.
  simpl. now rewrite !app_nil_r.
Qed.

Lemma hook_swallows_exception_when_snap_fails_witness :
  exists w' evs,
    hook_pass host_screenshot_fails_in_hook 0%nat
      (world_with_two boom connection_lost) = (Ret tt, w') /\
    trace w' =
      trace (world_with_two boom connection_lost) ++ evs ++ [Unhandled 1%nat] /\
    Forall capture_io evs /\
    emits (trace w') = emits (trace (world_with_two boom connection_lost)) /\
    objs w' =
      alter mark_handled 0%nat (objs (world_with_two boom connection_lost)).
Proof.
  apply (hook_swallows_exception_when_snap_fails
           host_screenshot_fails_in_hook 0%nat 1%nat
           (world_with_two boom connection_lost)); reflexivity.
Defined.

(** The file of that capture. *)
Example hook_capture_file_name :
  snap_path host_exception_only
    (exception_filename host_exception_only (Some (lit "checkout: pays #1")))
  = lit "/w/report/checkout__pays__1.png".
Proof. reflexivity. Qed.

(** X16. The hook does not tolerate the answer of [getSession()] that
    [snap] and [source] take for "no session": on a falsy value the call of
    [then] on it throws out of the listener.  The exception has been marked
    by then, but it is not emitted and nothing is captured. *)
Theorem hook_throws_on_falsy_session (h : host) (r : ref) (w : world) :
  is_marked w r = false ->
  getSession h = SessFalsy ->
  exists e w',
    hook_pass h r w = (Throw e, w') /\
    trace w' = trace w ++ [DriverCmd GetSession] /\
    emits (trace w') = emits (trace w) /\
    files w' = files w.
Proof.
  intros Hm Hs. rewrite (hook_pass_unmarked h r w Hm), Hs.
  eexists _, _. split; [reflexivity|]. simpl.
  split; [reflexivity|]. split; [|reflexivity].
  rewrite emits_app. simpl. apply app_nil_r.
Qed.

Lemma hook_throws_on_falsy_session_witness :
  exists e w',
    hook_pass host_falsy_session_in_hook 0%nat (world_with boom)
      = (Throw e, w') /\
    trace w' = trace (world_with boom) ++ [DriverCmd GetSession] /\
    emits (trace w') = emits (trace (world_with boom)) /\
    files w' = files (world_with boom).
Proof.
  apply (hook_throws_on_falsy_session host_falsy_session_in_hook 0%nat
           (world_with boom)); reflexivity.
Defined.

(** ** The hook on the flow it is subscribed on *)

(** The hook is a listener of the event it emits, on the same flow.  On a
    marked exception a pass emits before anything else, so the passes nest
    until a listener ahead of the hook throws or the call stack is used
    up: the emission never returns, it throws. *)
Lemma flow_emit_reentrant_marked (h : host) (depth : nat) (r : ref)
    (o : errobj) (w : world) :
  objs w !! r = Some o ->
  _nemoScreenshotHandled o = true ->
  exists e w',
    flow_emit_reentrant h depth r w = (Throw e, w') /\
    emitted r (emissions h depth r) w w'.
Proof.
  intros Hobj Hflag. revert w Hobj.
  induction depth as [|depth IH]; intros w Hobj.
  - simpl. unfold bind. rewrite new_error_run. unfold throw.
    eexists _, _. split; [reflexivity|]. unfold emitted. simpl.
    rewrite app_nil_r. repeat split.
    intros k Hk. now rewrite lookup_insert_ne.
  - simpl. unfold bind at 1. unfold emit_event at 1.
    destruct (emit_throws h r) as [e|] eqn:Hemit.
    + eexists _, _. split; [reflexivity|]. unfold emitted. simpl.
      now repeat split.
    + unfold onUncaughtException. unfold bind at 1.
      rewrite (get_handled_run r o) by exact Hobj. rewrite Hflag.
      cbv iota. unfold bind at 1.
      match goal with
      | |- context [flow_emit_reentrant h depth r ?w0] =>
          destruct (IH w0 Hobj) as (e & w' & Hrun & Ht & Hrest)
      end.
      rewrite Hrun.
      exists e, w'. split; [reflexivity|]. split; [|exact Hrest].
      rewrite Ht. simpl. rewrite <- app_assoc.
      destruct depth as [|depth']; [reflexivity|]. simpl.
      now rewrite Hemit.
Qed.

Lemma is_marked_false (r : ref) (o : errobj) (w : world) :
  objs w !! r = Some o -> _nemoScreenshotHandled o = false ->
  is_marked w r = false.
Proof. intros H1 H2. unfold is_marked. now rewrite H1. Qed.

Lemma objs_wf_fresh (r : ref) (o : errobj) (w : world) :
  objs_wf w -> objs w !! r = Some o -> r <> next_obj w.
Proof.
  intros Hwf Hobj ->. rewrite Hwf in Hobj by lia. discriminate.
Qed.

Lemma objs_wf_world_with (o : errobj) : objs_wf (world_with o).
Proof.
  intros k Hk. simpl in *. apply lookup_singleton_ne. lia.
Qed.

Lemma objs_wf_world_with_two (o0 o1 : errobj) :
  objs_wf (world_with_two o0 o1).
Proof.
  intros k Hk. simpl in *.
  rewrite lookup_insert_ne by lia. apply lookup_singleton_ne. lia.
Qed.

(** A pass over a marked exception: it emits and throws, and that is
    all. *)
Lemma hook_marked_pass_on_flow (h : host) (depth : nat)
    (r : ref) (o : errobj) (w : world) :
  objs w !! r = Some o ->
  _nemoScreenshotHandled o = true ->
  exists e w',
    hook_pass_on_flow h depth r w = (Throw e, w') /\
    trace w' = trace w ++ repeat (Emit r) (emissions h depth r) /\
    ((0 < depth)%nat -> (0 < emissions h depth r)%nat) /\
    List.filter is_capture_event (trace w')
    = List.filter is_capture_event (trace w) /\
    files w' = files w /\ cells w' = cells w.
Proof.
  intros Hobj Hflag. unfold hook_pass_on_flow, onUncaughtException.
  unfold bind at 1. rewrite (get_handled_run r o) by exact Hobj.
  rewrite Hflag. cbv iota. unfold bind at 1.
  destruct (flow_emit_reentrant_marked h depth r o w Hobj Hflag)
    as (e & w' & Hrun & Ht & Hc & _ & Hf & _).
  rewrite Hrun. exists e, w'. split; [reflexivity|]. split; [exact Ht|].
  split.
  { destruct depth; [lia|]. intros _. simpl. destruct (emit_throws h r); lia. }
  split; [|now split].
  rewrite Ht, List.filter_app.
  assert (Hq : forall n, List.filter is_capture_event (repeat (Emit r) n) = []).
  { induction n; [reflexivity | exact IHn]. }
  rewrite Hq. apply app_nil_r.
Qed.

Section StaysMarked.

Variable h : host.
Variable r : ref.

Lemma stays_marked_same {A} (m : M A) :
  (forall w res w', m w = (res, w') ->
     objs w' = objs w /\ next_obj w' = next_obj w) ->
  stays_marked r m.
Proof.
  intros Hm w res w' Hrun [[o [Ho Hf]] Hwf].
  destruct (Hm w res w' Hrun) as [Eo En]. split.
  - exists o. now rewrite Eo.
  - intros k Hk. rewrite Eo. apply Hwf. now rewrite <- En.
Qed.

Lemma stays_marked_ret {A} (a : A) : stays_marked r (ret a).
Proof. apply stays_marked_same. intros w res w' [= <- <-]. now split. Qed.

Lemma stays_marked_throw {A} (e : ref) : stays_marked r (@throw A e).
Proof. apply stays_marked_same. intros w res w' [= <- <-]. now split. Qed.

Lemma stays_marked_emit_event (ev : event) : stays_marked r (emit_event ev).
Proof. apply stays_marked_same. intros w res w' [= <- <-]. now split. Qed.

Lemma stays_marked_get_world : stays_marked r get_world.
Proof. apply stays_marked_same. intros w res w' [= <- <-]. now split. Qed.

Lemma stays_marked_await (pr : nat) : stays_marked r (await pr).
Proof. apply stays_marked_same. intros w res w' [= <- <-]. now split. Qed.

Lemma stays_marked_bind {A B} (m : M A) (k : A -> M B) :
  stays_marked r m -> (forall a, stays_marked r (k a)) ->
  stays_marked r (bind m k).
Proof.
  intros Hm Hk w res w' Hrun Hw. unfold bind in Hrun.
  destruct (m w) as [[a|e] w1] eqn:E.
  - eapply Hk; [exact Hrun|]. eapply Hm; eassumption.
  - injection Hrun as <- <-. eapply Hm; eassumption.
Qed.

Lemma stays_marked_then {A B} (o : outcome A) (onOk : A -> M B)
    (onErr : option (ref -> M B)) :
  (forall a, stays_marked r (onOk a)) ->
  (forall k e, onErr = Some k -> stays_marked r (k e)) ->
  stays_marked r (then_ o onOk onErr).
Proof.
  intros Hok Herr w res w' Hrun Hw. unfold then_ in Hrun.
  destruct o as [a|e|].
  - destruct (onOk a w) as [[b|e] w1] eqn:E; injection Hrun as <- <-;
      eapply Hok; eassumption.
  - destruct onErr as [k|].
    + destruct (k e w) as [[b|e'] w1] eqn:E; injection Hrun as <- <-;
        eapply Herr; eauto.
    + now injection Hrun as <- <-.
  - now injection Hrun as <- <-.
Qed.

Lemma stays_marked_drop_promise {A} (o : outcome A) :
  stays_marked r (drop_promise o).
Proof.
  destruct o; simpl;
    [apply stays_marked_ret | apply stays_marked_emit_event
    | apply stays_marked_ret].
Qed.

Lemma stays_marked_alter (f : errobj -> errobj) (x : ref) :
  (forall o, _nemoScreenshotHandled o = true ->
             _nemoScreenshotHandled (f o) = true) ->
  stays_marked r (fun w =>
    (Ret tt, World (cells w) (next_cell w) (alter f x (objs w)) (next_obj w)
                   (files w) (currentTestTitle w) (trace w))).
Proof.
  intros Hf w res w' [= <- <-] [[o [Ho Hflag]] Hwf]. split; simpl.
  - destruct (decide (x = r)) as [->|Hne].
    + exists (f o). rewrite lookup_alter_eq, Ho. split; [reflexivity | auto].
    + exists o. now rewrite lookup_alter_ne.
  - unfold objs_wf. simpl. intros k Hk. apply lookup_alter_None.
    now apply Hwf.
Qed.

Lemma stays_marked_set_handled (x : ref) : stays_marked r (set_handled x).
Proof. now apply (stays_marked_alter mark_handled x). Qed.

Lemma stays_marked_append_stack (x : ref) (out : jsstring) :
  stays_marked r (append_stack x out).
Proof. now apply (stays_marked_alter (annotate out) x). Qed.

Lemma stays_marked_new_error (msg : jsstring) : stays_marked r (new_error msg).
Proof.
  intros w res w' Hrun [[o [Ho Hflag]] Hwf].
  rewrite new_error_run in Hrun. injection Hrun as <- <-. split; simpl.
  - exists o. split; [|exact Hflag].
    rewrite lookup_insert_ne; [exact Ho|].
    intros E. rewrite <- E, Hwf in Ho by lia. discriminate.
  - unfold objs_wf. simpl. intros k Hk. rewrite lookup_insert_ne by lia.
    apply Hwf. lia.
Qed.

Lemma stays_marked_appendImageUrlToStackTrace (v : capture) (err : errarg) :
  stays_marked r (appendImageUrlToStackTrace h v err).
Proof.
  unfold appendImageUrlToStackTrace.
  destruct (err_truthy err); [|apply stays_marked_ret].
  unfold assign_stack.
  destruct err; try apply stays_marked_append_stack;
    (apply stays_marked_bind; [apply stays_marked_new_error|]);
    intros e; apply stays_marked_throw.
Qed.

Lemma stays_marked_snap (f : jsstring) : stays_marked r (snap h f).
Proof.
  apply stays_marked_same. intros w res w' Hrun.
  destruct (keeps_objs_snap h f _ _ _ Hrun) as (Ho & Hn & _). now split.
Qed.

Lemma stays_marked_source (f : jsstring) : stays_marked r (source h f).
Proof.
  apply stays_marked_same. intros w res w' Hrun.
  destruct (keeps_objs_source h f _ _ _ Hrun) as (Ho & Hn & _). now split.
Qed.

Lemma stays_marked_onSession (emit : ref -> M unit) (session : bool) :
  stays_marked r (emit r) ->
  stays_marked r (onSession h emit r session).
Proof.
  intros Hemit. unfold onSession.
  destruct session; [|apply stays_marked_throw].
  apply stays_marked_bind; [apply stays_marked_get_world|]. intros w0.
  apply stays_marked_bind.
  { destruct (has_option h "source"); [|apply stays_marked_ret].
    apply stays_marked_bind; [apply stays_marked_source|].
    intros _. apply stays_marked_ret. }
  intros _. apply stays_marked_bind; [apply stays_marked_snap|]. intros pr.
  apply stays_marked_bind; [apply stays_marked_await|]. intros state.
  apply stays_marked_bind; [|intros inner; apply stays_marked_drop_promise].
  apply stays_marked_then; [|discriminate].
  intros v. apply stays_marked_bind; [|intros _; exact Hemit].
  apply stays_marked_appendImageUrlToStackTrace.
Qed.

Lemma stays_marked_after_mark (emit : ref -> M unit) :
  stays_marked r (emit r) ->
  stays_marked r (after_mark h emit r).
Proof.
  intros Hemit. unfold after_mark.
  apply stays_marked_bind.
  { unfold driver_getSession. apply stays_marked_bind;
      [apply stays_marked_emit_event | intros _; apply stays_marked_ret]. }
  intros [|query].
  - apply stays_marked_bind; [apply stays_marked_new_error|].
    intros e. apply stays_marked_throw.
  - apply stays_marked_bind.
    { apply stays_marked_then; [|discriminate].
      intros s. now apply stays_marked_onSession. }
    intros first. apply stays_marked_bind;
      [|intros second; apply stays_marked_drop_promise].
    unfold catch_. apply stays_marked_then; [intros a; apply stays_marked_ret|].
    intros k e [= <-].
    apply stays_marked_bind; [apply stays_marked_set_handled|].
    intros _. exact Hemit.
Qed.

Lemma stays_marked_onUncaughtException (emit : ref -> M unit) :
  stays_marked r (emit r) ->
  stays_marked r (onUncaughtException h emit r).
Proof.
  intros Hemit. unfold onUncaughtException.
  apply stays_marked_bind.
  { apply stays_marked_same. intros w res w' [= <- <-]. now split. }
  intros handled. apply stays_marked_bind.
  { destruct handled; [exact Hemit | apply stays_marked_ret]. }
  intros _. apply stays_marked_bind; [apply stays_marked_set_handled|].
  intros _. now apply stays_marked_after_mark.
Qed.

Lemma stays_marked_flow_emit_reentrant (depth : nat) :
  stays_marked r (flow_emit_reentrant h depth r).
Proof.
  induction depth as [|depth IH]; simpl.
  - apply stays_marked_bind; [apply stays_marked_new_error|].
    intros e. apply stays_marked_throw.
  - apply stays_marked_bind; [apply stays_marked_emit_event|]. intros _.
    destruct (emit_throws h r); [apply stays_marked_throw|].
    now apply stays_marked_onUncaughtException.
Qed.

(** Whatever a pass of the hook does, it leaves the exception marked. *)
Lemma hook_pass_on_flow_marks (depth : nat) (o : errobj) (w : world)
    (res : result unit) (w' : world) :
  objs w !! r = Some o ->
  objs_wf w ->
  hook_pass_on_flow h depth r w = (res, w') ->
  marked_wf r w'.
Proof.
  intros Hobj Hwf Hrun.
  destruct (_nemoScreenshotHandled o) eqn:Hflag.
  - eapply (stays_marked_onUncaughtException _
              (stays_marked_flow_emit_reentrant depth)); [exact Hrun|].
    split; [eauto | exact Hwf].
  - unfold hook_pass_on_flow, onUncaughtException in Hrun.
    unfold bind at 1 in Hrun.
    rewrite (get_handled_run r o) in Hrun by exact Hobj.
    rewrite Hflag in Hrun. cbv iota in Hrun.
    unfold bind at 1 in Hrun. unfold ret at 1 in Hrun.
    unfold bind at 1 in Hrun. unfold set_handled at 1 in Hrun.
    unfold bind at 1, get_world at 1 in Hrun.
    unfold bind at 1, set_objs at 1 in Hrun.
    eapply (stays_marked_after_mark _ (stays_marked_flow_emit_reentrant depth)).
    + exact Hrun.
    + split; simpl.
      * exists (mark_handled o). now rewrite lookup_alter_eq, Hobj.
      * unfold objs_wf. simpl. intros k Hk. apply lookup_alter_None.
        now apply Hwf.
Qed.

End StaysMarked.

(** C1.  An exception that reaches the hook with its marker set is emitted
    again at once, and the pass issues no capture: the emission goes to
    the listeners of the flow, the hook among them, so it is repeated
    until a listener ahead of the hook throws or the call stack is used up,
    and what it throws ends the pass before the session is queried.  The
    pass adds emissions to the trace and nothing else: no driver command,
    no file.  And every pass of the hook, whatever the driver and the file
    system do, leaves the exception marked, so that this is what happens
    to an exception routed through the hook a second time. *)
Theorem hook_second_pass_reemits_without_capture (h : host) (r : ref) :
  (forall depth o w,
     objs w !! r = Some o ->
     _nemoScreenshotHandled o = true ->
     exists e w',
       hook_pass_on_flow h depth r w = (Throw e, w') /\
       trace w' = trace w ++ repeat (Emit r) (emissions h depth r) /\
       ((0 < depth)%nat -> (0 < emissions h depth r)%nat) /\
       List.filter is_capture_event (trace w')
       = List.filter is_capture_event (trace w) /\
       files w' = files w /\ cells w' = cells w) /\
  (forall depth o w res w',
     objs w !! r = Some o ->
     objs_wf w ->
     hook_pass_on_flow h depth r w = (res, w') ->
     exists o',
       objs w' !! r = Some o' /\ _nemoScreenshotHandled o' = true /\
       objs_wf w').
Proof.
  split.
  - intros depth o w. apply hook_marked_pass_on_flow.
  - intros depth o w res w' Hobj Hwf Hrun.
    destruct (hook_pass_on_flow_marks h r depth o w res w' Hobj Hwf Hrun)
      as [[o' [Ho' Hf']] Hwf'].
    now exists o'.
Qed.

Lemma hook_second_pass_reemits_without_capture_witness :
  exists res1 w1 e w2,
    hook_pass_on_flow host_exception_only 2 0%nat (world_with boom)
      = (res1, w1) /\
    is_marked w1 0%nat = true /\
    hook_pass_on_flow host_exception_only 3 0%nat w1 = (Throw e, w2) /\
    trace w2 = trace w1 ++ [Emit 0%nat; Emit 0%nat; Emit 0%nat] /\
    List.filter is_capture_event (trace w2)
    = List.filter is_capture_event (trace w1) /\
    files w2 = files w1.
Proof.
  destruct (hook_second_pass_reemits_without_capture host_exception_only 0%nat)
    as [Hsecond Hfirst].
  destruct (hook_pass_on_flow host_exception_only 2 0%nat (world_with boom))
    as [res1 w1] eqn:H1.
  destruct (Hfirst 2%nat boom (world_with boom) res1 w1 eq_refl
              (objs_wf_world_with boom) H1) as (o1 & Ho1 & Hf1 & _).
  destruct (Hsecond 3%nat o1 w1 Ho1 Hf1) as (e & w2 & Hrun & Ht & _ & Hcap & Hf & _).
  exists res1, w1, e, w2. split; [reflexivity|].
  split; [unfold is_marked; now rewrite Ho1|].
  split; [exact Hrun|]. split; [exact Ht|]. split; [exact Hcap | exact Hf].
Defined.

(** The two passes on a host where everything succeeds: one screenshot,
    taken by the first pass. *)
Example hook_two_passes_trace :
  exists res1 w1 res2 w2,
    hook_pass_on_flow host_exception_only 2 0%nat (world_with boom)
      = (res1, w1) /\
    hook_pass_on_flow host_exception_only 3 0%nat w1 = (res2, w2) /\
    trace w1 =
      [DriverCmd GetSession; DriverCmd GetSession; DriverCmd TakeScreenshot;
       Mkdirp (lit "/w/report");
       WriteFile (lit "/w/report/ScreenShot_onException-4242-1700000000000.png")
                 (lit "iVBORw0KGgo=") Base64;
       Emit 0%nat; Emit 0%nat; Unhandled 1%nat] /\
    trace w2 = trace w1 ++ [Emit 0%nat; Emit 0%nat; Emit 0%nat] /\
    res2 = Throw 2%nat.
Proof.
  eexists _, _, _, _. split; [vm_compute; reflexivity|].
  split; [vm_compute; reflexivity|]. repeat split.
Qed.

(** X12. First pass, the driver reports no session (the session query
    resolves to a falsy value): the hook takes no capture and writes no
    file.  It marks the exception, its stack as it was, and the [catch]
    handler emits it.  The exception being marked by then, the emission
    re-enters the hook and is repeated until a listener ahead of the hook
    throws or the call stack is used up; what it throws is left as a
    rejection without a handler. *)
Theorem hook_without_session (h : host) (depth : nat) (r : ref) (o : errobj)
    (w : world) :
  objs w !! r = Some o ->
  _nemoScreenshotHandled o = false ->
  objs_wf w ->
  getSession h = SessThenable (Resolved false) ->
  exists e w',
    hook_pass_on_flow h depth r w = (Ret tt, w') /\
    trace w' =
      trace w ++ DriverCmd GetSession
              :: repeat (Emit r) (emissions h depth r) ++ [Unhandled e] /\
    objs w' !! r = Some (mark_handled o) /\
    files w' = files w /\ cells w' = cells w.
Proof.
  intros Hobj Hflag Hwf Hs. unfold hook_pass_on_flow.
  rewrite (onUncaughtException_unmarked h _ r w)
    by (eapply is_marked_false; eassumption).
  rewrite Hs. cbv beta iota.
  unfold bind at 1, then_ at 1, onSession, throw.
  unfold bind at 1, catch_, then_. unfold bind at 1.
  unfold set_handled, bind at 1, get_world, set_objs. cbv beta iota.
  match goal with
  | |- context [flow_emit_reentrant h depth r ?w0] =>
      destruct (flow_emit_reentrant_marked h depth r (mark_handled o) w0)
        as (e & w' & Hrun & Ht & Hc & _ & Hf & _ & Ho)
  end.
  { simpl. rewrite alter_mark_handled_idem, lookup_alter_eq, Hobj. reflexivity. }
  { reflexivity. }
  rewrite Hrun. unfold drop_promise, emit_event.
  exists e. eexists. split; [reflexivity|]. simpl in *.
  split; [rewrite Ht, <- !app_assoc; reflexivity|].
  split; [|now split].
  rewrite Ho by (eapply objs_wf_fresh; eassumption).
  rewrite alter_mark_handled_idem, lookup_alter_eq, Hobj. reflexivity.
Qed.


Lemma hook_without_session_witness :
  exists e w',
    hook_pass_on_flow host_session_gone 2 0%nat (world_with boom)
      = (Ret tt, w') /\
    trace w' =
      trace (world_with boom)
      ++ DriverCmd GetSession
         :: repeat (Emit 0%nat) (emissions host_session_gone 2 0%nat)
         ++ [Unhandled e] /\
    objs w' !! 0%nat = Some (mark_handled boom) /\
    files w' = files (world_with boom) /\
    cells w' = cells (world_with boom).
Proof.
  apply (hook_without_session host_session_gone 2%nat 0%nat boom
           (world_with boom));
    [reflexivity | reflexivity | apply objs_wf_world_with | reflexivity].
Defined.

Example hook_without_session_trace :
  exists w',
    hook_pass_on_flow host_session_gone 2 0%nat (world_with boom)
      = (Ret tt, w') /\
    trace w' =
      [DriverCmd GetSession; Emit 0%nat; Emit 0%nat; Unhandled 1%nat].
Proof. eexists. split; [vm_compute; reflexivity | reflexivity]. Qed.

(** X13. First pass, the session query itself fails with an error [e0]:
    the failure is swallowed.  The hook takes no capture, marks both the
    exception and [e0], and the [catch] handler emits the exception, its
    stack as it was; the emission re-enters the hook and ends by throwing,
    which is left as a rejection without a handler. *)
Theorem hook_session_query_fails (h : host) (depth : nat) (r e0 : ref)
    (o : errobj) (w : world) :
  objs w !! r = Some o ->
  _nemoScreenshotHandled o = false ->
  objs_wf w ->
  getSession h = SessThenable (Failed e0) ->
  exists e w',
    hook_pass_on_flow h depth r w = (Ret tt, w') /\
    trace w' =
      trace w ++ DriverCmd GetSession
              :: repeat (Emit r) (emissions h depth r) ++ [Unhandled e] /\
    objs w' !! r = Some (mark_handled o) /\
    (forall o0, objs w !! e0 = Some o0 ->
                objs w' !! e0 = Some (mark_handled o0)) /\
    files w' = files w /\ cells w' = cells w.
Proof.
  intros Hobj Hflag Hwf Hs. unfold hook_pass_on_flow.
  rewrite (onUncaughtException_unmarked h _ r w)
    by (eapply is_marked_false; eassumption).
  rewrite Hs. cbv beta iota.
  unfold bind at 1, then_ at 1.
  unfold bind at 1, catch_, then_. unfold bind at 1.
  unfold set_handled, bind at 1, get_world, set_objs. cbv beta iota.
  assert (Hr : alter mark_handled e0 (alter mark_handled r (objs w)) !! r
               = Some (mark_handled o)).
  { destruct (decide (e0 = r)) as [->|Hne].
    - now rewrite alter_mark_handled_idem, lookup_alter_eq, Hobj.
    - now rewrite lookup_alter_ne, lookup_alter_eq, Hobj by exact Hne. }
  match goal with
  | |- context [flow_emit_reentrant h depth r ?w0] =>
      destruct (flow_emit_reentrant_marked h depth r (mark_handled o) w0)
        as (e & w' & Hrun & Ht & Hc & _ & Hf & _ & Ho)
  end; [exact Hr | reflexivity |].
  rewrite Hrun. unfold drop_promise, emit_event.
  exists e. eexists. split; [reflexivity|]. simpl in *.
  split; [rewrite Ht, <- !app_assoc; reflexivity|].
  split.
  { rewrite Ho by (eapply objs_wf_fresh; eassumption). exact Hr. }
  split; [|now split].
  intros o0 Ho0. rewrite Ho by (eapply objs_wf_fresh; eassumption).
  rewrite lookup_alter_eq.
  destruct (decide (e0 = r)) as [->|Hne].
  - rewrite lookup_alter_eq, Hobj. simpl.
    assert (o0 = o) as -> by congruence. reflexivity.
  - now rewrite lookup_alter_ne, Ho0 by congruence.
Qed.


Lemma hook_session_query_fails_witness :
  exists e w',
    hook_pass_on_flow host_session_query_fails 2 0%nat
      (world_with_two boom connection_lost) = (Ret tt, w') /\
    trace w' =
      trace (world_with_two boom connection_lost)
      ++ DriverCmd GetSession
         :: repeat (Emit 0%nat) (emissions host_session_query_fails 2 0%nat)
         ++ [Unhandled e] /\
    objs w' !! 0%nat = Some (mark_handled boom) /\
    (forall o0, objs (world_with_two boom connection_lost) !! 1%nat = Some o0 ->
                objs w' !! 1%nat = Some (mark_handled o0)) /\
    files w' = files (world_with_two boom connection_lost) /\
    cells w' = cells (world_with_two boom connection_lost).
Proof.
  apply (hook_session_query_fails host_session_query_fails 2%nat 0%nat 1%nat
           boom (world_with_two boom connection_lost));
    [reflexivity | reflexivity | apply objs_wf_world_with_two | reflexivity].
Defined.

(** The continuation of the session query when the screenshot is taken
    and written: the stack is annotated, then the exception is emitted,
    and what the emission throws is left without a handler. *)
Lemma onSession_written_then_emits (h : host) (emit : ref -> M unit)
    (r : ref) (w : world) (img : jsstring) :
  let filename := exception_filename h (currentTestTitle w) in
  session_truthy (getSession h) = true ->
  takeScreenshot h = Resolved img ->
  mkdirp_sync h (Path.dirname (snap_path h filename)) = None ->
  writeFile h (snap_path h filename) = None ->
  exists w1 evs o,
    trace w1 = trace w ++ evs /\
    Forall capture_io evs /\
    imageName o = filename ++ lit ".png" /\
    imagePath o = snap_path h filename /\
    files w1 !! snap_path h filename = Some (img, Base64) /\
    objs w1 = alter (annotate (stack_output h (VImage o))) r (objs w) /\
    next_obj w1 = next_obj w /\
    onSession h emit r true w =
    match emit r w1 with
    | (Ret _, w2) => (Ret tt, w2)
    | (Throw e, w2) => (Ret tt, with_events w2 [Unhandled e])
    end.
Proof.
  intros filename Hs Hshot Hmk Hwr.
  unfold onSession. unfold bind at 1. unfold get_world at 1.
  rewrite onSession_filename. fold filename.
  destruct (source_option_run h filename w) as (w1 & e1 & Hsrc & Ht1 & F1 & Ho1).
  unfold bind at 1. rewrite Hsrc.
  destruct (snap_written_run h filename img w1 Hs Hshot Hmk Hwr)
    as (pr & w2 & iu & au & Hsnap & Hcell & Hfiles & Ho2).
  destruct (appends_snap h filename _ _ _ Hsnap) as [e2 [Ht2 F2]].
  destruct (keeps_objs_snap h filename _ _ _ Hsnap) as (_ & Hn2 & _).
  unfold bind at 1. rewrite Hsnap.
  unfold bind at 1. rewrite await_run, Hcell.
  unfold bind at 1, then_. unfold bind at 1.
  rewrite appendImageUrlToStackTrace_run by reflexivity.
  set (o := ImageObj (filename ++ lit ".png") (snap_path h filename) iu au).
  exists (with_objs w2 (alter (annotate (stack_output h (VImage o))) r (objs w2))),
    (e1 ++ e2), o.
  split; [|split; [|split; [|split; [|split; [|split; [|split]]]]]];
    cycle 7.
  - destruct (emit r _) as [[[]|e] w3]; reflexivity.
  - simpl. now rewrite Ht2, Ht1, <- !app_assoc.
  - now apply Forall_app.
  - reflexivity.
  - reflexivity.
  - simpl. rewrite Hfiles. apply lookup_insert_eq.
  - simpl. now rewrite Ho2, Ho1.
  - simpl. rewrite Hn2. 
    destruct (has_option h "source") eqn:Hopt.
    + unfold bind, ret in Hsrc.
      destruct (source h filename w) as [[pr0|e0] w0] eqn:Hsource;
        [|discriminate].
      injection Hsrc as <-.
      now destruct (keeps_objs_source h filename _ _ _ Hsource) as (_ & Hn & _).
    + unfold ret in Hsrc. now injection Hsrc as <-.
Qed.

(** X15. A test title is set and an exception reaches the hook for the
    first time, with a session, a screenshot that is taken and a write that
    succeeds.  The screenshot is written to
    [path.join(path.resolve(screenShotPath), name + ".png")] where [name] is
    the slug of the title (or [ScreenShot_onException-pid-time] when the
    title is not set or empty); the exception is marked and its stack
    annotated with the location of the image; then, after all the capture
    calls, it is emitted.  The emission re-enters the hook, which takes no
    further capture: it is repeated until a listener ahead of the hook
    throws or the call stack is used up, and what it throws is left as a
    rejection without a handler. *)
Theorem hook_first_pass_captures_then_emits (h : host) (depth : nat)
    (title : option jsstring) (r : ref) (o : errobj) (w : world)
    (img : jsstring) :
  let filename := exception_filename h title in
  objs w !! r = Some o ->
  _nemoScreenshotHandled o = false ->
  objs_wf w ->
  getSession h = SessThenable (Resolved true) ->
  takeScreenshot h = Resolved img ->
  mkdirp_sync h (Path.dirname (snap_path h filename)) = None ->
  writeFile h (snap_path h filename) = None ->
  exists e w' evs io,
    bind (setCurrentTestTitle title)
         (fun _ => hook_pass_on_flow h depth r) w = (Ret tt, w') /\
    trace w' =
      trace w ++ evs ++ repeat (Emit r) (emissions h depth r)
              ++ [Unhandled e] /\
    Forall capture_io evs /\
    imageName io = filename ++ lit ".png" /\
    imagePath io = snap_path h filename /\
    files w' !! snap_path h filename = Some (img, Base64) /\
    objs w' !! r
    = Some (annotate (stack_output h (VImage io)) (mark_handled o)).
Proof.
  intros filename Hobj Hflag Hwf Hs Hshot Hmk Hwr.
  unfold bind at 1.
  change (setCurrentTestTitle title w) with (Ret tt, with_title w title).
  cbv beta iota. unfold hook_pass_on_flow.
  rewrite (onUncaughtException_unmarked h _ r (with_title w title))
    by (eapply is_marked_false; eassumption).
  rewrite Hs. cbv beta iota. unfold bind at 1, then_ at 1.
  match goal with
  | |- context [onSession h ?emit r true ?w0] =>
      destruct (onSession_written_then_emits h emit r w0 img)
        as (w1 & evs & io & Ht1 & F & Hname & Hpath & Hfile & Ho1 & Hn1 & Hrun)
  end; try assumption; [now rewrite Hs|].
  rewrite Hrun. simpl in Ht1, Ho1, Hn1, Hname, Hpath, Hfile.
  assert (Hr1 : objs w1 !! r
                = Some (annotate (stack_output h (VImage io)) (mark_handled o))).
  { now rewrite Ho1, !lookup_alter_eq, Hobj. }
  destruct (flow_emit_reentrant_marked h depth r _ w1 Hr1 eq_refl)
    as (e & w2 & Hemit & Ht2 & _ & _ & Hf2 & _ & Ho2).
  rewrite Hemit. unfold bind, catch_, then_, drop_promise, ret.
  exists e. eexists. exists (DriverCmd GetSession :: evs), io.
  split; [reflexivity|]. simpl.
  split; [rewrite Ht2, Ht1, <- !app_assoc; reflexivity|].
  split; [constructor; [exact I | exact F]|].
  split; [exact Hname|]. split; [exact Hpath|].
  split; [now rewrite Hf2|].
  rewrite Ho2; [exact Hr1|].
  rewrite Hn1. eapply objs_wf_fresh; eassumption.
Qed.


Lemma hook_first_pass_captures_then_emits_witness :
  let filename :=
    exception_filename host_exception_only (Some (lit "checkout: pays #1")) in
  exists e w' evs io,
    bind (setCurrentTestTitle (Some (lit "checkout: pays #1")))
         (fun _ => hook_pass_on_flow host_exception_only 2 0%nat)
         (world_with boom) = (Ret tt, w') /\
    trace w' =
      trace (world_with boom) ++ evs
      ++ repeat (Emit 0%nat) (emissions host_exception_only 2 0%nat)
      ++ [Unhandled e] /\
    Forall capture_io evs /\
    imageName io = filename ++ lit ".png" /\
    imagePath io = snap_path host_exception_only filename /\
    files w' !! snap_path host_exception_only filename
    = Some (lit "iVBORw0KGgo=", Base64) /\
    objs w' !! 0%nat
    = Some (annotate (stack_output host_exception_only (VImage io))
                     (mark_handled boom)).
Proof.
  apply (hook_first_pass_captures_then_emits host_exception_only 2%nat
           (Some (lit "checkout: pays #1")) 0%nat boom (world_with boom)
           (lit "iVBORw0KGgo="));
    try reflexivity. apply objs_wf_world_with.
Defined.

(** That pass on the sample host: the stack after it, and its calls. *)
Example hook_first_pass_annotated_stack :
  exists w',
    bind (setCurrentTestTitle (Some (lit "checkout: pays #1")))
         (fun _ => hook_pass_on_flow host_exception_only 2 0%nat)
         (world_with boom) = (Ret tt, w') /\
    objs w' !! 0%nat =
      Some (ErrObj (lit "boom")
              (Some (lit "Error: boom" ++ nl ++ lit "nemo-screenshot::{"
                       ++ [34] ++ lit "imageName" ++ [34] ++ lit ":"
                       ++ [34] ++ lit "checkout__pays__1.png" ++ [34] ++ lit ","
                       ++ [34] ++ lit "imagePath" ++ [34] ++ lit ":"
                       ++ [34] ++ lit "/w/report/checkout__pays__1.png" ++ [34]
                       ++ lit "}::nemo-screenshot"))
              true) /\
    trace w' =
      [DriverCmd GetSession; DriverCmd GetSession; DriverCmd TakeScreenshot;
       Mkdirp (lit "/w/report");
       WriteFile (lit "/w/report/checkout__pays__1.png") (lit "iVBORw0KGgo=")
                 Base64;
       Emit 0%nat; Emit 0%nat; Unhandled 1%nat].
Proof. eexists. split; [vm_compute; reflexivity|]. split; reflexivity. Qed.

(** ** What the captures never do *)

(** X17. [snap] and [source] never throw to their caller: whatever the
    driver and the file system do (failures, a throwing [mkdirp.sync], no
    answer at all), the call returns its promise.  The calls they make
    are driver commands, file-system calls and console output only: they
    never emit on the uncaught-exception event and never call a completion
    callback, and they leave every error object and the current test title
    as they were. *)
Theorem captures_return_and_keep_to_themselves (h : host)
    (filename : jsstring) (w : world) :
  (exists pr w' evs,
      snap h filename w = (Ret pr, w') /\
      trace w' = trace w ++ evs /\ Forall capture_io evs /\
      objs w' = objs w /\ currentTestTitle w' = currentTestTitle w) /\
  (exists pr w' evs,
      source h filename w = (Ret pr, w') /\
      trace w' = trace w ++ evs /\ Forall capture_io evs /\
      objs w' = objs w /\ currentTestTitle w' = currentTestTitle w).
Proof.
  split.
  - destruct (total_snap h filename w) as [pr [w' Hrun]].
    destruct (appends_snap h filename _ _ _ Hrun) as [evs [Ht F]].
    destruct (keeps_objs_snap h filename _ _ _ Hrun) as [Ho [_ Htitle]].
    exists pr, w', evs. now repeat split.
  - destruct (total_source h filename w) as [pr [w' Hrun]].
    destruct (appends_source h filename _ _ _ Hrun) as [evs [Ht F]].
    destruct (keeps_objs_source h filename _ _ _ Hrun) as [Ho [_ Htitle]].
    exists pr, w', evs. now repeat split.
Qed.

(** ** [done], end to end *)

(** X18. On a Jenkins host with [WORKSPACE], [JOB_NAME] and [BUILD_URL]
    set, a successful [done] leaves on the stack of the error, after the
    text it had, a line break and two lines: [nemo-screenshot (workspace): ]
    with the workspace URL and [nemo-screenshot (archived): ] with the
    archive URL.  The callback is then called once, with that error. *)
Theorem done_lists_urls_on_stack (h : host) (filename img : jsstring)
    (r : ref) (o : errobj) (w : world) :
  session_truthy (getSession h) = true ->
  takeScreenshot h = Resolved img ->
  mkdirp_sync h (Path.dirname (snap_path h filename)) = None ->
  writeFile h (snap_path h filename) = None ->
  truthy (JENKINS_URL h) = true -> truthy (WORKSPACE h) = true ->
  truthy (JOB_NAME h) = true -> truthy (BUILD_URL h) = true ->
  objs w !! r = Some o ->
  let rel := substr (length (to_str (WORKSPACE h))) (screenShotPath h) in
  let name := filename ++ lit ".png" in
  exists w',
    done h filename (EObj r) w = (Ret tt, w') /\
    callbacks (trace w') = callbacks (trace w) ++ [EObj r] /\
    objs w' !! r =
      Some (ErrObj (message o)
              (Some (to_str (stack o) ++ nl
                     ++ (lit "nemo-screenshot (workspace): "
                         ++ (to_str (JENKINS_URL h) ++ lit "job/"
                             ++ to_str (JOB_NAME h) ++ lit "/ws" ++ rel
                             ++ lit "/" ++ name) ++ nl)
                     ++ (lit "nemo-screenshot (archived): "
                         ++ (to_str (BUILD_URL h) ++ lit "artifact" ++ rel
                             ++ lit "/" ++ name) ++ nl)))
              (_nemoScreenshotHandled o)).
Proof.
  intros Hs Hshot Hmk Hwr Hj Hws Hjob Hbuild Hobj rel name.
  destruct (snap_written_with_urls h filename img w Hs Hshot Hmk Hwr)
    as (pr & w1 & Hsnap & Hcell & _ & Hobjs).
  destruct (appends_snap h filename _ _ _ Hsnap) as [evs [Htr Hio]].
  rewrite (done_run h filename (EObj r) w pr w1 Hsnap), Hcell.
  eexists. split; [reflexivity|]. simpl.
  split.
  { rewrite callbacks_app, Htr, callbacks_app.
    rewrite (callbacks_capture_io evs) by assumption.
    now rewrite app_nil_r. }
  rewrite lookup_alter_eq, Hobjs, Hobj. simpl. unfold annotate, stack_output.
  simpl prop_imageUrl. simpl prop_archivedImageUrl.
  unfold expected_imageUrl, expected_archivedImageUrl.
  rewrite Hj, Hws, Hjob, Hbuild. cbn [andb].
  rewrite !truthy_app_lit by discriminate. cbn [orb to_str].
  reflexivity.
Qed.

Lemma done_lists_urls_on_stack_witness :
  let rel := substr (length (to_str (WORKSPACE host_jenkins_build)))
                    (screenShotPath host_jenkins_build) in
  let name := lit "a" ++ lit ".png" in
  exists w',
    done host_jenkins_build (lit "a") (EObj 0%nat) (world_with boom)
      = (Ret tt, w') /\
    callbacks (trace w') = callbacks (trace (world_with boom)) ++ [EObj 0%nat] /\
    objs w' !! 0%nat =
      Some (ErrObj (message boom)
              (Some (to_str (stack boom) ++ nl
                     ++ (lit "nemo-screenshot (workspace): "
                         ++ (to_str (JENKINS_URL host_jenkins_build)
                             ++ lit "job/"
                             ++ to_str (JOB_NAME host_jenkins_build)
                             ++ lit "/ws" ++ rel ++ lit "/" ++ name) ++ nl)
                     ++ (lit "nemo-screenshot (archived): "
                         ++ (to_str (BUILD_URL host_jenkins_build)
                             ++ lit "artifact" ++ rel ++ lit "/" ++ name)
                         ++ nl)))
              (_nemoScreenshotHandled boom)).
Proof.
  apply (done_lists_urls_on_stack host_jenkins_build (lit "a")
           (lit "iVBORw0KGgo=") 0%nat boom (world_with boom)); reflexivity.
Defined.

(** X19. When the directory cannot be created, [done] never calls its
    completion callback and logs nothing: the promise of [snap] stays
    pending, so neither of the two continuations of [done] runs. *)
Theorem done_never_calls_back_on_directory_failure (h : host)
    (filename img : jsstring) (err : errarg) (w : world) (e : ref) :
  session_truthy (getSession h) = true ->
  takeScreenshot h = Resolved img ->
  mkdirp_sync h (Path.dirname (snap_path h filename)) = Some e ->
  exists w',
    done h filename err w = (Ret tt, w') /\
    callbacks (trace w') = callbacks (trace w) /\
    trace w' =
      trace w ++ [DriverCmd GetSession; DriverCmd TakeScreenshot;
                  Mkdirp (Path.dirname (snap_path h filename)); Unhandled e] /\
    objs w' = objs w.
Proof.
  intros Hs Hshot Hmk.
  destruct (snap_directory_failure_run h filename img w e Hs Hshot Hmk)
    as (pr & w1 & Hsnap & Hcell & _ & Hobjs & Htr).
  rewrite (done_run h filename err w pr w1 Hsnap), Hcell.
  exists w1. split; [reflexivity|]. split; [|now split].
  rewrite Htr, callbacks_app. simpl. apply app_nil_r.
Qed.

Lemma done_never_calls_back_on_directory_failure_witness :
  exists w',
    done host_mkdirp_fails (lit "shot") (EObj 0%nat) (world_with boom)
      = (Ret tt, w') /\
    callbacks (trace w') = callbacks (trace (world_with boom)) /\
    trace w' =
      trace (world_with boom)
      ++ [DriverCmd GetSession; DriverCmd TakeScreenshot;
          Mkdirp (Path.dirname (snap_path host_mkdirp_fails (lit "shot")));
          Unhandled 0%nat] /\
    objs w' = objs (world_with boom).
Proof.
  apply (done_never_calls_back_on_directory_failure host_mkdirp_fails
           (lit "shot") (lit "iVBORw0KGgo=") (EObj 0%nat) (world_with boom)
           0%nat); reflexivity.
Defined.

(** ** [done]: the calls of the completion callback *)

Lemma snap_no_answer_run (h : host) (filename : jsstring) (w : world) :
  session_truthy (getSession h) = true ->
  takeScreenshot h = Never ->
  exists pr w',
    snap h filename w = (Ret pr, w') /\
    cells w' !! pr = Some Pending.
Proof.
  intros Hs Hshot. unfold snap.
  destruct (p_returns h w) as [d [c [n [Hp [Hc [Hf Hr]]]]]].
  unfold bind at 1. rewrite Hp. run_monad. rewrite Hs, Hshot. simpl.
  eexists _, _. split; [reflexivity|]. exact Hc.
Qed.

(** [snap] always returns its promise, in the state [snap_state] reads off
    the host. *)
Lemma snap_settles (h : host) (filename : jsstring) (w : world) :
  exists pr w',
    snap h filename w = (Ret pr, w') /\
    cells w' !! pr = Some (snap_state h filename).
Proof.
  unfold snap_state.
  destruct (session_truthy (getSession h)) eqn:Hs; cbn [negb].
  - destruct (takeScreenshot h) as [img|e|] eqn:Hshot.
    + destruct (mkdirp_sync h (Path.dirname (snap_path h filename)))
        as [e|] eqn:Hmk.
      * destruct (snap_directory_failure_run h filename img w e Hs Hshot Hmk)
          as (pr & w' & Hrun & Hcell & _). eauto.
      * destruct (writeFile h (snap_path h filename)) as [e|] eqn:Hwr.
        -- destruct (snap_write_failure_run h filename img w e Hs Hshot Hmk Hwr)
             as (pr & w' & Hrun & Hcell & _). eauto.
        -- destruct (snap_written_with_urls h filename img w Hs Hshot Hmk Hwr)
             as (pr & w' & Hrun & Hcell & _). eauto.
    + destruct (snap_retrieval_failure_run h filename w e Hs Hshot)
        as (pr & w' & Hrun & Hcell & _). eauto.
    + now apply snap_no_answer_run.
  - destruct (snap_no_session_run h filename w Hs) as (pr & c & n & Hrun & Hcell).
    eauto.
Qed.

(** C6.  The calls [done] makes on its completion callback, for every
    host, file name, error argument and world: [done] returns, and the
    callback is called
    - once with the error argument, when the promise of [snap] is
      fulfilled (no session, or a screenshot taken and written) and the
      argument is falsy or an object whose stack can be written;
    - once with the failure of [snap], when its promise is rejected (the
      screenshot cannot be taken, or the write fails);
    - not at all, when the promise of [snap] stays pending, which is what
      happens when [mkdirp.sync] throws and when the driver does not
      answer, and when the assignment to the stack throws (a truthy
      primitive, a frozen object).
    So the callback is not called exactly once on every input: a
    directory that cannot be created leaves the test without its
    completion call. *)
Theorem done_callback_calls (h : host) (filename : jsstring) (err : errarg)
    (w : world) :
  (exists w',
     done h filename err w = (Ret tt, w') /\
     callbacks (trace w') = callbacks (trace w) ++ done_calls h filename err /\
     (forall v r,
        snap_state h filename = Fulfilled v -> err = EObj r ->
        objs w' = alter (annotate (stack_output h v)) r (objs w))) /\
  (forall img e,
     session_truthy (getSession h) = true ->
     takeScreenshot h = Resolved img ->
     mkdirp_sync h (Path.dirname (snap_path h filename)) = Some e ->
     done_calls h filename err = []).
Proof.
  split.
  - destruct (snap_settles h filename w) as (pr & w1 & Hsnap & Hcell).
    destruct (appends_snap h filename _ _ _ Hsnap) as [evs [Htr Hio]].
    assert (Hcb : callbacks (trace w1) = callbacks (trace w)).
    { rewrite Htr, callbacks_app, (callbacks_capture_io evs) by assumption.
      apply app_nil_r. }
    destruct (keeps_objs_snap h filename _ _ _ Hsnap) as [Hobjs _].
    eexists. split; [exact (done_run h filename err w pr w1 Hsnap)|].
    rewrite Hcell. unfold done_calls.
    destruct (snap_state h filename) as [|v|e].
    + rewrite Hcb. split; [now rewrite app_nil_r | discriminate].
    + split.
      * destruct (annotatable err) eqn:E.
        -- simpl. rewrite callbacks_app. simpl.
           destruct err; simpl; now rewrite Hcb.
        -- simpl. rewrite callbacks_app, Hcb. reflexivity.
      * intros v' r [= <-] ->. simpl. now rewrite Hobjs.
    + split; [|discriminate].
      simpl. rewrite callbacks_app, Hcb. reflexivity.
  - intros img e Hs Hshot Hmk. unfold done_calls, snap_state.
    now rewrite Hs, Hshot, Hmk.
Qed.

Lemma done_callback_calls_witness :
  exists w',
    done host_mkdirp_fails (lit "shot") (EObj 0%nat) (world_with boom)
      = (Ret tt, w') /\
    callbacks (trace w') = [].
Proof.
  destruct (done_callback_calls host_mkdirp_fails (lit "shot") (EObj 0%nat)
              (world_with boom)) as [(w' & Hrun & Hcalls & _) Hnone].
  exists w'. split; [exact Hrun|]. rewrite Hcalls.
  rewrite (Hnone (lit "iVBORw0KGgo=") 0%nat); reflexivity.
Defined.

(** The report directory cannot be created: the callback of the test is
    never called. *)
Example done_directory_failure_no_call :
  exists w',
    done host_mkdirp_fails (lit "shot") (EObj 0%nat) (world_with boom)
      = (Ret tt, w') /\
    callbacks (trace w') = [] /\
    trace w' =
      [DriverCmd GetSession; DriverCmd TakeScreenshot;
       Mkdirp (lit "/w/report"); Unhandled 0%nat].
Proof. eexists. split; [vm_compute; reflexivity|]. split; reflexivity. Qed.

(** The error handed to [done] is a string: the assignment to its [stack]
    throws after the screenshot has been written, and the callback is
    never called. *)
Example done_primitive_error_no_call :
  exists w',
    done host_exception_only (lit "shot") (EPrim (PString (lit "boom")))
         empty_world = (Ret tt, w') /\
    callbacks (trace w') = [] /\
    trace w' =
      [DriverCmd GetSession; DriverCmd TakeScreenshot;
       Mkdirp (lit "/w/report");
       WriteFile (lit "/w/report/shot.png") (lit "iVBORw0KGgo=") Base64;
       Unhandled 0%nat].
Proof. eexists. split; [vm_compute; reflexivity|]. split; reflexivity. Qed.

(** ** One emission per pass *)

Lemma flow_emit_run (h : host) (r : ref) (w : world) :
  exists res,
    flow_emit h r w = (res, with_events w [Emit r]).
Proof.
  unfold flow_emit, bind, emit_event, with_events.
  destruct (emit_throws h r); eexists; reflexivity.
Qed.

Lemma onSession_emits_at_most_once (h : host) (r : ref) (w : world) :
  exists w' evs,
    onSession h (flow_emit h) r true w = (Ret tt, w') /\
    trace w' = trace w ++ evs /\
    (emits evs = [] \/ emits evs = [r]).
Proof.
  unfold onSession. unfold bind at 1. unfold get_world at 1.
  rewrite onSession_filename.
  set (filename := exception_filename h (currentTestTitle w)).
  destruct (source_option_run h filename w) as (w1 & e1 & Hsrc & Ht1 & F1 & _).
  unfold bind at 1. rewrite Hsrc.
  destruct (total_snap h filename w1) as [pr [w2 Hsnap]].
  destruct (appends_snap h filename _ _ _ Hsnap) as [e2 [Ht2 F2]].
  unfold bind at 1. rewrite Hsnap.
  unfold bind at 1. rewrite await_run.
  assert (Hquiet : emits (e1 ++ e2) = []).
  { apply emits_capture_io. now apply Forall_app. }
  destruct (cells w2 !! pr) as [[|v|e]|].
  - exists w2, (e1 ++ e2). split; [reflexivity|].
    split; [now rewrite Ht2, Ht1, <- app_assoc | now left].
  - unfold bind at 1, then_. unfold bind at 1.
    rewrite appendImageUrlToStackTrace_run by reflexivity.
    match goal with
    | |- context [flow_emit h r ?w0] =>
        destruct (flow_emit_run h r w0) as [res Hemit]
    end.
    rewrite Hemit.
    destruct res as [[]|e']; unfold drop_promise, emit_event, ret.
    + eexists _, (e1 ++ e2 ++ [Emit r]). split; [reflexivity|].
      split.
      * destruct v; simpl; rewrite Ht2, Ht1, <- !app_assoc; reflexivity.
      * right. rewrite app_assoc, emits_app, Hquiet. reflexivity.
    + eexists _, (e1 ++ e2 ++ [Emit r; Unhandled e']). split; [reflexivity|].
      split.
      * destruct v; simpl; rewrite Ht2, Ht1, <- !app_assoc; reflexivity.
      * right. rewrite app_assoc, emits_app, Hquiet. reflexivity.
  - unfold bind, then_, drop_promise, emit_event.
    eexists _, (e1 ++ e2 ++ [Unhandled e]). split; [reflexivity|].
    split; [simpl; now rewrite Ht2, Ht1, <- !app_assoc|].
    left. rewrite app_assoc, emits_app, Hquiet. reflexivity.
  - exists w2, (e1 ++ e2). split; [reflexivity|].
    split; [now rewrite Ht2, Ht1, <- app_assoc | now left].
Qed.

(** X20. One pass of the hook over an exception that is not yet marked
    emits at most once, and only that exception, on every host: whatever
    the session query, the captures and the listeners of the event do. *)
Theorem hook_emits_at_most_once (h : host) (r : ref) (w : world) :
  is_marked w r = false ->
  exists res w' evs,
    hook_pass h r w = (res, w') /\
    trace w' = trace w ++ evs /\
    (emits evs = [] \/ emits evs = [r]).
Proof.
  intros Hm. rewrite (hook_pass_unmarked h r w Hm).
  destruct (getSession h) as [|[[|]|e|]]; cbv beta iota.
  - eexists _, _, [DriverCmd GetSession]. split; [reflexivity|].
    split; [reflexivity | now left].
  - unfold bind at 1, then_ at 1.
    match goal with
    | |- context [onSession h (flow_emit h) r true ?w0] =>
        destruct (onSession_emits_at_most_once h r w0)
          as (w' & evs & Hrun & Ht & Hev)
    end.
    rewrite Hrun. unfold bind, catch_, then_, drop_promise, ret.
    exists (Ret tt), w', (DriverCmd GetSession :: evs).
    split; [reflexivity|]. simpl in Ht.
    split; [now rewrite Ht, <- app_assoc | exact Hev].
  - unfold bind, then_, catch_, onSession, throw, set_handled, get_world,
      set_objs, drop_promise, ret, flow_emit, emit_event. simpl.
    destruct (emit_throws h r).
    + eexists _, _, [DriverCmd GetSession; Emit r; Unhandled _].
      split; [reflexivity|]. simpl. rewrite <- !app_assoc.
      split; [reflexivity | now right].
    + eexists _, _, [DriverCmd GetSession; Emit r]. split; [reflexivity|].
      simpl. rewrite <- app_assoc. split; [reflexivity | now right].
  - unfold bind, then_, catch_, onSession, throw, set_handled, get_world,
      set_objs, drop_promise, ret, flow_emit, emit_event. simpl.
    destruct (emit_throws h r).
    + eexists _, _, [DriverCmd GetSession; Emit r; Unhandled _].
      split; [reflexivity|]. simpl. rewrite <- !app_assoc.
      split; [reflexivity | now right].
    + eexists _, _, [DriverCmd GetSession; Emit r]. split; [reflexivity|].
      simpl. rewrite <- app_assoc. split; [reflexivity | now right].
  - eexists _, _, [DriverCmd GetSession]. split; [reflexivity|].
    split; [reflexivity | now left].
Qed.

Lemma hook_emits_at_most_once_witness :
  exists res w' evs,
    hook_pass sample_host 0%nat (world_with boom) = (res, w') /\
    trace w' = trace (world_with boom) ++ evs /\
    (emits evs = [] \/ emits evs = [0%nat]).
Proof.
  apply (hook_emits_at_most_once sample_host 0%nat (world_with boom)).
  reflexivity.
Defined.

(** ** The walk of the DOM *)

Section DomInduction.

Variable P : domNode -> Prop.
Hypothesis step :
  forall t d p children, Forall P children -> P (DomNode t d p children).

Lemma domNode_forall_ind (n : domNode) : P n.
Proof.
  revert n. fix IH 1. intros [t d p children]. apply step.
  induction children as [|c cs IHcs]; constructor; [apply IH | exact IHcs].
Qed.

End DomInduction.

Lemma document_order_unfold (t : N) (d : jsstring) (p : N)
    (children : list domNode) :
  document_order (DomNode t d p children)
  = DomNode t d p children :: children_order children.
Proof.
  simpl. f_equal. unfold children_order.
  induction children as [|c cs IH]; [reflexivity|]. simpl. now rewrite IH.
Qed.

Lemma walk_is_fold {A} (func : domNode -> A -> A) (node : domNode) (acc : A) :
  walkTheDOMGetInvisiNodes node func acc
  = fold_left (fun a n => func n a) (document_order node) acc.
Proof.
  revert acc. induction node as [t d p children IH] using domNode_forall_ind.
  intros acc. rewrite document_order_unfold. simpl.
  generalize (func (DomNode t d p children) acc). clear acc.
  unfold children_order.
  induction IH as [|c cs Hc _ IHcs]; intros acc; [reflexivity|].
  simpl. rewrite fold_left_app, <- Hc. apply IHcs.
Qed.

(** X21. [walkTheDOMGetInvisiNodes] calls [func] on every node of the tree
    exactly once, in document order (a node before its children, the
    children from first to last), threading the one array through all the
    calls: it is the left fold of [func] over the nodes in document order,
    and the walk of a node with children is [func] on the node followed by
    the walks of the children. *)
Theorem walkTheDOM_visits_in_document_order {A} (func : domNode -> A -> A)
    (node : domNode) (acc : A) :
  walkTheDOMGetInvisiNodes node func acc
  = fold_left (fun a n => func n a) (document_order node) acc /\
  document_order node
  = node :: concat (map document_order (childNodes_of node)).
Proof.
  split; [apply walk_is_fold|].
  destruct node as [t d p children]. apply document_order_unfold.
Qed.

Lemma starts_with_marker_take (text : jsstring) :
  starts_with_marker text = true <-> take 3 text = [8288; 56128; 56814].
Proof.
  unfold starts_with_marker. split.
  - intros H. apply andb_prop in H as [H H2]. apply andb_prop in H as [H0 H1].
    apply bool_decide_eq_true in H0, H1, H2.
    destruct text as [|c0 [|c1 [|c2 text]]]; try discriminate.
    injection H0 as ->. injection H1 as ->. injection H2 as ->. reflexivity.
  - intros H. destruct text as [|c0 [|c1 [|c2 text]]]; try discriminate.
    injection H as -> -> ->. reflexivity.
Qed.

Lemma processAllTextNodes_spec (node : domNode) (acc : list invisiNode) :
  processAllTextNodes node acc =
  if is_invisiNode node
  then acc ++ [InvisiNode (trim (data_of node)) (parentNode_of node)]
  else acc.
Proof.
  unfold processAllTextNodes, is_invisiNode.
  destruct (nodeType_of node =? 3); [|reflexivity]. cbn [andb].
  destruct (starts_with_marker (trim (data_of node))) eqn:E.
  - apply starts_with_marker_take in E.
    destruct (trim (data_of node)); [discriminate | reflexivity].
  - now destruct (Nat.ltb 0 (length (trim (data_of node)))).
Qed.

Lemma fold_processAllTextNodes (nodes : list domNode) (acc : list invisiNode) :
  fold_left (fun a n => processAllTextNodes n a) nodes acc
  = acc ++ map (fun n => InvisiNode (trim (data_of n)) (parentNode_of n))
               (List.filter is_invisiNode nodes).
Proof.
  revert acc. induction nodes as [|n nodes IH]; intros acc.
  - simpl. now rewrite app_nil_r.
  - simpl. rewrite IH, processAllTextNodes_spec.
    destruct (is_invisiNode n); [|reflexivity].
    simpl. now rewrite <- app_assoc.
Qed.

(** X22. The array the script collects: walking a tree with
    [processAllTextNodes] appends to the array, in document order, one
    entry for each text node (node type 3) whose trimmed data begins with
    the code units 8288, 56128, 56814, and nothing else; the entry holds
    the trimmed text and the node's parent.  So every text collected
    begins with the marker, and white space around the marker in the
    document does not hide a node. *)
Theorem invisiNodes_are_the_marked_text_nodes (root : domNode)
    (invisiNodes : list invisiNode) :
  let collected :=
    map (fun n => InvisiNode (trim (data_of n)) (parentNode_of n))
        (List.filter is_invisiNode (document_order root)) in
  walkTheDOMGetInvisiNodes root processAllTextNodes invisiNodes
  = invisiNodes ++ collected /\
  Forall (fun e => take 3 (invisitext e) = [8288; 56128; 56814]) collected.
Proof.
  intros collected. split.
  - rewrite walk_is_fold. apply fold_processAllTextNodes.
  - unfold collected. apply Forall_forall. intros e He.
    apply list_elem_of_In, in_map_iff in He as [n [<- Hn]].
    apply List.filter_In in Hn as [_ Hn]. simpl.
    unfold is_invisiNode in Hn. apply andb_prop in Hn as [_ Hn].
    now apply starts_with_marker_take.
Qed.

(** On the sample document the two marked texts are found, the plain text
    and the blank text are not. *)
Example invisiNodes_of_sample_body :
  walkTheDOMGetInvisiNodes sample_body processAllTextNodes []
  = [ InvisiNode ([8288; 56128; 56814] ++ lit "price") 2;
      InvisiNode ([8288; 56128; 56814] ++ lit "total") 4 ].
Proof. reflexivity. Qed.
